(** * Route sequencing engine of the logistics route optimizer

    A shallow embedding of
      - [algorithms/tsp.js]        (nearest neighbour, 2-opt, TSP metrics),
      - [algorithms/dijkstra.js]   (frontier heuristic, metrics, reoptimisation),
      - [services/googleMaps.js]   ([getDistanceMatrix]),
      - [controllers/routeOptimizationController.js]
        ([optimizeRoute], [reoptimizeCurrentRoute], [compareAlgorithms]),
    then of
      - [utils/cache.js]           (the cache with expiry, its timers, [cachify]),
      - [services/googleMaps.js]   (the services on the cache, [geocodeAddress],
                                    [getDirections], [getTrafficData]),
      - [controllers/routeOptimizationController.js]
        ([getRouteTrafficData], [simulateFuelSavings]),
      - [middleware/errorHandler.js], [middleware/validator.js]
        ([errorHandler], [createError], [validate]),
    followed by the properties of the engine stated over that embedding. *)

From Stdlib Require Import ZArith QArith Qround Qabs String Ascii DecimalString.
From stdpp Require Import base list gmap strings.
From Stdlib Require Import Lia.

Local Open Scope Z_scope.
Local Open Scope nat_scope.
Local Open Scope list_scope.

(** ** JavaScript values met by the engine *)

Module JS.

(** A thrown value: the engine only tells a [TypeError] (reading a property of
    [null] or [undefined]) from an [Error] carrying a message. *)
Inductive error : Type :=
  | TypeError
  | Error (message : string).

(** What running a piece of the program gives: a value, a thrown error, or
    [OutOfFuel] when the bound given to a [while] loop of the model was
    reached with the loop guard still true. *)
Inductive outcome (A : Type) : Type :=
  | Ret (a : A)
  | Throw (e : error)
  | OutOfFuel.
Arguments Ret {A} a.
Arguments Throw {A} e.
Arguments OutOfFuel {A}.

Definition bind {A B} (c : outcome A) (k : A -> outcome B) : outcome B :=
  match c with
  | Ret a => k a
  | Throw e => Throw e
  | OutOfFuel => OutOfFuel
  end.

(** [try { c } catch (error) { throw new Error(msg) }] *)
Definition rethrow {A} (msg : string) (c : outcome A) : outcome A :=
  match c with
  | Throw _ => Throw (Error msg)
  | other => other
  end.

(** The numbers the sequencing algorithms compute with: the distance matrix
    API reports whole metres, [Infinity] marks a missing leg, and [NaN] is what
    [undefined] becomes under [<] and [+]. Negative infinity never arises
    (the algorithms only add). *)
Inductive num : Type :=
  | Fin (z : Z)
  | Inf
  | NaN.

(** [a + b] *)
Definition add (a b : num) : num :=
  match a, b with
  | NaN, _ | _, NaN => NaN
  | Inf, _ | _, Inf => Inf
  | Fin x, Fin y => Fin (x + y)
  end.

(** [a < b]: false as soon as one side is [NaN]. *)
Definition lt (a b : num) : bool :=
  match a, b with
  | Fin x, Fin y => (x <? y)%Z
  | Fin _, Inf => true
  | _, _ => false
  end.

(** [a <= b] *)
Definition le (a b : num) : bool :=
  match a, b with
  | Fin x, Fin y => (x <=? y)%Z
  | Fin _, Inf => true
  | Inf, Inf => true
  | _, _ => false
  end.

(** [arr[i] = x] on an array: in range it overwrites, out of range it extends
    the array, the holes in between reading as [hole]. *)
Definition array_set {A} (hole : A) (arr : list A) (i : nat) (x : A) : list A :=
  if i <? length arr then <[i:=x]> arr
  else arr ++ replicate (i - length arr) hole ++ [x].

End JS.

Import JS.

Notation "'let*' x ':=' c 'in' k" := (bind c (fun x => k))
  (at level 10, x name, c at level 100, k at level 200).

(** ** algorithms/tsp.js: the numeric core *)

(** [distanceMatrix]: an array of rows of numbers. *)
Abbreviation Matrix := (list (list num)).

(** [distanceMatrix[a][b]]. A missing row is [undefined], and indexing it
    throws; a missing entry of an existing row is [undefined]. *)
Definition entry (distanceMatrix : Matrix) (a b : nat) : outcome num :=
  match distanceMatrix !! a with
  | None => Throw TypeError
  | Some row => Ret (default NaN (row !! b))
  end.

(** [visited[i]], [undefined] being falsy. *)
Definition is_visited (visited : list bool) (i : nat) : bool :=
  default false (visited !! i).

(** The [for] loop of [nearestNeighbor] over the indices [idxs], with the loop
    variables [nearestPoint] ([None] for [-1]) and [minDistance]. *)
Fixpoint nearest_scan (distanceMatrix : Matrix) (currentPoint : nat)
    (visited : list bool) (idxs : list nat)
    (nearestPoint : option nat) (minDistance : num)
    : outcome (option nat * num) :=
  match idxs with
  | [] => Ret (nearestPoint, minDistance)
  | i :: rest =>
      if negb (is_visited visited i) then
        let* d := entry distanceMatrix currentPoint i in
        if lt d minDistance
        then nearest_scan distanceMatrix currentPoint visited rest (Some i) d
        else nearest_scan distanceMatrix currentPoint visited rest
               nearestPoint minDistance
      else nearest_scan distanceMatrix currentPoint visited rest
             nearestPoint minDistance
  end.

(** The [while (tour.length < numPoints)] loop of [nearestNeighbor]. *)
Fixpoint nearest_while (fuel : nat) (distanceMatrix : Matrix) (numPoints : nat)
    (visited : list bool) (tour : list nat) : outcome (list nat) :=
  if length tour <? numPoints then
    match fuel with
    | O => OutOfFuel
    | S fuel' =>
        match last tour with
        | None => Throw TypeError
        | Some currentPoint =>
            let* r := nearest_scan distanceMatrix currentPoint visited
                   (seq 0 numPoints) None Inf in
            match fst r with
            | None => Ret tour
            | Some nearestPoint =>
                nearest_while fuel' distanceMatrix numPoints
                  (array_set false visited nearestPoint true)
                  (tour ++ [nearestPoint])
            end
        end
    end
  else Ret tour.

Definition nearestNeighbor (distanceMatrix : Matrix) (startIndex : nat)
    : outcome (list nat) :=
  let numPoints := length distanceMatrix in
  let visited := replicate numPoints false in
  let tour := [startIndex] in
  let visited := array_set false visited startIndex true in
  nearest_while numPoints distanceMatrix numPoints visited tour.

(** [tour[i]] used as a row or column index: out of range it is [undefined],
    the row [distanceMatrix[undefined]] is [undefined] too, and reading an
    entry of it throws. *)
Definition tour_at (tour : list nat) (i : nat) : outcome nat :=
  match tour !! i with
  | Some p => Ret p
  | None => Throw TypeError
  end.

(** The [for] loop of [calculateTourDistance] over the leg indices [idxs]. *)
Fixpoint tour_legs (tour : list nat) (distanceMatrix : Matrix) (idxs : list nat)
    (totalDistance : num) : outcome num :=
  match idxs with
  | [] => Ret totalDistance
  | i :: rest =>
      let* a := tour_at tour i in
      let* b := tour_at tour (i + 1) in
      let* d := entry distanceMatrix a b in
      tour_legs tour distanceMatrix rest (add totalDistance d)
  end.

Definition calculateTourDistance (tour : list nat) (distanceMatrix : Matrix)
    : outcome num :=
  tour_legs tour distanceMatrix (seq 0 (length tour - 1)) (Fin 0).

(** [[newTour[left], newTour[right]] = [newTour[right], newTour[left]]];
    both positions are inside the tour wherever 2-opt swaps. *)
Definition swap (newTour : list nat) (left right : nat) : list nat :=
  match newTour !! left, newTour !! right with
  | Some x, Some y => <[right:=x]> (<[left:=y]> newTour)
  | _, _ => newTour
  end.

(** [while (left < right) { swap; left++; right--; }] *)
Fixpoint reverse_while (newTour : list nat) (left right : nat) {struct right}
    : list nat :=
  if left <? right then
    match right with
    | O => newTour
    | S right' => reverse_while (swap newTour left right) (S left) right'
    end
  else newTour.

(** The inner [for (let j = i + 2; ...)] loop of one 2-opt pass over the
    indices [js]: the first improving reversal, if any. *)
Fixpoint two_opt_inner (bestTour : list nat) (bestDistance : num)
    (distanceMatrix : Matrix) (i : nat) (js : list nat)
    : outcome (option (list nat * num)) :=
  match js with
  | [] => Ret None
  | j :: rest =>
      if j =? i + 1 then two_opt_inner bestTour bestDistance distanceMatrix i rest
      else
        let newTour := reverse_while bestTour (i + 1) j in
        let* newDistance := calculateTourDistance newTour distanceMatrix in
        if lt newDistance bestDistance then Ret (Some (newTour, newDistance))
        else two_opt_inner bestTour bestDistance distanceMatrix i rest
  end.

(** The outer [for (let i = 0; i < bestTour.length - 2; i++)] loop of one
    pass over the indices [idxs]. *)
Fixpoint two_opt_outer (bestTour : list nat) (bestDistance : num)
    (distanceMatrix : Matrix) (idxs : list nat)
    : outcome (option (list nat * num)) :=
  match idxs with
  | [] => Ret None
  | i :: rest =>
      let* r := two_opt_inner bestTour bestDistance distanceMatrix i
             (seq (i + 2) (length bestTour - (i + 2))) in
      match r with
      | Some found => Ret (Some found)
      | None => two_opt_outer bestTour bestDistance distanceMatrix rest
      end
  end.

Definition two_opt_pass (bestTour : list nat) (bestDistance : num)
    (distanceMatrix : Matrix) : outcome (option (list nat * num)) :=
  two_opt_outer bestTour bestDistance distanceMatrix
    (seq 0 (length bestTour - 2)).

(** [while (improved && iteration < maxIterations)], by recursion on the
    passes left, [maxIterations - iteration]. *)
Fixpoint two_opt_while (passesLeft : nat) (bestTour : list nat)
    (bestDistance : num) (distanceMatrix : Matrix) : outcome (list nat) :=
  match passesLeft with
  | O => Ret bestTour
  | S passesLeft' =>
      let* r := two_opt_pass bestTour bestDistance distanceMatrix in
      match r with
      | Some (newTour, newDistance) =>
          two_opt_while passesLeft' newTour newDistance distanceMatrix
      | None => Ret bestTour
      end
  end.

Definition twoOptImprovement (tour : list nat) (distanceMatrix : Matrix)
    (maxIterations : nat) : outcome (list nat) :=
  let bestTour := tour in
  let* bestDistance := calculateTourDistance bestTour distanceMatrix in
  two_opt_while maxIterations bestTour bestDistance distanceMatrix.

(** The default of the [maxIterations] parameter. *)
Definition defaultMaxIterations : nat := 100.

(** The matrix of the four-point scenario: hub H = 0, A = 1, B = 2, C = 3. *)
Definition scenarioMatrix : Matrix :=
  [ [Fin 0;  Fin 1;  Fin 10; Fin 10];
    [Fin 1;  Fin 0;  Fin 1;  Fin 9 ];
    [Fin 10; Fin 1;  Fin 0;  Fin 1 ];
    [Fin 10; Fin 9;  Fin 1;  Fin 0 ] ].

(** A three-point matrix whose last point has no finite leg to or from the
    others. *)
Definition islandMatrix : Matrix :=
  [ [Fin 0; Fin 1; Inf];
    [Fin 1; Fin 0; Inf];
    [Inf;   Inf;   Fin 0] ].

(** ** services/googleMaps.js: the distance matrix oracle *)

(** A delivery point or the hub, as the request body carries it. *)
Record Point : Type := {
  orderId : option string;
  lat : option Q;
  lng : option Q;
  address : option string;
  formattedAddress : option string
}.

(** An element of an array of points; [None] is [undefined]. *)
Abbreviation JSPoint := (option Point).

(** [{ text, value }], the shape of [distance] and [duration]. *)
Record Measure : Type := { text : string; value : Z }.

(** One element of a row of the provider's response. *)
Record Element : Type := {
  e_status : string;
  e_distance : option Measure;
  e_duration : option Measure;
  e_duration_in_traffic : option Measure
}.

Record Row : Type := { elements : list Element }.

(** [response.data] *)
Record Response : Type := { r_status : string; rows : list Row }.

(** A cell of the formatted matrix. *)
Record Cell : Type := {
  distance : option Measure;
  duration : option Measure;
  duration_in_traffic : option Measure
}.

(** The formatted matrix; [None] is the [null] pushed for an element whose
    status is not OK. *)
Abbreviation RawMatrix := (list (list (option Cell))).

Definition format_element (element : Element) : option Cell :=
  if String.eqb (e_status element) "OK" then
    Some {| distance := e_distance element;
            duration := e_duration element;
            duration_in_traffic := e_duration_in_traffic element |}
  else None.

Definition format_rows (rows : list Row) : RawMatrix :=
  map (fun row => map format_element (elements row)) rows.

(** [points.map(point => `${point.lat},${point.lng}`)] reads a property of
    every point and throws on [undefined]. *)
Fixpoint locations (points : list JSPoint) : outcome (list Point) :=
  match points with
  | [] => Ret []
  | None :: _ => Throw TypeError
  | Some p :: rest => let* ps := locations rest in Ret (p :: ps)
  end.

(** The body of [getDistanceMatrix], given what the cache lookup and the
    request to the provider return. The cache write does not affect the
    result and is left out. *)
Definition getDistanceMatrixFrom (cachedResult : option RawMatrix)
    (request : outcome Response) : outcome RawMatrix :=
  rethrow "Failed to get distance matrix from Google Maps API"
    match cachedResult with
    | Some matrix => Ret matrix
    | None =>
        let* response := request in
        if negb (String.eqb (r_status response) "OK") then
          Throw (Error ("Google Maps API error: " ++ r_status response))
        else Ret (format_rows (rows response))
    end.

(** ** JavaScript comparison on the cells of the formatted matrix *)

(** The values the frontier heuristic stores and compares. *)
Inductive jsval : Type :=
  | VNum (x : num)
  | VNull
  | VUndefined
  | VObject (c : Cell).

(** [ToNumber]: [null] is [+0]; [undefined] is [NaN]; a plain object goes
    through [toString], "[object Object]", which is [NaN]. *)
Definition ToNumber (v : jsval) : num :=
  match v with
  | VNum x => x
  | VNull => Fin 0
  | VUndefined => NaN
  | VObject _ => NaN
  end.

(** [a < b] on values none of which is a string. *)
Definition less_than (a b : jsval) : bool := lt (ToNumber a) (ToNumber b).

(** [distanceMatrix[a][b]] on the formatted matrix. *)
Definition raw_entry (distanceMatrix : RawMatrix) (a b : nat) : outcome jsval :=
  match distanceMatrix !! a with
  | None => Throw TypeError
  | Some row =>
      Ret match row !! b with
          | None => VUndefined
          | Some None => VNull
          | Some (Some c) => VObject c
          end
  end.

(** [distances[i]] *)
Definition distance_at (distances : list jsval) (i : nat) : jsval :=
  default VUndefined (distances !! i).

(** [allPoints[index]] *)
Definition point_at (allPoints : list JSPoint) (index : nat) : JSPoint :=
  default None (allPoints !! index).

(** ** Route metrics *)

Record Metrics : Type := {
  totalDistance : Q;
  totalTime : Q;
  fuelSavingsPercentage : option string
}.

(** [distanceMatrix[i][i + 1].distance.value] and
    [distanceMatrix[i][i + 1].duration.value]: each step through a missing
    row, a [null] or [undefined] cell or a missing field throws. *)
Definition leg (distanceMatrix : RawMatrix) (i : nat) : outcome (Z * Z) :=
  match distanceMatrix !! i with
  | None => Throw TypeError
  | Some row =>
      match row !! (i + 1) with
      | Some (Some cell) =>
          match distance cell, duration cell with
          | Some d, Some t => Ret (value d, value t)
          | _, _ => Throw TypeError
          end
      | _ => Throw TypeError
      end
  end.

(** The summing [for] loop shared by both metrics functions. *)
Fixpoint sum_legs (distanceMatrix : RawMatrix) (idxs : list nat)
    (totalDistance totalTime : Z) : outcome (Z * Z) :=
  match idxs with
  | [] => Ret (totalDistance, totalTime)
  | i :: rest =>
      let* dt := leg distanceMatrix i in
      sum_legs distanceMatrix rest
        (totalDistance + fst dt)%Z (totalTime + snd dt)%Z
  end.

(** Decimal digits of a natural number. *)
Definition digits (n : N) : string := NilZero.string_of_uint (N.to_uint n).

(** [x.toFixed(2)] for a finite [x]: the integer [n] nearest to [100 x]
    (the larger one of two), printed with the point before its last two
    digits; a negative [x] is printed as [-] followed by the digits of
    [-x]. *)
Definition toFixed2 (x : Q) : string :=
  let n := Z.to_N (Qfloor (Qabs x * 100 + (1 # 2))) in
  let whole := digits (n / 100) in
  let cents := (n mod 100)%N in
  let frac := ((if (cents <? 10)%N then "0" else "") ++ digits cents)%string in
  ((if Qlt_le_dec x 0 then "-" else "") ++ whole ++ "." ++ frac)%string.

(** The fuel saving figure of [calculateTSPRouteMetrics], [None] standing for
    [NaN] (zero divided by zero). Doubles are read as exact rationals. *)
Definition fuelSavings (totalDistance : Z) : option Q :=
  let estimatedNonOptimizedDistance := (inject_Z totalDistance * (13 # 10))%Q in
  if Qeq_bool estimatedNonOptimizedDistance 0 then None
  else Some ((estimatedNonOptimizedDistance - inject_Z totalDistance)
               / estimatedNonOptimizedDistance * 100)%Q.

Definition fuelSavingsToFixed (totalDistance : Z) : string :=
  match fuelSavings totalDistance with
  | Some x => toFixed2 x
  | None => "NaN"
  end.


(** ** Requests and responses of the route optimization controller *)

(** A field of the request body that should be an array: falsy (absent,
    [null], ...), something that is not an array, or an array of objects. *)
Inductive body_array (A : Type) : Type :=
  | Falsy
  | NotAnArray
  | IsArray (items : list A).
Arguments Falsy {A}.
Arguments NotAnArray {A}.
Arguments IsArray {A} items.

(** [algorithm] is absent or a string; [None] takes the default. *)
Record OptimizeBody : Type := {
  deliveryPoints : body_array Point;
  startPoint : option Point;
  algorithm : option string
}.

(** [currentPointIndex] is absent or an integer. *)
Record ReoptimizeBody : Type := {
  currentRoute : body_array Point;
  currentPosition : option Point;
  currentPointIndex : option Z;
  re_algorithm : option string
}.

Record CompareBody : Type := {
  cmp_deliveryPoints : body_array Point;
  cmp_startPoint : option Point
}.

(** The four readings of [Date.now()] in [compareAlgorithms]. *)
Record Clock : Type := {
  startTime1 : Z; endTime1 : Z; startTime2 : Z; endTime2 : Z
}.

(** [data] of a successful [optimize] response: [optimizedRoute], [metrics]
    and [algorithm]. *)
Record OptimizeData : Type := {
  optimizedRoute : list JSPoint;
  metrics : Metrics;
  usedAlgorithm : string
}.

(** [data] of a successful [reoptimize] response. *)
Record ReoptimizeData : Type := {
  reoptimizedRoute : list JSPoint;
  re_metrics : Metrics;
  re_usedAlgorithm : string
}.

Record Run : Type := {
  route : list JSPoint;
  run_metrics : Metrics;
  computationTimeMs : Z
}.

(** [data] of a successful [compare] response, the inner [comparison] object
    flattened into it. *)
Record Comparison : Type := {
  dijkstra : Run;
  tsp : Run;
  distanceDifference : Q;
  timeDifference : Q;
  computationTimeDifference : Z;
  recommended : string
}.

(** What a handler sends: [400] with a message, [200] with data, or [500]
    with a message and, outside production, the text of the error. *)
Inductive HttpResponse (D : Type) : Type :=
  | Status400 (message : string)
  | Status200 (data : D)
  | Status500 (message : string) (error : option string).
Arguments Status400 {D} message.
Arguments Status200 {D} data.
Arguments Status500 {D} message error.

(** [error.message]; the wording of a [TypeError] is the runtime's. *)
Definition message_of (e : JS.error) : string :=
  match e with
  | Error m => m
  | TypeError => "TypeError"
  end.

(** What [geocodeAddress] resolves to. *)
Record GeoResult : Type := {
  geo_lat : Q;
  geo_lng : Q;
  geo_formattedAddress : string
}.

(** [!!x] for a coordinate: absent and zero are falsy. *)
Definition truthy_number (x : option Q) : bool :=
  match x with
  | Some q => negb (Qeq_bool q 0)
  | None => false
  end.

(** [!!s] for a string field: absent and empty are falsy. *)
Definition truthy_string (s : option string) : bool :=
  match s with
  | Some s => negb (String.eqb s "")
  | None => false
  end.

(** [toLowerCase] on the ASCII letters, which is all that the comparison with
    the literal [tsp] can see. *)
Definition lower (c : ascii) : ascii :=
  let n := nat_of_ascii c in
  if (65 <=? n) && (n <=? 90) then ascii_of_nat (n + 32) else c.

Fixpoint toLowerCase (s : string) : string :=
  match s with
  | EmptyString => EmptyString
  | String c rest => String (lower c) (toLowerCase rest)
  end.

(** ** The engine over a given cache and provider *)

Section Engine.

(** What [cacheWithExpiry.get] holds for a point list and traffic mode, and
    what the request to the provider answers for it. Given both, the engine
    is deterministic. *)
Variable cacheGet : list JSPoint -> bool -> option RawMatrix.
Variable httpGet : list Point -> bool -> outcome Response.

(** [getDistanceMatrix(points, considerTraffic)]; the request is only built
    (and the points only read) after a cache miss. *)
Definition getDistanceMatrix (points : list JSPoint) (considerTraffic : bool)
    : outcome RawMatrix :=
  getDistanceMatrixFrom (cacheGet points considerTraffic)
    (let* ps := locations points in httpGet ps considerTraffic).

(** *** algorithms/dijkstra.js *)

(** The first [for] loop of an iteration: lower [distances[i]] of the
    unvisited [i] by the edge from [currentPoint]. The array [previous],
    written here and never read, is left out. *)
Fixpoint relax (distanceMatrix : RawMatrix) (currentPoint : nat)
    (visited : list bool) (idxs : list nat) (distances : list jsval)
    : outcome (list jsval) :=
  match idxs with
  | [] => Ret distances
  | i :: rest =>
      if negb (is_visited visited i) then
        let* d := raw_entry distanceMatrix currentPoint i in
        if less_than d (distance_at distances i)
        then relax distanceMatrix currentPoint visited rest
               (array_set VUndefined distances i d)
        else relax distanceMatrix currentPoint visited rest distances
      else relax distanceMatrix currentPoint visited rest distances
  end.

(** The second [for] loop: the unvisited index of least [distances]. *)
Fixpoint select_next (visited : list bool) (distances : list jsval)
    (idxs : list nat) (minDistance : jsval) (nextPoint : option nat)
    : jsval * option nat :=
  match idxs with
  | [] => (minDistance, nextPoint)
  | i :: rest =>
      if negb (is_visited visited i)
         && less_than (distance_at distances i) minDistance
      then select_next visited distances rest (distance_at distances i) (Some i)
      else select_next visited distances rest minDistance nextPoint
  end.

(** [while (path.length < allPoints.length)] *)
Fixpoint frontier_while (fuel : nat) (distanceMatrix : RawMatrix)
    (numPoints : nat) (visited : list bool) (distances : list jsval)
    (path : list nat) (currentPoint : nat) : outcome (list nat) :=
  if length path <? numPoints then
    match fuel with
    | O => OutOfFuel
    | S fuel' =>
        let* distances :=
          relax distanceMatrix currentPoint visited (seq 0 numPoints) distances in
        match snd (select_next visited distances (seq 0 numPoints)
                     (VNum Inf) None) with
        | None => Ret path
        | Some nextPoint =>
            frontier_while fuel' distanceMatrix numPoints
              (array_set false visited nextPoint true) distances
              (path ++ [nextPoint]) nextPoint
        end
    end
  else Ret path.

Definition findOptimalRoute (points : list JSPoint) (startPoint : JSPoint)
    : outcome (list JSPoint) :=
  rethrow "Failed to optimize route"
    (let allPoints := startPoint :: points in
     let* distanceMatrix := getDistanceMatrix allPoints true in
     let n := length allPoints in
     let visited := replicate n false in
     let distances := replicate n (VNum Inf) in
     let distances := array_set VUndefined distances 0 (VNum (Fin 0)) in
     let visited := array_set false visited 0 true in
     let path := [0] in
     let* path := frontier_while n distanceMatrix n visited distances path 0 in
     Ret (map (point_at allPoints) path)).

Definition calculateRouteMetrics (route : list JSPoint) : outcome Metrics :=
  rethrow "Failed to calculate route metrics"
    (let* distanceMatrix := getDistanceMatrix route true in
     let* totals := sum_legs distanceMatrix (seq 0 (length route - 1)) 0 0 in
     Ret {| totalDistance := inject_Z (fst totals) / 1000;
            totalTime := inject_Z (snd totals) / 60;
            fuelSavingsPercentage := None |}).

(** [currentRoute.slice(currentPointIndex)] and [slice(0, currentPointIndex)]
    for an index that is a natural number. *)
Definition reoptimizeRoute (currentRoute : list JSPoint)
    (currentPointIndex : nat) : outcome (list JSPoint) :=
  rethrow "Failed to reoptimize route"
    (let remainingPoints := drop currentPointIndex currentRoute in
     let* reoptimizedRemainingRoute :=
       findOptimalRoute (drop 1 remainingPoints) (point_at remainingPoints 0) in
     Ret (take currentPointIndex currentRoute ++ reoptimizedRemainingRoute)).

(** *** algorithms/tsp.js, on the oracle *)

Fixpoint mapM {A B} (f : A -> outcome B) (l : list A) : outcome (list B) :=
  match l with
  | [] => Ret []
  | a :: rest => let* b := f a in let* bs := mapM f rest in Ret (b :: bs)
  end.

(** [cell => cell.distance ? cell.distance.value : Infinity]; reading
    [distance] of a [null] cell throws. *)
Definition cell_distance (cell : option Cell) : outcome num :=
  match cell with
  | None => Throw TypeError
  | Some c =>
      Ret match distance c with
          | Some d => Fin (value d)
          | None => Inf
          end
  end.

Definition findOptimalRouteTSP (points : list JSPoint) (startPoint : JSPoint)
    : outcome (list JSPoint) :=
  rethrow "Failed to optimize route using TSP"
    (let allPoints := startPoint :: points in
     let* rawDistanceMatrix := getDistanceMatrix allPoints true in
     let* distanceMatrix := mapM (mapM cell_distance) rawDistanceMatrix in
     let* initialTour := nearestNeighbor distanceMatrix 0 in
     let* optimizedTour :=
       twoOptImprovement initialTour distanceMatrix defaultMaxIterations in
     Ret (map (point_at allPoints) optimizedTour)).

Definition calculateTSPRouteMetrics (route : list JSPoint) : outcome Metrics :=
  rethrow "Failed to calculate TSP route metrics"
    (let* distanceMatrix := getDistanceMatrix route true in
     let* totals := sum_legs distanceMatrix (seq 0 (length route - 1)) 0 0 in
     Ret {| totalDistance := inject_Z (fst totals) / 1000;
            totalTime := inject_Z (snd totals) / 60;
            fuelSavingsPercentage := Some (fuelSavingsToFixed (fst totals)) |}).

(** *** controllers/routeOptimizationController.js *)

(** [geocodeAddress], an external service to the engine, and whether
    [NODE_ENV] is [production]. *)
Variable geocodeAddress : string -> outcome GeoResult.
Variable production : bool.

(** [catch (error) { res.status(500).json(...) }] around a handler body. *)
Definition respond500 {D} (msg : string) (c : outcome (HttpResponse D))
    : outcome (HttpResponse D) :=
  match c with
  | Throw e =>
      Ret (Status500 msg (if production then None else Some (message_of e)))
  | other => other
  end.

(** The callback of [deliveryPoints.map] under [Promise.all]. *)
Definition processPoint (point : Point) : outcome Point :=
  if truthy_string (address point)
     && (negb (truthy_number (lat point)) || negb (truthy_number (lng point)))
  then
    let* geocoded := geocodeAddress (default EmptyString (address point)) in
    Ret {| orderId := orderId point;
           lat := Some (geo_lat geocoded);
           lng := Some (geo_lng geocoded);
           address := address point;
           formattedAddress := Some (geo_formattedAddress geocoded) |}
  else Ret point.

Definition optimizeRoute (body : OptimizeBody)
    : outcome (HttpResponse OptimizeData) :=
  respond500 "Failed to optimize route"
    match deliveryPoints body with
    | Falsy | NotAnArray | IsArray [] =>
        Ret (Status400
               "Delivery points are required and must be a non-empty array")
    | IsArray points =>
        match startPoint body with
        | Some start =>
            if negb (truthy_number (lat start))
               || negb (truthy_number (lng start))
            then Ret (Status400
                        "Start point with lat/lng coordinates is required")
            else
              let algorithm := default "dijkstra"%string (algorithm body) in
              let* processedPoints := mapM processPoint points in
              if String.eqb (toLowerCase algorithm) "tsp" then
                let* optimizedRoute :=
                  findOptimalRouteTSP (map Some processedPoints) (Some start) in
                let* routeMetrics := calculateTSPRouteMetrics optimizedRoute in
                Ret (Status200 {| optimizedRoute := optimizedRoute;
                                  metrics := routeMetrics;
                                  usedAlgorithm := toLowerCase algorithm |})
              else
                let* optimizedRoute :=
                  findOptimalRoute (map Some processedPoints) (Some start) in
                let* routeMetrics := calculateRouteMetrics optimizedRoute in
                Ret (Status200 {| optimizedRoute := optimizedRoute;
                                  metrics := routeMetrics;
                                  usedAlgorithm := toLowerCase algorithm |})
        | None =>
            Ret (Status400 "Start point with lat/lng coordinates is required")
        end
    end.

Definition reoptimizeCurrentRoute (body : ReoptimizeBody)
    : outcome (HttpResponse ReoptimizeData) :=
  respond500 "Failed to reoptimize route"
    match currentRoute body with
    | Falsy | NotAnArray | IsArray [] =>
        Ret (Status400
               "Current route is required and must be a non-empty array")
    | IsArray route =>
        match currentPosition body with
        | Some position =>
            if negb (truthy_number (lat position))
               || negb (truthy_number (lng position))
            then Ret (Status400
                        "Current position with lat/lng coordinates is required")
            else
              match currentPointIndex body with
              | None => Ret (Status400 "Valid current point index is required")
              | Some index =>
                  if (index <? 0)%Z || (Z.of_nat (length route) <=? index)%Z
                  then Ret (Status400 "Valid current point index is required")
                  else
                    let algorithm :=
                      default "dijkstra"%string (re_algorithm body) in
                    let currentRoute := map Some route in
                    let currentPointIndex := Z.to_nat index in
                    if String.eqb (toLowerCase algorithm) "tsp" then
                      let remainingPoints :=
                        drop currentPointIndex currentRoute in
                      let* reoptimizedRoute :=
                        findOptimalRouteTSP (drop 1 remainingPoints)
                          (Some position) in
                      let reoptimizedRoute :=
                        take currentPointIndex currentRoute
                        ++ reoptimizedRoute in
                      let* routeMetrics :=
                        calculateTSPRouteMetrics reoptimizedRoute in
                      Ret (Status200
                             {| reoptimizedRoute := reoptimizedRoute;
                                re_metrics := routeMetrics;
                                re_usedAlgorithm := toLowerCase algorithm |})
                    else
                      let* reoptimizedRoute :=
                        reoptimizeRoute currentRoute currentPointIndex in
                      let* routeMetrics :=
                        calculateRouteMetrics reoptimizedRoute in
                      Ret (Status200
                             {| reoptimizedRoute := reoptimizedRoute;
                                re_metrics := routeMetrics;
                                re_usedAlgorithm := toLowerCase algorithm |})
              end
        | None =>
            Ret (Status400
                   "Current position with lat/lng coordinates is required")
        end
    end.

Definition compareAlgorithms (clock : Clock) (body : CompareBody)
    : outcome (HttpResponse Comparison) :=
  respond500 "Failed to compare algorithms"
    match cmp_deliveryPoints body with
    | Falsy | NotAnArray | IsArray [] =>
        Ret (Status400
               "Delivery points are required and must be a non-empty array")
    | IsArray points =>
        match cmp_startPoint body with
        | Some start =>
            if negb (truthy_number (lat start))
               || negb (truthy_number (lng start))
            then Ret (Status400
                        "Start point with lat/lng coordinates is required")
            else
              let* processedPoints := mapM processPoint points in
              let* dijkstraRoute :=
                findOptimalRoute (map Some processedPoints) (Some start) in
              let dijkstraTime := (endTime1 clock - startTime1 clock)%Z in
              let* dijkstraMetrics := calculateRouteMetrics dijkstraRoute in
              let* tspRoute :=
                findOptimalRouteTSP (map Some processedPoints) (Some start) in
              let tspTime := (endTime2 clock - startTime2 clock)%Z in
              let* tspMetrics := calculateTSPRouteMetrics tspRoute in
              Ret (Status200
                {| dijkstra := {| route := dijkstraRoute;
                                  run_metrics := dijkstraMetrics;
                                  computationTimeMs := dijkstraTime |};
                   tsp := {| route := tspRoute;
                             run_metrics := tspMetrics;
                             computationTimeMs := tspTime |};
                   distanceDifference :=
                     Qabs (totalDistance dijkstraMetrics
                           - totalDistance tspMetrics);
                   timeDifference :=
                     Qabs (totalTime dijkstraMetrics - totalTime tspMetrics);
                   computationTimeDifference := Z.abs (dijkstraTime - tspTime);
                   recommended :=
                     if Qle_bool (totalDistance tspMetrics)
                                 (totalDistance dijkstraMetrics)
                     then "tsp"%string else "dijkstra"%string |})
        | None =>
            Ret (Status400 "Start point with lat/lng coordinates is required")
        end
    end.

End Engine.

(** ** The four-point scenario served by a provider *)

Module Scenario.

Definition point (name : string) (latitude longitude : Q) : Point :=
  {| orderId := Some name; lat := Some latitude; lng := Some longitude;
     address := None; formattedAddress := None |}.

Definition H : Point := point "H" (1297 # 100) (7759 # 100).
Definition A : Point := point "A" (1298 # 100) (7760 # 100).
Definition B : Point := point "B" (1299 # 100) (7761 # 100).
Definition C : Point := point "C" (1300 # 100) (7762 # 100).

(** The row of [scenarioMatrix] a point stands for; a point of any other
    name is served like C. *)
Definition index_of (p : Point) : nat :=
  match orderId p with
  | Some name =>
      if String.eqb name "H" then 0
      else if String.eqb name "A" then 1
      else if String.eqb name "B" then 2
      else 3
  | None => 3
  end.

Definition metres (p q : Point) : Z :=
  match entry scenarioMatrix (index_of p) (index_of q) with
  | Ret (Fin z) => z
  | _ => 0%Z
  end.

(** An element with status OK: [d] metres, one minute per metre. *)
Definition ok_element (d : Z) : Element :=
  {| e_status := "OK";
     e_distance := Some {| text := "m"; value := d |};
     e_duration := Some {| text := "s"; value := 60 * d |};
     e_duration_in_traffic := None |}.

(** A provider that answers every request with status OK and the distances
    of the scenario between the points it is asked about. *)
Definition provider (points : list Point) (considerTraffic : bool)
    : outcome Response :=
  Ret {| r_status := "OK";
         rows := map (fun p =>
                   {| elements := map (fun q => ok_element (metres p q)) points |})
                 points |}.

Definition emptyCache (points : list JSPoint) (considerTraffic : bool)
    : option RawMatrix := None.

Definition noGeocoder (address : string) : outcome GeoResult :=
  Throw (Error "Failed to geocode address using Google Maps API").

End Scenario.

(** ** Responses of a provider that cannot serve every leg *)

Module Upstream.

(** Two points, every leg served but the one from the first to the second,
    for which the provider found no route. *)
Definition oneLegMissing : Response :=
  {| r_status := "OK";
     rows :=
       [ {| elements := [Scenario.ok_element 0;
                         {| e_status := "ZERO_RESULTS"; e_distance := None;
                            e_duration := None;
                            e_duration_in_traffic := None |}] |};
         {| elements := [Scenario.ok_element 7; Scenario.ok_element 0] |} ] |}.

Definition oneLegMissingProvider (points : list Point)
    (considerTraffic : bool) : outcome Response := Ret oneLegMissing.

(** A response refused as a whole. *)
Definition denied : Response := {| r_status := "REQUEST_DENIED"; rows := [] |}.

Definition deniedProvider (points : list Point) (considerTraffic : bool)
    : outcome Response := Ret denied.

(** An element with status OK that carries no distance. *)
Definition no_distance : Element :=
  {| e_status := "OK"; e_distance := None; e_duration := None;
     e_duration_in_traffic := None |}.

(** A provider for which the third of three points has no distance to or from
    the other two; any other request is served as in the scenario. *)
Definition gapProvider (points : list Point) (considerTraffic : bool)
    : outcome Response :=
  if length points =? 3 then
    Ret {| r_status := "OK";
           rows :=
             [ {| elements := [Scenario.ok_element 0; Scenario.ok_element 1;
                               no_distance] |};
               {| elements := [Scenario.ok_element 1; Scenario.ok_element 0;
                               no_distance] |};
               {| elements := [no_distance; no_distance;
                               Scenario.ok_element 0] |} ] |}
  else Scenario.provider points considerTraffic.

(** Where the driver stands, off the planned stop A. *)
Definition position : Point :=
  Scenario.point "P" (12985 # 1000) (77605 # 1000).

End Upstream.

(** ** utils/cache.js: the cache with expiry *)

Module Cache.

(** An entry of the map: [{ value, expiry }]. *)
Record item (V : Type) : Type := { item_value : V; expiry : Z }.
Arguments item_value {V} _.
Arguments expiry {V} _.

Section Methods.

Context {V : Type}.

(** [set(key, value, ttl)] when [Date.now()] reads [now]. The timer it starts
    calls [delete(key)] once [ttl] milliseconds have passed; that call is the
    operation [delete] below, applied later. *)
Definition set (cache : gmap string (item V)) (now : Z) (key : string)
    (value : V) (ttl : Z) : gmap string (item V) :=
  <[key := {| item_value := value; expiry := (now + ttl)%Z |}]> cache.

(** [delete(key)] *)
Definition delete (cache : gmap string (item V)) (key : string)
    : gmap string (item V) :=
  base.delete key cache.

(** [get(key)] when [Date.now()] reads [now]: the value, or [None] for
    [undefined], and the map it leaves. *)
Definition get (cache : gmap string (item V)) (now : Z) (key : string)
    : option V * gmap string (item V) :=
  match cache !! key with
  | None => (None, cache)
  | Some item =>
      if (expiry item <? now)%Z then (None, delete cache key)
      else (Some (item_value item), cache)
  end.

(** [has(key)] when [Date.now()] reads [now]. *)
Definition has (cache : gmap string (item V)) (now : Z) (key : string)
    : bool * gmap string (item V) :=
  match cache !! key with
  | None => (false, cache)
  | Some item =>
      if (expiry item <? now)%Z then (false, delete cache key)
      else (true, cache)
  end.

(** [clear()] *)
Definition clear (cache : gmap string (item V)) : gmap string (item V) := ∅.

(** [size()] *)
Definition size (cache : gmap string (item V)) : nat := base.size cache.

End Methods.

End Cache.

(** *** The cache together with the timers started by [set] *)

(** The delay Node's [setTimeout] gives a callback: the one asked for, or one
    millisecond when that is below 1 or above [2^31 - 1]. *)
Definition timeout_delay (ttl : Z) : Z :=
  if (1 <=? ttl)%Z && (ttl <=? 2147483647)%Z then ttl else 1%Z.

Module Timed.

(** The map, and the pending callbacks of [setTimeout]: for each the time
    from which the event loop may run it and the key it deletes. *)
Record cache (V : Type) : Type := {
  entries : gmap string (Cache.item V);
  timers : list (Z * string)
}.
Arguments entries {V} _.
Arguments timers {V} _.

(** What the program does to the cache and what the event loop does. *)
Inductive call (V : Type) : Type :=
  | CallSet (key : string) (value : V) (ttl : Z)
  | CallGet (key : string)
  | CallHas (key : string)
  | CallDelete (key : string)
  | CallClear
  | TimerFires (i : nat).
Arguments CallSet {V} key value ttl.
Arguments CallGet {V} key.
Arguments CallHas {V} key.
Arguments CallDelete {V} key.
Arguments CallClear {V}.
Arguments TimerFires {V} i.

Section Methods.

Context {V : Type}.

(** [new CacheWithExpiry()] *)
Definition empty : cache V := {| entries := ∅; timers := [] |}.

Definition set (c : cache V) (now : Z) (key : string) (value : V) (ttl : Z)
    : cache V :=
  {| entries := Cache.set (entries c) now key value ttl;
     timers := timers c ++ [((now + timeout_delay ttl)%Z, key)] |}.

Definition get (c : cache V) (now : Z) (key : string) : option V * cache V :=
  let looked := Cache.get (entries c) now key in
  (fst looked, {| entries := snd looked; timers := timers c |}).

Definition has (c : cache V) (now : Z) (key : string) : bool * cache V :=
  let looked := Cache.has (entries c) now key in
  (fst looked, {| entries := snd looked; timers := timers c |}).

Definition delete (c : cache V) (key : string) : cache V :=
  {| entries := Cache.delete (entries c) key; timers := timers c |}.

Definition clear (c : cache V) : cache V :=
  {| entries := Cache.clear (entries c); timers := timers c |}.

(** The event loop runs the [i]-th pending callback, [() => this.delete(key)],
    which it can do once the clock reads the callback's time. *)
Definition fire (c : cache V) (now : Z) (i : nat) : option (cache V) :=
  match timers c !! i with
  | Some (due, key) =>
      if (due <=? now)%Z then
        Some {| entries := Cache.delete (entries c) key;
                timers := base.delete i (timers c) |}
      else None
  | None => None
  end.

(** One event when the clock reads [now]; a timer that cannot run yet leaves
    the cache as it is. *)
Definition run (c : cache V) (event : Z * call V) : cache V :=
  let now := fst event in
  match snd event with
  | CallSet key value ttl => set c now key value ttl
  | CallGet key => snd (get c now key)
  | CallHas key => snd (has c now key)
  | CallDelete key => delete c key
  | CallClear => clear c
  | TimerFires i => default c (fire c now i)
  end.

Definition run_all (history : list (Z * call V)) : cache V :=
  foldl run empty history.

End Methods.

End Timed.

(** [cachify(fn, ttl)] called with arguments whose key is [key]: [call] is
    what [fn(...args)] does, and the three times are the readings of
    [Date.now()] in [has], [get] and [set]. The result [None] is
    [undefined]. *)
Definition cachify {V : Type} (call : outcome V) (ttl : Z)
    (cache : gmap string (Cache.item V)) (nowHas nowGet nowSet : Z)
    (key : string) : outcome (option V) * gmap string (Cache.item V) :=
  let checked := Cache.has cache nowHas key in
  if fst checked then
    let looked := Cache.get (snd checked) nowGet key in
    (Ret (fst looked), snd looked)
  else
    match call with
    | Ret result =>
        (Ret (Some result), Cache.set (snd checked) nowSet key result ttl)
    | Throw e => (Throw e, snd checked)
    | OutOfFuel => (OutOfFuel, snd checked)
    end.

(** ** services/googleMaps.js on the cache *)

(** [CACHE_EXPIRY], fifteen minutes in milliseconds. *)
Definition CACHE_EXPIRY : Z := 15 * 60 * 1000.

Section CachedServices.

(** [JSON.stringify(points)] *)
Variable stringify : list JSPoint -> string.

(** [`distance_matrix_${JSON.stringify(points)}_${considerTraffic}`] *)
Definition matrixKey (points : list JSPoint) (considerTraffic : bool)
    : string :=
  ("distance_matrix_" ++ stringify points ++ "_"
   ++ (if considerTraffic then "true" else "false"))%string.

(** [getDistanceMatrix] on the shared cache. The keys of the three services
    start with different words, so each service sees the entries of its own
    kind only; [nowGet] and [nowSet] are the readings of [Date.now()] inside
    [get] and, after the request, inside [set]. *)
Definition getDistanceMatrixCached (cache : gmap string (Cache.item RawMatrix))
    (nowGet nowSet : Z) (httpGet : list Point -> bool -> outcome Response)
    (points : list JSPoint) (considerTraffic : bool)
    : outcome RawMatrix * gmap string (Cache.item RawMatrix) :=
  let cacheKey := matrixKey points considerTraffic in
  let looked := Cache.get cache nowGet cacheKey in
  let result :=
    getDistanceMatrixFrom (fst looked)
      (let* ps := locations points in httpGet ps considerTraffic) in
  match fst looked, result with
  | None, Ret matrix =>
      (result, Cache.set (snd looked) nowSet cacheKey matrix CACHE_EXPIRY)
  | _, _ => (result, snd looked)
  end.

End CachedServices.

(** One entry of [response.data.results] of the geocoding API, with the
    fields the service reads: [geometry.location.lat], [geometry.location.lng]
    and [formatted_address]. *)
Record GeocodeResult : Type := {
  location_lat : Q;
  location_lng : Q;
  formatted_address : string
}.

Record GeocodeResponse : Type := {
  g_status : string;
  results : list GeocodeResult
}.

(** The body of [geocodeAddress], given what the cache lookup and the request
    return; [results[0]] of an empty list is [undefined], and reading its
    [geometry] throws. *)
Definition geocodeAddressFrom (cachedResult : option GeoResult)
    (request : outcome GeocodeResponse) : outcome GeoResult :=
  rethrow "Failed to geocode address using Google Maps API"
    match cachedResult with
    | Some result => Ret result
    | None =>
        let* response := request in
        if negb (String.eqb (g_status response) "OK") then
          Throw (Error ("Geocoding error: " ++ g_status response))
        else
          match results response with
          | [] => Throw TypeError
          | result :: _ =>
              Ret {| geo_lat := location_lat result;
                     geo_lng := location_lng result;
                     geo_formattedAddress := formatted_address result |}
          end
    end.

(** [geocodeAddress] on the shared cache; a result stays for four times
    [CACHE_EXPIRY]. *)
Definition geocodeAddressCached (cache : gmap string (Cache.item GeoResult))
    (nowGet nowSet : Z) (httpGet : string -> outcome GeocodeResponse)
    (address : string)
    : outcome GeoResult * gmap string (Cache.item GeoResult) :=
  let cacheKey := ("geocode_" ++ address)%string in
  let looked := Cache.get cache nowGet cacheKey in
  let result := geocodeAddressFrom (fst looked) (httpGet address) in
  match fst looked, result with
  | None, Ret formattedResult =>
      (result,
       Cache.set (snd looked) nowSet cacheKey formattedResult
         (CACHE_EXPIRY * 4))
  | _, _ => (result, snd looked)
  end.

(** *** Directions and traffic *)

(** What JavaScript's [/] gives on two finite numbers, doubles being read as
    exact rationals and the zero divisor as positive zero. *)
Inductive quotient : Type :=
  | Finite (q : Q)
  | PlusInfinity
  | MinusInfinity
  | NotANumber.

Definition divide (a b : Q) : quotient :=
  if Qeq_bool b 0 then
    if Qeq_bool a 0 then NotANumber
    else if Qle_bool 0 a then PlusInfinity else MinusInfinity
  else Finite (a / b).

(** [x < bound] for a finite [bound]. *)
Definition below (x : quotient) (bound : Q) : bool :=
  match x with
  | Finite q => negb (Qle_bool bound q)
  | MinusInfinity => true
  | PlusInfinity | NotANumber => false
  end.

(** [x * y] for a finite non-zero [y] of positive sign. *)
Definition scale (x : quotient) (y : Q) : quotient :=
  match x with
  | Finite q => Finite (q * y)
  | other => other
  end.

(** [x.toFixed(2)] *)
Definition toFixed (x : quotient) : string :=
  match x with
  | Finite q => toFixed2 q
  | PlusInfinity => "Infinity"
  | MinusInfinity => "-Infinity"
  | NotANumber => "NaN"
  end.

Record LatLng : Type := { ll_lat : Q; ll_lng : Q }.

(** [{ points }] *)
Record Polyline : Type := { points : option string }.

(** A step, a leg and a route of the directions API, with the fields the
    service reads; [None] is a field the response does not carry. *)
Record ApiStep : Type := {
  html_instructions : option string;
  step_distance : option Measure;
  step_duration : option Measure;
  step_polyline : option Polyline;
  start_location : option LatLng;
  end_location : option LatLng
}.

Record ApiLeg : Type := {
  leg_distance : option Measure;
  leg_duration : option Measure;
  leg_duration_in_traffic : option Measure;
  steps : option (list ApiStep)
}.

Record ApiRoute : Type := {
  overview_polyline : option Polyline;
  legs : list ApiLeg
}.

Record DirectionsResponse : Type := {
  d_status : string;
  routes : list ApiRoute
}.

(** The formatted step and route, and the result of [getDirections]. *)
Record RouteStep : Type := {
  instructions : option string;
  rs_distance : option Measure;
  rs_duration : option Measure;
  rs_polyline : option string;
  rs_start_location : option LatLng;
  rs_end_location : option LatLng
}.

Record FormattedRoute : Type := {
  polyline : option string;
  fr_distance : option Measure;
  fr_duration : option Measure;
  fr_duration_in_traffic : option Measure;
  fr_steps : list RouteStep
}.

Record Directions : Type := {
  formattedRoutes : list FormattedRoute;
  bestRoute : option FormattedRoute
}.

(** The callback of [leg.steps.map]: [step.polyline.points] throws on a step
    without polyline. *)
Definition format_step (step : ApiStep) : outcome RouteStep :=
  match step_polyline step with
  | None => Throw TypeError
  | Some line =>
      Ret {| instructions := html_instructions step;
             rs_distance := step_distance step;
             rs_duration := step_duration step;
             rs_polyline := points line;
             rs_start_location := start_location step;
             rs_end_location := end_location step |}
  end.

(** The callback of [response.data.routes.map]: only the first leg is read;
    a route without overview polyline, without leg, or whose first leg has no
    steps throws. *)
Definition format_route (route : ApiRoute) : outcome FormattedRoute :=
  match overview_polyline route, legs route with
  | Some line, leg :: _ =>
      match steps leg with
      | Some legSteps =>
          let* formattedSteps := mapM format_step legSteps in
          Ret {| polyline := points line;
                 fr_distance := leg_distance leg;
                 fr_duration := leg_duration leg;
                 fr_duration_in_traffic := leg_duration_in_traffic leg;
                 fr_steps := formattedSteps |}
      | None => Throw TypeError
      end
  | _, _ => Throw TypeError
  end.

(** The part of [getDirections] after the cache lookup. *)
Definition getDirectionsFrom (cachedResult : option Directions)
    (request : outcome DirectionsResponse) : outcome Directions :=
  match cachedResult with
  | Some result => Ret result
  | None =>
      let* response := request in
      if negb (String.eqb (d_status response) "OK") then
        Throw (Error ("Directions API error: " ++ d_status response))
      else
        let* formatted := mapM format_route (routes response) in
        Ret {| formattedRoutes := formatted; bestRoute := head formatted |}
  end.

(** What [getTrafficData] returns. *)
Record TrafficData : Type := {
  normalDuration : Z;
  trafficDuration : Z;
  congestionRatio : quotient;
  congestionLevel : string;
  delaySeconds : Z
}.

(** The [if] chain of [getTrafficData]. *)
Definition congestionLevelOf (congestionRatio : quotient) : string :=
  if below congestionRatio (11 # 10) then "low"
  else if below congestionRatio (13 # 10) then "moderate"
  else if below congestionRatio (15 # 10) then "high"
  else "severe".

(** The part of [getTrafficData] after [getDirections]:
    [directions.bestRoute.duration.value] and
    [directions.bestRoute.duration_in_traffic.value] throw when there is no
    best route or it lacks the field. *)
Definition trafficOf (directions : Directions) : outcome TrafficData :=
  match bestRoute directions with
  | None => Throw TypeError
  | Some best =>
      match fr_duration best, fr_duration_in_traffic best with
      | Some normal, Some traffic =>
          let congestionRatio :=
            divide (inject_Z (value traffic)) (inject_Z (value normal)) in
          Ret {| normalDuration := value normal;
                 trafficDuration := value traffic;
                 congestionRatio := congestionRatio;
                 congestionLevel := congestionLevelOf congestionRatio;
                 delaySeconds := value traffic - value normal |}
      | _, _ => Throw TypeError
      end
  end.

Section Directions.

(** [`${point.lat},${point.lng}`] *)
Variable coordinates : Point -> string.

(** [getDirections(origin, destination, waypoints)] on the shared cache;
    the request is a function of the three strings sent. *)
Definition getDirectionsCached (cache : gmap string (Cache.item Directions))
    (nowGet nowSet : Z)
    (httpGet : string -> string -> string -> outcome DirectionsResponse)
    (origin destination : JSPoint) (waypoints : list JSPoint)
    : outcome Directions * gmap string (Cache.item Directions) :=
  match origin, destination, locations waypoints with
  | Some o, Some d, Ret ws =>
      let originStr := coordinates o in
      let destinationStr := coordinates d in
      let waypointsStr := String.concat "|" (map coordinates ws) in
      let cacheKey :=
        ("directions_" ++ originStr ++ "_" ++ destinationStr ++ "_"
         ++ waypointsStr)%string in
      let looked := Cache.get cache nowGet cacheKey in
      let result :=
        rethrow "Failed to get directions from Google Maps API"
          (getDirectionsFrom (fst looked)
             (httpGet originStr destinationStr waypointsStr)) in
      match fst looked, result with
      | None, Ret directions =>
          (result,
           Cache.set (snd looked) nowSet cacheKey directions CACHE_EXPIRY)
      | _, _ => (result, snd looked)
      end
  | _, _, _ =>
      (Throw (Error "Failed to get directions from Google Maps API"), cache)
  end.

(** [getTrafficData(origin, destination)] *)
Definition getTrafficDataCached (cache : gmap string (Cache.item Directions))
    (nowGet nowSet : Z)
    (httpGet : string -> string -> string -> outcome DirectionsResponse)
    (origin destination : JSPoint)
    : outcome TrafficData * gmap string (Cache.item Directions) :=
  let answered :=
    getDirectionsCached cache nowGet nowSet httpGet origin destination [] in
  (rethrow "Failed to get traffic data"
     (let* directions := fst answered in trafficOf directions),
   snd answered).

End Directions.

(** ** The other handlers of routeOptimizationController.js *)

Record TrafficBody : Type := {
  origin : option Point;
  destination : option Point
}.

(** [fuelCostPerLiter] and [vehicleConsumptionLPer100Km] are absent or
    numbers; [None] takes the default. *)
Record SimulateBody : Type := {
  sim_deliveryPoints : body_array Point;
  sim_startPoint : option Point;
  fuelCostPerLiter : option Q;
  vehicleConsumptionLPer100Km : option Q
}.

(** [nonOptimized] and [optimized] of the simulation. *)
Record SimulatedRun : Type := {
  sim_route : list JSPoint;
  sim_metrics : Metrics;
  fuelConsumptionLiters : string;
  fuelCost : string
}.

(** [savings] of the simulation. *)
Record Savings : Type := {
  distanceSavingsKm : string;
  timeSavingsMinutes : string;
  fuelSavingsLiters : string;
  fuelSavingsCost : string;
  savedPercentage : string;
  monthlySavingsLiters : string;
  monthlySavingsCost : string;
  yearlySavingsLiters : string;
  yearlySavingsCost : string
}.

Record Simulation : Type := {
  nonOptimized : SimulatedRun;
  optimized : SimulatedRun;
  savings : Savings
}.

Section OtherHandlers.

Variable cacheGet : list JSPoint -> bool -> option RawMatrix.
Variable httpGet : list Point -> bool -> outcome Response.
Variable geocodeAddress : string -> outcome GeoResult.
Variable production : bool.

(** [getTrafficData] of the maps service. *)
Variable getTrafficData : Point -> Point -> outcome TrafficData.

Definition getRouteTrafficData (body : TrafficBody)
    : outcome (HttpResponse TrafficData) :=
  respond500 production "Failed to get route traffic data"
    match origin body with
    | Some from =>
        if negb (truthy_number (lat from)) || negb (truthy_number (lng from))
        then Ret (Status400 "Origin with lat/lng coordinates is required")
        else
          match destination body with
          | Some to =>
              if negb (truthy_number (lat to))
                 || negb (truthy_number (lng to))
              then Ret (Status400
                          "Destination with lat/lng coordinates is required")
              else
                let* trafficData := getTrafficData from to in
                Ret (Status200 trafficData)
          | None =>
              Ret (Status400
                     "Destination with lat/lng coordinates is required")
          end
    | None => Ret (Status400 "Origin with lat/lng coordinates is required")
    end.

Definition simulateFuelSavings (body : SimulateBody)
    : outcome (HttpResponse Simulation) :=
  respond500 production "Failed to simulate fuel savings"
    match sim_deliveryPoints body with
    | Falsy | NotAnArray | IsArray [] =>
        Ret (Status400
               "Delivery points are required and must be a non-empty array")
    | IsArray deliveryPoints =>
        match sim_startPoint body with
        | Some start =>
            if negb (truthy_number (lat start))
               || negb (truthy_number (lng start))
            then Ret (Status400
                        "Start point with lat/lng coordinates is required")
            else
              let fuelCostPerLiter :=
                default (15 # 10)%Q (fuelCostPerLiter body) in
              let vehicleConsumptionLPer100Km :=
                default 10%Q (vehicleConsumptionLPer100Km body) in
              let* processedPoints :=
                mapM (processPoint geocodeAddress) deliveryPoints in
              let nonOptimizedRoute := Some start :: map Some processedPoints in
              let* nonOptimizedMetrics :=
                calculateRouteMetrics cacheGet httpGet nonOptimizedRoute in
              let* optimizedRoute :=
                findOptimalRouteTSP cacheGet httpGet
                  (map Some processedPoints) (Some start) in
              let* optimizedMetrics :=
                calculateTSPRouteMetrics cacheGet httpGet optimizedRoute in
              let nonOptimizedFuelConsumption :=
                (totalDistance nonOptimizedMetrics
                 * vehicleConsumptionLPer100Km / 100)%Q in
              let optimizedFuelConsumption :=
                (totalDistance optimizedMetrics
                 * vehicleConsumptionLPer100Km / 100)%Q in
              let nonOptimizedFuelCost :=
                (nonOptimizedFuelConsumption * fuelCostPerLiter)%Q in
              let optimizedFuelCost :=
                (optimizedFuelConsumption * fuelCostPerLiter)%Q in
              let fuelSavingsLiters :=
                (nonOptimizedFuelConsumption - optimizedFuelConsumption)%Q in
              let fuelSavingsCost :=
                (nonOptimizedFuelCost - optimizedFuelCost)%Q in
              let fuelSavingsPercentage :=
                scale (divide fuelSavingsLiters nonOptimizedFuelConsumption)
                  100 in
              let monthlySavingsLiters := (fuelSavingsLiters * 20)%Q in
              let monthlySavingsCost := (fuelSavingsCost * 20)%Q in
              let yearlySavingsLiters := (monthlySavingsLiters * 12)%Q in
              let yearlySavingsCost := (monthlySavingsCost * 12)%Q in
              Ret (Status200
                {| nonOptimized :=
                     {| sim_route := nonOptimizedRoute;
                        sim_metrics := nonOptimizedMetrics;
                        fuelConsumptionLiters :=
                          toFixed2 nonOptimizedFuelConsumption;
                        fuelCost := toFixed2 nonOptimizedFuelCost |};
                   optimized :=
                     {| sim_route := optimizedRoute;
                        sim_metrics := optimizedMetrics;
                        fuelConsumptionLiters :=
                          toFixed2 optimizedFuelConsumption;
                        fuelCost := toFixed2 optimizedFuelCost |};
                   savings :=
                     {| distanceSavingsKm :=
                          toFixed2 (totalDistance nonOptimizedMetrics
                                    - totalDistance optimizedMetrics);
                        timeSavingsMinutes :=
                          toFixed2 (totalTime nonOptimizedMetrics
                                    - totalTime optimizedMetrics);
                        fuelSavingsLiters := toFixed2 fuelSavingsLiters;
                        fuelSavingsCost := toFixed2 fuelSavingsCost;
                        savedPercentage := toFixed fuelSavingsPercentage;
                        monthlySavingsLiters := toFixed2 monthlySavingsLiters;
                        monthlySavingsCost := toFixed2 monthlySavingsCost;
                        yearlySavingsLiters := toFixed2 yearlySavingsLiters;
                        yearlySavingsCost := toFixed2 yearlySavingsCost |} |})
        | None =>
            Ret (Status400 "Start point with lat/lng coordinates is required")
        end
    end.

End OtherHandlers.

(** ** Answers of the geocoding and directions providers used as examples *)

Module Providers.

Definition townHall : GeocodeResult :=
  {| location_lat := 1297 # 100; location_lng := 7759 # 100;
     formatted_address := "Town Hall" |}.

Definition otherHall : GeocodeResult :=
  {| location_lat := 1300 # 100; location_lng := 7700 # 100;
     formatted_address := "Other Hall" |}.

(** Two candidates for every address. *)
Definition geocoder (address : string) : outcome GeocodeResponse :=
  Ret {| g_status := "OK"; results := [townHall; otherHall] |}.

(** Status OK and no candidate. *)
Definition emptyGeocoder (address : string) : outcome GeocodeResponse :=
  Ret {| g_status := "OK"; results := [] |}.

Definition refusingGeocoder (address : string) : outcome GeocodeResponse :=
  Ret {| g_status := "REQUEST_DENIED"; results := [] |}.

Definition seconds (n : Z) : option Measure :=
  Some {| text := "s"; value := n |}.

(** A route of one leg without steps. *)
Definition apiRoute (duration traffic : option Measure) : ApiRoute :=
  {| overview_polyline := Some {| points := Some "abc"%string |};
     legs := [ {| leg_distance := Some {| text := "m"; value := 1000 |};
                  leg_duration := duration;
                  leg_duration_in_traffic := traffic;
                  steps := Some [] |} ] |}.

(** One route without traffic duration. *)
Definition directionsWithoutTraffic
    (originStr destinationStr waypointsStr : string)
    : outcome DirectionsResponse :=
  Ret {| d_status := "OK"; routes := [apiRoute (seconds 600) None] |}.

Definition coordinates (p : Point) : string :=
  default "?"%string (orderId p).

End Providers.

(** ** middleware/errorHandler.js and middleware/validator.js *)

Module Middleware.

(** An entry of [error.details] of the schema library, and what [validate]
    keeps of it. *)
Record SchemaDetail : Type := {
  sd_message : string;
  sd_path : list string;
  sd_type : string
}.

Record Detail : Type := {
  detail_message : string;
  detail_path : list string
}.

(** The fields of an error the handler reads, and [statusCode], which
    [createError] writes; [None] is a field the error does not have. *)
Record error_object : Type := {
  name : string;
  message : string;
  code : option string;
  err_type : option string;
  details : option (list Detail);
  statusCode : option Z
}.

(** The second field of the JSON body: [details] or [message]. *)
Inductive field : Type :=
  | DetailsList (items : list Detail)
  | DetailsText (text : string)
  | MessageText (text : string).

(** What the handler does: [next(err)], or [res.status(status).json(...)]
    with [error] and a second field. *)
Inductive reply : Type :=
  | Next (err : error_object)
  | Send (status : Z) (error : string) (second : field).

Definition reply_status (r : reply) : option Z :=
  match r with
  | Next _ => None
  | Send status _ _ => Some status
  end.

Definition has_code (err : error_object) (c : string) : bool :=
  match code err with
  | Some c' => String.eqb c' c
  | None => false
  end.

Definition has_type (err : error_object) (t : string) : bool :=
  match err_type err with
  | Some t' => String.eqb t' t
  | None => false
  end.

(** [errorHandler(err, req, res, next)], given [res.headersSent] and whether
    [NODE_ENV] is [production]. *)
Definition errorHandler (production headersSent : bool) (err : error_object)
    : reply :=
  if headersSent then Next err
  else if String.eqb (name err) "ValidationError" then
    Send 400 "Validation Error"
      match details err with
      | Some items => DetailsList items
      | None => DetailsText (message err)
      end
  else if String.eqb (name err) "UnauthorizedError" then
    Send 401 "Unauthorized" (MessageText (message err))
  else if String.eqb (name err) "ForbiddenError" then
    Send 403 "Forbidden" (MessageText (message err))
  else if String.eqb (name err) "NotFoundError" then
    Send 404 "Not Found" (MessageText (message err))
  else if has_code err "ECONNABORTED" || String.eqb (name err) "TimeoutError"
  then
    Send 408 "Request Timeout"
      (MessageText "The request took too long to process")
  else if has_code err "LIMIT_FILE_SIZE" then
    Send 413 "Payload Too Large" (MessageText "File size exceeds the limit")
  else if has_type err "entity.too.large" then
    Send 413 "Payload Too Large" (MessageText "Request body is too large")
  else if String.eqb (name err) "RateLimitError" then
    Send 429 "Too Many Requests"
      (MessageText (if String.eqb (message err) "" then "Rate limit exceeded"
                    else message err))
  else
    Send 500 "Internal Server Error"
      (MessageText (if production then "An unexpected error occurred"
                    else message err)).

(** [createError(message, statusCode = 500)]; the function has these two
    parameters only. *)
Definition createError (message : string) (statusCode : option Z)
    : error_object :=
  let statusCode := default 500%Z statusCode in
  {| name :=
       if (statusCode =? 400)%Z then "ValidationError"
       else if (statusCode =? 401)%Z then "UnauthorizedError"
       else if (statusCode =? 403)%Z then "ForbiddenError"
       else if (statusCode =? 404)%Z then "NotFoundError"
       else if (statusCode =? 429)%Z then "RateLimitError"
       else "ServerError";
     message := message;
     code := None;
     err_type := None;
     details := None;
     statusCode := Some statusCode |}.

(** The middleware made by [validate(schema, property)], run on
    [req[property]]: [schema] stands for [schema.validate], which returns the
    details of an error, if any, and the value. The result is the error given
    to [next], or the value written back before [next()]. The list of
    details the middleware builds is handed to [createError] as a third
    argument. *)
Definition validate {Data : Type}
    (schema : Data -> option (list SchemaDetail) * Data) (data : Data)
    : error_object + Data :=
  match fst (schema data) with
  | Some errorDetails =>
      let details :=
        map (fun detail => {| detail_message := sd_message detail;
                              detail_path := sd_path detail |})
          errorDetails in
      inl (createError "Validation error" (Some 400%Z))
  | None => inr (snd (schema data))
  end.

(** A schema that wants a string under [driverId]. *)
Definition driverIdSchema (data : option string)
    : option (list SchemaDetail) * option string :=
  match data with
  | Some _ => (None, data)
  | None =>
      (Some [ {| sd_message := "driverId is required";
                 sd_path := ["driverId"%string];
                 sd_type := "any.required" |} ], data)
  end.

End Middleware.

(** ** Predicates of the specification *)

(** The [visited] array marks exactly the indices of the tour. *)
Definition marks (numPoints : nat) (visited : list bool) (tour : list nat) : Prop :=
  length visited = numPoints /\
  forall i, is_visited visited i = true <-> i ∈ tour.

(** Every entry a tour over the matrix can read is a finite number. *)
Definition complete (distanceMatrix : Matrix) : Prop :=
  forall a b, a < length distanceMatrix -> b < length distanceMatrix ->
    exists z, entry distanceMatrix a b = Ret (Fin z).

(** A distance matrix: every entry a tour of valid indices can read is a
    number or [Infinity]. *)
Definition distance_matrix (distanceMatrix : Matrix) : Prop :=
  forall a b, a < length distanceMatrix -> b < length distanceMatrix ->
    exists x, entry distanceMatrix a b = Ret x /\ x <> NaN.

(** A tour of valid indices into the matrix. *)
Definition valid_tour (distanceMatrix : Matrix) (tour : list nat) : Prop :=
  Forall (fun p => p < length distanceMatrix) tour.

(** Reversing the segment between [i + 1] and [j] strictly shortens the
    tour. *)
Definition improving_reversal (tour : list nat) (distanceMatrix : Matrix)
    (i j : nat) : Prop :=
  exists d0 d,
    calculateTourDistance tour distanceMatrix = Ret d0
    /\ calculateTourDistance (reverse_while tour (i + 1) j) distanceMatrix
       = Ret d
    /\ lt d d0 = true.

(** The provider reports a non-success status for some leg. *)
Definition leg_failed (response : Response) : Prop :=
  exists row element,
    row ∈ rows response /\ element ∈ elements row
    /\ e_status element <> "OK"%string.

(** The formatted matrix is [n] by [n] and every cell is an object with a
    distance. *)
Definition every_leg_served (n : nat) (raw : RawMatrix) : Prop :=
  length raw = n
  /\ Forall (fun row =>
       length row = n
       /\ Forall (fun cell =>
            exists c d, cell = Some c /\ distance c = Some d) row) raw.

(** [b] is the index nearest to [a] among those not in [visited], and the
    first one at that distance. *)
Definition nearest_unvisited (distanceMatrix : Matrix) (visited : list nat)
    (a b : nat) : Prop :=
  (b ∉ visited) /\ b < length distanceMatrix
  /\ exists d,
       entry distanceMatrix a b = Ret d /\ lt d Inf = true
       /\ forall i di,
            i < length distanceMatrix -> i ∉ visited ->
            entry distanceMatrix a i = Ret di ->
            lt di d = false /\ (i < b -> di <> d).

(** Every stop of the tour after the first is the nearest unvisited index
    seen from the stop before it. *)
Definition greedy_tour (distanceMatrix : Matrix) (tour : list nat) : Prop :=
  forall k a b,
    tour !! k = Some a -> tour !! (S k) = Some b ->
    nearest_unvisited distanceMatrix (take (S k) tour) a b.

(** From the last stop of the tour no index outside it is at a distance
    below [Infinity]. *)
Definition stuck (distanceMatrix : Matrix) (tour : list nat) : Prop :=
  exists a,
    last tour = Some a
    /\ forall i, i < length distanceMatrix -> i ∉ tour ->
         exists di, entry distanceMatrix a i = Ret di /\ lt di Inf = false.

(** The entries of [distances] the frontier heuristic can hold: [Infinity],
    the zero of the hub, nothing beyond the array, or a [null] copied from
    the row of a stop already on the path. *)
Definition frontier_distances (distanceMatrix : RawMatrix)
    (distances : list jsval) (path : list nat) : Prop :=
  forall i,
    distance_at distances i = VNum Inf
    \/ (distance_at distances i = VNum (Fin 0) /\ i = 0)
    \/ distance_at distances i = VUndefined
    \/ (distance_at distances i = VNull
        /\ exists q, q ∈ path /\ raw_entry distanceMatrix q i = Ret VNull).

(** Every stop of the path but the hub is the end of a [null] leg from a stop
    of the path. *)
Definition follows_null_legs (distanceMatrix : RawMatrix) (path : list nat)
    : Prop :=
  forall p, p ∈ path -> p <> 0 ->
    exists q, q ∈ path /\ raw_entry distanceMatrix q p = Ret VNull.

(** Every entry of the map has a pending timer that will delete it. *)
Definition every_entry_has_a_timer {V : Type} (c : Timed.cache V) : Prop :=
  forall key item,
    Timed.entries c !! key = Some item ->
    exists due, (due, key) ∈ Timed.timers c.

(** A point on the equator or on the prime meridian: a coordinate that is
    the number zero. *)
Definition on_axis (p : Point) : Prop :=
  (exists q, lat p = Some q /\ q == 0) \/ (exists q, lng p = Some q /\ q == 0).

(** The condition under which [processPoint] geocodes a point. *)
Definition needs_geocoding (p : Point) : bool :=
  truthy_string (address p)
  && (negb (truthy_number (lat p)) || negb (truthy_number (lng p))).

(** * Properties *)

(** ** The model on examples *)

Example nn_scenario : nearestNeighbor scenarioMatrix 0 = Ret [0; 1; 2; 3].
Proof. vm_compute. reflexivity. Qed.

Example twoopt_scenario :
  twoOptImprovement [0; 1; 2; 3] scenarioMatrix 100 = Ret [0; 1; 2; 3].
Proof. vm_compute. reflexivity. Qed.

Example twoopt_improves :
  twoOptImprovement [0; 2; 1; 3] scenarioMatrix 100 = Ret [0; 1; 2; 3].
Proof. vm_compute. reflexivity. Qed.

Example toFixed2_examples :
  toFixed2 (300 # 13) = "23.08"%string /\ toFixed2 (5 # 1000) = "0.01"%string
  /\ toFixed2 (-(7 # 2)) = "-3.50"%string /\ toFixed2 0 = "0.00"%string.
Proof. vm_compute. repeat split. Qed.

(** ** The outcome monad *)

Lemma bind_Ret {A B} (c : outcome A) (k : A -> outcome B) (b : B) :
  bind c k = Ret b -> exists a, c = Ret a /\ k a = Ret b.
Proof. destruct c; simpl; intros; [eauto | discriminate | discriminate]. Qed.

Lemma rethrow_Ret {A} (msg : string) (c : outcome A) (a : A) :
  rethrow msg c = Ret a -> c = Ret a.
Proof. destruct c; simpl; intros; congruence. Qed.

(** Inversion of a successful run, one [bind] at a time. *)
Ltac ret_inv H :=
  let a := fresh "a" in
  let Ha := fresh "Ha" in
  apply bind_Ret in H; destruct H as (a & Ha & H).

(** ** Comparisons *)

Lemma num_lt_trans (a b c : num) : lt a b = true -> lt b c = true -> lt a c = true.
Proof.
  destruct a, b, c; simpl; try discriminate; try reflexivity.
  rewrite !Z.ltb_lt. lia.
Qed.

Lemma num_lt_le (a b : num) : lt a b = true -> le a b = true.
Proof.
  destruct a, b; simpl; try discriminate; try reflexivity.
  rewrite Z.ltb_lt, Z.leb_le. lia.
Qed.

Lemma num_le_refl (a : num) : a <> NaN -> le a a = true.
Proof. destruct a; simpl; [intros _; apply Z.leb_refl | reflexivity | congruence]. Qed.

Lemma add_not_NaN (a b : num) : a <> NaN -> b <> NaN -> add a b <> NaN.
Proof. destruct a, b; simpl; congruence. Qed.

(** ** Nearest neighbour: the tour is a duplicate-free list of valid indices *)


Lemma marks_lt numPoints visited tour i :
  marks numPoints visited tour -> i ∈ tour -> i < numPoints.
Proof.
  intros [Hlen Hm] Hi. apply Hm in Hi. unfold is_visited in Hi.
  destruct (visited !! i) eqn:E; [| discriminate].
  apply lookup_lt_Some in E. lia.
Qed.

Lemma marks_push numPoints visited tour p :
  marks numPoints visited tour -> p < numPoints ->
  marks numPoints (array_set false visited p true) (tour ++ [p]).
Proof.
  intros [Hlen Hm] Hp. unfold array_set.
  replace (p <? length visited) with true
    by (symmetry; apply Nat.ltb_lt; lia).
  split; [by rewrite length_insert |].
  intros i. rewrite elem_of_app, list_elem_of_singleton, <- Hm.
  unfold is_visited. destruct (decide (i = p)) as [-> | Hne].
  - rewrite list_lookup_insert_eq by lia. simpl. tauto.
  - rewrite list_lookup_insert_ne by congruence. tauto.
Qed.

Lemma marks_start numPoints startIndex :
  startIndex < numPoints ->
  marks numPoints (array_set false (replicate numPoints false) startIndex true)
    [startIndex].
Proof.
  intros Hs. unfold array_set. rewrite length_replicate.
  replace (startIndex <? numPoints) with true
    by (symmetry; apply Nat.ltb_lt; lia).
  split; [by rewrite length_insert, length_replicate |].
  intros i. rewrite list_elem_of_singleton. unfold is_visited.
  destruct (decide (i = startIndex)) as [-> | Hne].
  - rewrite list_lookup_insert_eq by (rewrite length_replicate; lia).
    simpl. tauto.
  - rewrite list_lookup_insert_ne by congruence.
    destruct (replicate numPoints false !! i) eqn:E; simpl.
    + apply lookup_replicate in E as [-> _]. split; [discriminate | tauto].
    + split; [discriminate | tauto].
Qed.

Section NearestNeighbor.

Variable distanceMatrix : Matrix.
Let n := length distanceMatrix.

(** From an existing row the scan never throws, and what it picks is an
    unvisited index among those scanned. *)
Lemma nearest_scan_row currentPoint row visited idxs :
  distanceMatrix !! currentPoint = Some row ->
  forall nearestPoint minDistance,
  exists nearestPoint' minDistance',
    nearest_scan distanceMatrix currentPoint visited idxs
      nearestPoint minDistance = Ret (nearestPoint', minDistance')
    /\ (nearestPoint' = nearestPoint
        \/ exists i, nearestPoint' = Some i /\ i ∈ idxs
                     /\ is_visited visited i = false).
Proof.
  intros Hrow. induction idxs as [| i rest IH]; intros np md; simpl.
  - eauto.
  - destruct (is_visited visited i) eqn:Hv; simpl.
    + destruct (IH np md) as (np' & md' & -> & Hnp).
      exists np', md'. split; [done |].
      destruct Hnp as [-> | (j & -> & Hj & Hvj)]; [by left |].
      right. exists j. rewrite elem_of_cons. auto.
    + unfold entry. rewrite Hrow. simpl.
      destruct (lt (default NaN (row !! i)) md).
      * destruct (IH (Some i) (default NaN (row !! i)))
          as (np' & md' & -> & Hnp).
        exists np', md'. split; [done |]. right.
        destruct Hnp as [-> | (j & -> & Hj & Hvj)].
        -- exists i. rewrite elem_of_cons. auto.
        -- exists j. rewrite elem_of_cons. auto.
      * destruct (IH np md) as (np' & md' & -> & Hnp).
        exists np', md'. split; [done |].
        destruct Hnp as [-> | (j & -> & Hj & Hvj)]; [by left |].
        right. exists j. rewrite elem_of_cons. auto.
Qed.

(** The loop returns, whatever stops it, and keeps the invariant. *)
Lemma nearest_while_spec fuel :
  forall visited tour startIndex,
    marks n visited tour -> NoDup tour -> head tour = Some startIndex ->
    n <= fuel + length tour ->
    exists out,
      nearest_while fuel distanceMatrix n visited tour = Ret out
      /\ head out = Some startIndex /\ NoDup out
      /\ Forall (fun i => i < n) out.
Proof.
  induction fuel as [| fuel IH]; intros visited tour s Hm Hnd Hhd Hfuel.
  - simpl. replace (length tour <? n) with false
      by (symmetry; apply Nat.ltb_ge; lia).
    exists tour. repeat split; auto.
    apply Forall_forall. intros i Hi. eapply marks_lt; eauto.
  - simpl. destruct (length tour <? n) eqn:Hguard.
    2:{ exists tour. repeat split; auto.
        apply Forall_forall. intros i Hi. eapply marks_lt; eauto. }
    destruct (last tour) as [cur |] eqn:Hlast.
    2:{ apply last_None in Hlast. subst tour. discriminate. }
    assert (Hcur : cur < n).
    { eapply marks_lt; eauto. by apply last_Some_elem_of. }
    destruct (lookup_lt_is_Some_2 distanceMatrix cur Hcur) as [row Hrow].
    destruct (nearest_scan_row cur row visited (seq 0 n) Hrow None Inf)
      as (np & md & -> & Hnp).
    simpl. destruct Hnp as [-> | (p & -> & Hp & Hvp)].
    + exists tour. repeat split; auto.
      apply Forall_forall. intros i Hi. eapply marks_lt; eauto.
    + apply elem_of_seq in Hp.
      assert (Hfresh : p ∉ tour).
      { intros Hin. apply Hm in Hin. congruence. }
      apply (IH _ _ s).
      * apply marks_push; [done | lia].
      * apply NoDup_app. repeat split; auto.
        -- intros x Hx Hx'. apply list_elem_of_singleton in Hx'. by subst.
        -- apply NoDup_singleton.
      * rewrite head_snoc, Hhd. done.
      * rewrite length_app. simpl. lia.
Qed.

Lemma nearestNeighbor_spec startIndex :
  startIndex < n ->
  exists tour,
    nearestNeighbor distanceMatrix startIndex = Ret tour
    /\ head tour = Some startIndex /\ NoDup tour
    /\ Forall (fun i => i < n) tour.
Proof.
  intros Hs. unfold nearestNeighbor. fold n.
  apply nearest_while_spec.
  - by apply marks_start.
  - apply NoDup_singleton.
  - done.
  - simpl. lia.
Qed.

(** While the tour is short of [n] indices, some index is unvisited. *)
Lemma unvisited_exists visited tour :
  marks n visited tour -> NoDup tour -> length tour < n ->
  exists i, i ∈ seq 0 n /\ is_visited visited i = false.
Proof.
  intros [Hlen Hm] Hnd Hshort.
  destruct (decide (Forall (fun i => i ∈ tour) (seq 0 n))) as [Hall | Hex].
  - assert (Hsub : seq 0 n ⊆+ tour).
    { apply NoDup_submseteq; [apply NoDup_seq |].
      intros x Hx. by eapply Forall_forall in Hall. }
    apply submseteq_length in Hsub. rewrite length_seq in Hsub. lia.
  - apply not_Forall_Exists in Hex; [| intros x; apply _].
    apply Exists_exists in Hex as (i & Hi & Hni). exists i. split; [done |].
    destruct (is_visited visited i) eqn:E; [| done].
    exfalso. apply Hni. by apply Hm.
Qed.

(** Over finite entries the scan picks an index as soon as one is unvisited. *)
Lemma nearest_scan_finds currentPoint visited idxs :
  (forall i, i ∈ idxs -> exists z,
     entry distanceMatrix currentPoint i = Ret (Fin z)) ->
  forall nearestPoint minDistance,
    (nearestPoint = None -> minDistance = Inf) ->
    (is_Some nearestPoint
     \/ exists i, i ∈ idxs /\ is_visited visited i = false) ->
    forall r,
      nearest_scan distanceMatrix currentPoint visited idxs
        nearestPoint minDistance = Ret r ->
      is_Some (fst r).
Proof.
  induction idxs as [| i rest IH]; intros Hfin np md Hinf Hsome r; simpl.
  - intros [= <-]. simpl. destruct Hsome as [? | (i & Hi & _)]; [done |].
    by apply elem_of_nil in Hi.
  - assert (Hrest : forall j, j ∈ rest -> exists z,
                entry distanceMatrix currentPoint j = Ret (Fin z)).
    { intros j Hj. apply Hfin. rewrite elem_of_cons. auto. }
    destruct (is_visited visited i) eqn:Hv; simpl.
    + apply IH; [done | done |].
      destruct Hsome as [? | (j & Hj & Hvj)]; [by left | right].
      exists j. split; [| done].
      apply elem_of_cons in Hj as [-> | Hj]; [congruence | done].
    + destruct (Hfin i) as [z ->]; [rewrite elem_of_cons; auto |]. cbn [bind].
      destruct (lt (Fin z) md) eqn:Hlt.
      * apply IH; [done | discriminate | left; eauto].
      * apply IH; [done | done |]. left.
        destruct np; [eauto |]. rewrite Hinf in Hlt by done. discriminate.
Qed.

(** Over a complete matrix the loop only stops on a full tour. *)
Lemma nearest_while_complete fuel :
  complete distanceMatrix ->
  forall visited tour,
    marks n visited tour -> NoDup tour -> tour <> [] ->
    forall out,
      nearest_while fuel distanceMatrix n visited tour = Ret out ->
      n <= length out.
Proof.
  intros Hc. induction fuel as [| fuel IH]; intros visited tour Hm Hnd Hne out.
  - simpl. destruct (length tour <? n) eqn:Hguard; [discriminate |].
    intros [= <-]. by apply Nat.ltb_ge in Hguard.
  - simpl. destruct (length tour <? n) eqn:Hguard.
    2:{ intros [= <-]. by apply Nat.ltb_ge in Hguard. }
    apply Nat.ltb_lt in Hguard.
    destruct (last tour) as [cur |] eqn:Hlast.
    2:{ apply last_None in Hlast. congruence. }
    assert (Hcur : cur < n).
    { eapply marks_lt; eauto. by apply last_Some_elem_of. }
    destruct (lookup_lt_is_Some_2 distanceMatrix cur Hcur) as [row Hrow].
    destruct (nearest_scan_row cur row visited (seq 0 n) Hrow None Inf)
      as (np & md & Hscan & Hnp).
    assert (Hpick : is_Some np).
    { change np with (fst (np, md)).
      eapply nearest_scan_finds; [| | | exact Hscan]; [| done |].
      - intros i Hi. apply elem_of_seq in Hi. apply Hc; [done | lia].
      - right. by apply unvisited_exists with tour. }
    rewrite Hscan. simpl. destruct Hpick as [p ->].
    destruct Hnp as [? | (p' & [= <-] & Hp & Hvp)]; [discriminate |].
    apply elem_of_seq in Hp.
    assert (Hfresh : p ∉ tour).
    { intros Hin. apply Hm in Hin. congruence. }
    apply IH.
    + apply marks_push; [done | lia].
    + apply NoDup_app. repeat split; auto.
      * intros x Hx Hx'. apply list_elem_of_singleton in Hx'. by subst.
      * apply NoDup_singleton.
    + by destruct tour.
Qed.

(** A duplicate-free list of [n] indices below [n] lists them all. *)
Lemma NoDup_full (l : list nat) (k : nat) :
  NoDup l -> Forall (fun i => i < k) l -> k <= length l -> l ≡ₚ seq 0 k.
Proof.
  intros Hnd Hlt Hlen. apply submseteq_length_Permutation.
  - apply NoDup_submseteq; [done |]. intros x Hx.
    apply elem_of_seq. eapply Forall_forall in Hlt; [| done]. lia.
  - by rewrite length_seq.
Qed.

Lemma nearestNeighbor_complete startIndex :
  complete distanceMatrix -> startIndex < n ->
  exists tour,
    nearestNeighbor distanceMatrix startIndex = Ret tour
    /\ head tour = Some startIndex /\ tour ≡ₚ seq 0 n.
Proof.
  intros Hc Hs.
  destruct (nearestNeighbor_spec startIndex Hs) as (tour & Hrun & Hhd & Hnd & Hlt).
  exists tour. repeat split; [done | done |].
  apply NoDup_full; [done | done |].
  unfold nearestNeighbor in Hrun. fold n in Hrun.
  eapply nearest_while_complete; [done | | | | exact Hrun].
  - by apply marks_start.
  - apply NoDup_singleton.
  - done.
Qed.

End NearestNeighbor.

(** ** 2-opt: reversals permute the tour and only shorten it *)

Lemma swap_Permutation (t : list nat) (left right : nat) :
  swap t left right ≡ₚ t.
Proof.
  unfold swap. destruct (t !! left) eqn:El; [| done].
  destruct (t !! right) eqn:Er; [| done].
  by apply Permutation_insert_swap.
Qed.

Lemma swap_head (t : list nat) (left right : nat) :
  0 < left -> 0 < right -> head (swap t left right) = head t.
Proof.
  intros Hl Hr. unfold swap. destruct (t !! left); [| done].
  destruct (t !! right); [| done].
  rewrite !head_lookup, !list_lookup_insert_ne by lia. done.
Qed.

Lemma reverse_while_Permutation (right : nat) :
  forall t left, reverse_while t left right ≡ₚ t.
Proof.
  induction right as [| right IH]; intros t left; simpl.
  - by destruct (left <? 0).
  - destruct (left <? S right); [| done].
    rewrite IH. apply swap_Permutation.
Qed.

Lemma reverse_while_head (right : nat) :
  forall t left, 0 < left -> head (reverse_while t left right) = head t.
Proof.
  induction right as [| right IH]; intros t left Hl; simpl.
  - by destruct (left <? 0).
  - destruct (left <? S right) eqn:E; [| done].
    rewrite IH by lia. apply swap_head; lia.
Qed.

Section TwoOpt.

Variable distanceMatrix : Matrix.

(** What one pass accepts is a reversal of the best tour, strictly shorter. *)
Lemma two_opt_inner_sound bestTour bestDistance i js newTour newDistance :
  two_opt_inner bestTour bestDistance distanceMatrix i js
    = Ret (Some (newTour, newDistance)) ->
  newTour ≡ₚ bestTour /\ head newTour = head bestTour
  /\ calculateTourDistance newTour distanceMatrix = Ret newDistance
  /\ lt newDistance bestDistance = true.
Proof.
  induction js as [| j rest IH]; simpl; [discriminate |].
  destruct (j =? i + 1); [exact IH |].
  destruct (calculateTourDistance (reverse_while bestTour (i + 1) j)
              distanceMatrix) as [d | |] eqn:Hd; cbn [bind]; try discriminate.
  destruct (lt d bestDistance) eqn:Hlt; [| exact IH].
  intros [= <- <-]. repeat split; [| | done | done].
  - apply reverse_while_Permutation.
  - apply reverse_while_head. lia.
Qed.

Lemma two_opt_outer_sound bestTour bestDistance idxs newTour newDistance :
  two_opt_outer bestTour bestDistance distanceMatrix idxs
    = Ret (Some (newTour, newDistance)) ->
  newTour ≡ₚ bestTour /\ head newTour = head bestTour
  /\ calculateTourDistance newTour distanceMatrix = Ret newDistance
  /\ lt newDistance bestDistance = true.
Proof.
  induction idxs as [| i rest IH]; simpl; [discriminate |].
  destruct (two_opt_inner bestTour bestDistance distanceMatrix i _)
    as [[found |] | |] eqn:Hin; cbn [bind]; try discriminate; [| exact IH].
  intros [= ->]. by eapply two_opt_inner_sound.
Qed.

(** The loop returns a permutation of the tour it was given, with the same
    first stop, either that very tour or a strictly shorter one. *)
Lemma two_opt_while_sound passesLeft :
  forall bestTour bestDistance out,
    two_opt_while passesLeft bestTour bestDistance distanceMatrix = Ret out ->
    calculateTourDistance bestTour distanceMatrix = Ret bestDistance ->
    out ≡ₚ bestTour /\ head out = head bestTour
    /\ exists d, calculateTourDistance out distanceMatrix = Ret d
         /\ (out = bestTour /\ d = bestDistance \/ lt d bestDistance = true).
Proof.
  induction passesLeft as [| k IH]; intros t d out; simpl.
  - intros [= <-] Hd. repeat split; eauto.
  - unfold two_opt_pass.
    destruct (two_opt_outer t d distanceMatrix _)
      as [[[t' d'] |] | |] eqn:Hpass; cbn [bind]; try discriminate.
    + intros Hrun Hd.
      apply two_opt_outer_sound in Hpass as (Hperm & Hhd & Hd' & Hlt).
      destruct (IH _ _ _ Hrun Hd') as (Hperm' & Hhd' & d'' & Hd'' & Hcase).
      repeat split; [by rewrite Hperm' | congruence |].
      exists d''. split; [done | right].
      destruct Hcase as [[_ ->] | Hlt']; [done |].
      by eapply num_lt_trans.
    + intros [= <-] Hd. repeat split; eauto.
Qed.

(** Without an improving reversal a pass finds nothing. *)
Lemma two_opt_inner_none bestTour bestDistance i js r :
  (forall j d, j ∈ js ->
     calculateTourDistance (reverse_while bestTour (i + 1) j) distanceMatrix
       = Ret d -> lt d bestDistance = false) ->
  two_opt_inner bestTour bestDistance distanceMatrix i js = Ret r -> r = None.
Proof.
  induction js as [| j rest IH]; simpl; intros Hno; [congruence |].
  assert (Hrest : forall j' d, j' ∈ rest ->
            calculateTourDistance (reverse_while bestTour (i + 1) j')
              distanceMatrix = Ret d -> lt d bestDistance = false).
  { intros j' d Hj'. apply Hno. rewrite elem_of_cons. auto. }
  destruct (j =? i + 1); [by apply IH |].
  destruct (calculateTourDistance (reverse_while bestTour (i + 1) j)
              distanceMatrix) as [d | |] eqn:Hd; cbn [bind]; try discriminate.
  rewrite (Hno j d) by (rewrite ?elem_of_cons; auto). by apply IH.
Qed.

Lemma two_opt_outer_none bestTour bestDistance idxs r :
  (forall i j d, i ∈ idxs -> i + 2 <= j < length bestTour ->
     calculateTourDistance (reverse_while bestTour (i + 1) j) distanceMatrix
       = Ret d -> lt d bestDistance = false) ->
  two_opt_outer bestTour bestDistance distanceMatrix idxs = Ret r -> r = None.
Proof.
  induction idxs as [| i rest IH]; simpl; intros Hno; [congruence |].
  destruct (two_opt_inner bestTour bestDistance distanceMatrix i _)
    as [found | |] eqn:Hin; cbn [bind]; try discriminate.
  apply two_opt_inner_none in Hin as ->.
  - apply IH. intros i' j d Hi'. apply Hno. rewrite elem_of_cons. auto.
  - intros j d Hj. apply Hno; [rewrite elem_of_cons; auto |].
    apply elem_of_seq in Hj. lia.
Qed.

Lemma two_opt_while_unchanged passesLeft bestTour bestDistance out :
  calculateTourDistance bestTour distanceMatrix = Ret bestDistance ->
  (forall i j, i + 2 <= j < length bestTour ->
     ~ improving_reversal bestTour distanceMatrix i j) ->
  two_opt_while passesLeft bestTour bestDistance distanceMatrix = Ret out ->
  out = bestTour.
Proof.
  intros Hd Hno. destruct passesLeft as [| k]; simpl; [congruence |].
  unfold two_opt_pass.
  destruct (two_opt_outer bestTour bestDistance distanceMatrix _)
    as [r | |] eqn:Hpass; cbn [bind]; try discriminate.
  apply two_opt_outer_none in Hpass as ->; [congruence |].
  intros i j d _ Hij Hrev.
  destruct (lt d bestDistance) eqn:Hlt; [| done].
  exfalso. apply (Hno i j Hij). exists bestDistance, d. auto.
Qed.

(** *** Over a distance matrix and valid indices nothing throws *)

Hypothesis Hmatrix : distance_matrix distanceMatrix.

Lemma tour_legs_total tour :
  valid_tour distanceMatrix tour ->
  forall idxs totalDistance,
    Forall (fun i => i + 1 < length tour) idxs -> totalDistance <> NaN ->
    exists d, tour_legs tour distanceMatrix idxs totalDistance = Ret d
              /\ d <> NaN.
Proof.
  intros Hvalid. induction idxs as [| i rest IH]; intros total Hidx Htotal.
  - simpl. eauto.
  - apply Forall_cons in Hidx as [Hi Hrest]. simpl. unfold tour_at.
    destruct (lookup_lt_is_Some_2 tour i ltac:(lia)) as [a Ha].
    destruct (lookup_lt_is_Some_2 tour (i + 1) Hi) as [b Hb].
    rewrite Ha, Hb. cbn [bind].
    destruct (Hmatrix a b) as (x & -> & Hx).
    + eapply Forall_forall in Hvalid; [exact Hvalid |].
      by eapply list_elem_of_lookup_2.
    + eapply Forall_forall in Hvalid; [exact Hvalid |].
      by eapply list_elem_of_lookup_2.
    + cbn [bind]. apply IH; [done |]. by apply add_not_NaN.
Qed.

Lemma calculateTourDistance_total tour :
  valid_tour distanceMatrix tour ->
  exists d, calculateTourDistance tour distanceMatrix = Ret d /\ d <> NaN.
Proof.
  intros Hvalid. apply tour_legs_total; [done | | done].
  apply Forall_forall. intros i Hi. apply elem_of_seq in Hi. lia.
Qed.

Lemma two_opt_inner_total bestTour bestDistance i js :
  valid_tour distanceMatrix bestTour ->
  exists r, two_opt_inner bestTour bestDistance distanceMatrix i js = Ret r.
Proof.
  intros Hvalid. induction js as [| j rest IH]; simpl; [eauto |].
  destruct (j =? i + 1); [exact IH |].
  destruct (calculateTourDistance_total (reverse_while bestTour (i + 1) j))
    as (d & -> & _).
  { unfold valid_tour. by rewrite reverse_while_Permutation. }
  cbn [bind]. destruct (lt d bestDistance); eauto.
Qed.

Lemma two_opt_outer_total bestTour bestDistance idxs :
  valid_tour distanceMatrix bestTour ->
  exists r, two_opt_outer bestTour bestDistance distanceMatrix idxs = Ret r.
Proof.
  intros Hvalid. induction idxs as [| i rest IH]; simpl; [eauto |].
  destruct (two_opt_inner_total bestTour bestDistance i
              (seq (i + 2) (length bestTour - (i + 2))) Hvalid) as [r ->].
  cbn [bind]. destruct r; eauto.
Qed.

Lemma two_opt_while_total passesLeft :
  forall bestTour bestDistance,
    valid_tour distanceMatrix bestTour ->
    exists out,
      two_opt_while passesLeft bestTour bestDistance distanceMatrix = Ret out.
Proof.
  induction passesLeft as [| k IH]; intros t d Hvalid; simpl; [eauto |].
  unfold two_opt_pass.
  destruct (two_opt_outer_total t d (seq 0 (length t - 2)) Hvalid)
    as [r Hpass].
  rewrite Hpass. cbn [bind]. destruct r as [[t' d'] |]; [| eauto].
  apply IH. apply two_opt_outer_sound in Hpass as (Hperm & _).
  unfold valid_tour. by rewrite Hperm.
Qed.

End TwoOpt.

(** ** Claims on the numeric core *)

Lemma scenario_distance_matrix : distance_matrix scenarioMatrix.
Proof.
  intros a b Ha Hb. simpl in Ha, Hb.
  do 4 (destruct a as [| a]; [do 4 (destruct b as [| b];
    [vm_compute; eexists; split; [reflexivity | discriminate] |]); lia |]).
  lia.
Qed.

Lemma island_early_stop : nearestNeighbor islandMatrix 0 = Ret [0; 1].
Proof. vm_compute. reflexivity. Qed.

(** C10: for every distance matrix and every in-range [startIndex],
    [nearestNeighbor] returns a tour that begins with [startIndex], has no
    duplicate index and holds only valid indices into the matrix; this
    covers the runs that stop early for want of a reachable unvisited
    index. *)
Theorem nearestNeighbor_tour_invariant (distanceMatrix : Matrix)
    (startIndex : nat) :
  startIndex < length distanceMatrix ->
  exists tour,
    nearestNeighbor distanceMatrix startIndex = Ret tour
    /\ head tour = Some startIndex
    /\ NoDup tour
    /\ Forall (fun i => i < length distanceMatrix) tour.
Proof. apply nearestNeighbor_spec. Qed.

Lemma nearestNeighbor_tour_invariant_witness :
  0 < length islandMatrix
  /\ exists tour,
       nearestNeighbor islandMatrix 0 = Ret tour
       /\ head tour = Some 0
       /\ NoDup tour
       /\ Forall (fun i => i < length islandMatrix) tour.
Proof.
  split; [simpl; lia |].
  apply (nearestNeighbor_tour_invariant islandMatrix 0). simpl. lia.
Defined.

(** C3: for every tour of valid indices and every distance matrix,
    [twoOptImprovement] returns a tour whose total distance (the sum of the
    consecutive legs, no leg back to the start) is at most that of the input
    tour; and when no reversal strictly improves the input tour, the output
    is the input tour. *)
Theorem twoOpt_never_longer (tour : list nat) (distanceMatrix : Matrix)
    (maxIterations : nat) :
  distance_matrix distanceMatrix ->
  valid_tour distanceMatrix tour ->
  exists out d0 d1,
    twoOptImprovement tour distanceMatrix maxIterations = Ret out
    /\ calculateTourDistance tour distanceMatrix = Ret d0
    /\ calculateTourDistance out distanceMatrix = Ret d1
    /\ le d1 d0 = true
    /\ ((forall i j, i + 2 <= j < length tour ->
           ~ improving_reversal tour distanceMatrix i j) -> out = tour).
Proof.
  intros Hm Hvalid. unfold twoOptImprovement.
  destruct (calculateTourDistance_total distanceMatrix Hm tour Hvalid)
    as (d0 & Hd0 & Hnan).
  rewrite Hd0. cbn [bind].
  destruct (two_opt_while_total distanceMatrix Hm maxIterations tour d0 Hvalid)
    as [out Hrun].
  destruct (two_opt_while_sound distanceMatrix maxIterations tour d0 out
              Hrun Hd0) as (_ & _ & d1 & Hd1 & Hcase).
  exists out, d0, d1. repeat split; [done | done | |].
  - destruct Hcase as [[_ ->] | Hlt]; [by apply num_le_refl |].
    by apply num_lt_le.
  - intros Hno. by eapply two_opt_while_unchanged.
Qed.

Lemma twoOpt_never_longer_witness :
  distance_matrix scenarioMatrix
  /\ valid_tour scenarioMatrix [0; 2; 1; 3]
  /\ exists out d0 d1,
       twoOptImprovement [0; 2; 1; 3] scenarioMatrix 100 = Ret out
       /\ calculateTourDistance [0; 2; 1; 3] scenarioMatrix = Ret d0
       /\ calculateTourDistance out scenarioMatrix = Ret d1
       /\ le d1 d0 = true
       /\ ((forall i j, i + 2 <= j < length [0; 2; 1; 3] ->
              ~ improving_reversal [0; 2; 1; 3] scenarioMatrix i j) ->
           out = [0; 2; 1; 3]).
Proof.
  assert (Hv : valid_tour scenarioMatrix [0; 2; 1; 3]).
  { unfold valid_tour. simpl. repeat constructor; lia. }
  split; [exact scenario_distance_matrix |]. split; [exact Hv |].
  exact (twoOpt_never_longer [0; 2; 1; 3] scenarioMatrix 100
           scenario_distance_matrix Hv).
Defined.

(** C6: on the four-point matrix, [nearestNeighbor] from H (index 0) returns
    [H; A; B; C], a pass of 2-opt over that tour finds no improving
    reversal, and [twoOptImprovement] returns the tour unchanged. *)
Theorem scenario_nearest_then_twoOpt :
  nearestNeighbor scenarioMatrix 0 = Ret [0; 1; 2; 3]
  /\ two_opt_pass [0; 1; 2; 3] (Fin 3) scenarioMatrix = Ret None
  /\ twoOptImprovement [0; 1; 2; 3] scenarioMatrix defaultMaxIterations
     = Ret [0; 1; 2; 3].
Proof. vm_compute. repeat split. Qed.

(** ** Route metrics *)

Lemma toFixed2_comp (x y : Q) : (x == y)%Q -> toFixed2 x = toFixed2 y.
Proof.
  intros E. unfold toFixed2.
  rewrite (Qfloor_comp (Qabs x * 100 + (1 # 2)) (Qabs y * 100 + (1 # 2)))
    by (rewrite E; reflexivity).
  destruct (Qlt_le_dec x 0) as [Hx | Hx], (Qlt_le_dec y 0) as [Hy | Hy];
    try reflexivity; exfalso; rewrite E in Hx;
    eapply Qlt_not_le; eauto.
Qed.

Lemma inject_Z_nonzero (d : Z) : d <> 0%Z -> ~ (inject_Z d == 0)%Q.
Proof. intros Hd E. unfold Qeq in E. simpl in E. lia. Qed.

(** Whatever the non-zero total, the saving is thirty over one point three. *)
Lemma fuelSavings_value (d : Z) :
  d <> 0%Z -> exists x, fuelSavings d = Some x /\ (x == 300 # 13)%Q.
Proof.
  intros Hd. pose proof (inject_Z_nonzero d Hd) as Hq. unfold fuelSavings.
  destruct (Qeq_bool (inject_Z d * (13 # 10)) 0) eqn:E.
  - apply Qeq_bool_eq in E. exfalso. apply Hq.
    unfold Qeq in *. simpl in *. lia.
  - eexists. split; [reflexivity |]. field. exact Hq.
Qed.

Lemma fuelSavingsToFixed_constant (d : Z) :
  d <> 0%Z -> fuelSavingsToFixed d = "23.08"%string.
Proof.
  intros Hd. unfold fuelSavingsToFixed.
  destruct (fuelSavings_value d Hd) as (x & -> & Hx).
  rewrite (toFixed2_comp _ _ Hx). vm_compute. reflexivity.
Qed.

Lemma fuelSavingsToFixed_zero : fuelSavingsToFixed 0 = "NaN"%string.
Proof. vm_compute. reflexivity. Qed.

(** C9: for every route whose legs the oracle reports with a positive summed
    distance (so a route of at least two points), [calculateTSPRouteMetrics]
    returns metrics whose [fuelSavingsPercentage] is the constant string
    ["23.08"], thirty over one point three to two decimals, whatever the
    route and the distances; it is computed from that one total alone.
    Doubles are read as exact rationals. *)
Theorem tsp_metrics_fuel_savings_constant
    (cacheGet : list JSPoint -> bool -> option RawMatrix)
    (httpGet : list Point -> bool -> outcome Response)
    (route : list JSPoint) (distanceMatrix : RawMatrix) (metres seconds : Z) :
  getDistanceMatrix cacheGet httpGet route true = Ret distanceMatrix ->
  sum_legs distanceMatrix (seq 0 (length route - 1)) 0 0
    = Ret (metres, seconds) ->
  (0 < metres)%Z ->
  2 <= length route
  /\ calculateTSPRouteMetrics cacheGet httpGet route
     = Ret {| totalDistance := inject_Z metres / 1000;
              totalTime := inject_Z seconds / 60;
              fuelSavingsPercentage := Some "23.08"%string |}.
Proof.
  intros Hm Hsum Hpos. split.
  - destruct (length route - 1) as [| k] eqn:E; [| lia].
    simpl in Hsum. injection Hsum as <- <-. lia.
  - unfold calculateTSPRouteMetrics. rewrite Hm. cbn [bind]. rewrite Hsum.
    cbn [bind rethrow fst snd].
    rewrite fuelSavingsToFixed_constant by lia. reflexivity.
Qed.

Lemma tsp_metrics_fuel_savings_constant_witness :
  let route := map Some [Scenario.H; Scenario.A; Scenario.B; Scenario.C] in
  exists distanceMatrix,
    getDistanceMatrix Scenario.emptyCache Scenario.provider route true
      = Ret distanceMatrix
    /\ sum_legs distanceMatrix (seq 0 (length route - 1)) 0 0 = Ret (3, 180)%Z
    /\ (0 < 3)%Z
    /\ 2 <= length route
    /\ calculateTSPRouteMetrics Scenario.emptyCache Scenario.provider route
       = Ret {| totalDistance := inject_Z 3 / 1000;
                totalTime := inject_Z 180 / 60;
                fuelSavingsPercentage := Some "23.08"%string |}.
Proof.
  intros route.
  destruct (getDistanceMatrix Scenario.emptyCache Scenario.provider route true)
    as [m | |] eqn:Hm; [| vm_compute in Hm; discriminate ..].
  exists m.
  assert (Hs : sum_legs m (seq 0 (length route - 1)) 0 0 = Ret (3, 180)%Z).
  { vm_compute in Hm. injection Hm as <-. vm_compute. reflexivity. }
  split; [reflexivity |]. split; [exact Hs |]. split; [lia |].
  exact (tsp_metrics_fuel_savings_constant _ _ route m 3 180 Hm Hs
           ltac:(lia)).
Defined.

(** ** The oracle *)

(** C7, as stated, fails: with every status but one leg's OK, the call
    returns a matrix instead of failing. *)
Lemma leg_failure_returns_matrix :
  ~ (forall response, leg_failed response ->
       exists e, getDistanceMatrixFrom None (Ret response) = Throw e).
Proof.
  intros Hclaim. destruct (Hclaim Upstream.oneLegMissing) as [e He].
  - eexists _, _. split; [apply list_elem_of_here |].
    split; [apply list_elem_of_further, list_elem_of_here |]. discriminate.
  - vm_compute in He. discriminate.
Qed.

Lemma format_element_null (element : Element) :
  format_element element = None <-> e_status element <> "OK"%string.
Proof.
  unfold format_element.
  destruct (String.eqb_spec (e_status element) "OK") as [-> | Hne].
  - split; [discriminate | congruence].
  - split; [auto | reflexivity].
Qed.

Lemma mapM_cell_distance_cases (row : list (option Cell)) :
  (exists l, mapM cell_distance row = Ret l)
  \/ mapM cell_distance row = Throw TypeError.
Proof.
  induction row as [| [c |] rest IH]; simpl; [eauto | | by right].
  destruct IH as [[l ->] | ->]; simpl; eauto.
Qed.

(** Converting a row with a [null] cell throws. *)
Lemma mapM_cell_distance_null (row : list (option Cell)) :
  None ∈ row -> mapM cell_distance row = Throw TypeError.
Proof.
  induction row as [| [c |] rest IH]; intros Hin; simpl.
  - by apply elem_of_nil in Hin.
  - apply elem_of_cons in Hin as [? | Hin]; [discriminate |].
    by rewrite IH.
  - reflexivity.
Qed.

Lemma mapM_rows_null (raw : RawMatrix) (row : list (option Cell)) :
  row ∈ raw -> None ∈ row ->
  mapM (mapM cell_distance) raw = Throw TypeError.
Proof.
  intros Hrow Hnull. induction raw as [| row0 rest IH]; simpl.
  - by apply elem_of_nil in Hrow.
  - apply elem_of_cons in Hrow as [<- | Hrow].
    + by rewrite mapM_cell_distance_null.
    + destruct (mapM_cell_distance_cases row0) as [[l ->] | ->]; simpl;
        [| reflexivity].
      by rewrite IH.
Qed.

(** C7, amended: the oracle call fails when the provider's response as a
    whole reports a non-success status, and both sequencers propagate that
    failure; when the response as a whole is OK, the call returns the
    formatted matrix, in which a cell is [null] exactly when the status of
    its leg is not OK, and on a matrix with such a cell the TSP family fails
    rather than use a default distance. *)
Theorem matrix_fails_on_response_status
    (cacheGet : list JSPoint -> bool -> option RawMatrix)
    (httpGet : list Point -> bool -> outcome Response)
    (points : list JSPoint) (startPoint : JSPoint)
    (asked : list Point) (response : Response) :
  cacheGet (startPoint :: points) true = None ->
  locations (startPoint :: points) = Ret asked ->
  httpGet asked true = Ret response ->
  (r_status response <> "OK"%string ->
     getDistanceMatrix cacheGet httpGet (startPoint :: points) true
       = Throw (Error "Failed to get distance matrix from Google Maps API")
     /\ findOptimalRoute cacheGet httpGet points startPoint
        = Throw (Error "Failed to optimize route")
     /\ findOptimalRouteTSP cacheGet httpGet points startPoint
        = Throw (Error "Failed to optimize route using TSP"))
  /\ (r_status response = "OK"%string ->
       getDistanceMatrix cacheGet httpGet (startPoint :: points) true
         = Ret (map (fun row => map format_element (elements row))
                  (rows response))
       /\ (forall element,
             format_element element = None
             <-> e_status element <> "OK"%string)
       /\ (forall row,
             row ∈ map (fun row => map format_element (elements row))
                     (rows response) ->
             None ∈ row ->
             findOptimalRouteTSP cacheGet httpGet points startPoint
             = Throw (Error "Failed to optimize route using TSP"))).
Proof.
  intros Hcache Hloc Hget.
  assert (Hstatus : getDistanceMatrix cacheGet httpGet (startPoint :: points)
            true
          = rethrow "Failed to get distance matrix from Google Maps API"
              (if negb (String.eqb (r_status response) "OK")
               then Throw (Error ("Google Maps API error: "
                                  ++ r_status response))
               else Ret (format_rows (rows response)))).
  { unfold getDistanceMatrix, getDistanceMatrixFrom.
    rewrite Hcache, Hloc. cbn [bind]. rewrite Hget. reflexivity. }
  split.
  - intros Hne. apply String.eqb_neq in Hne.
    assert (Hfail : getDistanceMatrix cacheGet httpGet (startPoint :: points)
              true
            = Throw (Error
                "Failed to get distance matrix from Google Maps API")).
    { rewrite Hstatus, Hne. reflexivity. }
    split; [exact Hfail |].
    unfold findOptimalRoute, findOptimalRouteTSP. rewrite Hfail.
    split; reflexivity.
  - intros Hok.
    assert (Hmatrix : getDistanceMatrix cacheGet httpGet
              (startPoint :: points) true
            = Ret (format_rows (rows response))).
    { rewrite Hstatus, Hok. reflexivity. }
    split; [exact Hmatrix |]. split; [apply format_element_null |].
    intros row Hrow Hnull. unfold findOptimalRouteTSP. rewrite Hmatrix.
    cbn [bind]. rewrite (mapM_rows_null _ row) by done. reflexivity.
Qed.

Lemma matrix_fails_on_response_status_witness :
  let points := [Some Scenario.A] in
  let startPoint := Some Scenario.H in
  Scenario.emptyCache (startPoint :: points) true = None
  /\ locations (startPoint :: points) = Ret [Scenario.H; Scenario.A]
  /\ Upstream.deniedProvider [Scenario.H; Scenario.A] true
     = Ret Upstream.denied
  /\ r_status Upstream.denied <> "OK"%string
  /\ findOptimalRoute Scenario.emptyCache Upstream.deniedProvider
       points startPoint
     = Throw (Error "Failed to optimize route")
  /\ findOptimalRouteTSP Scenario.emptyCache Upstream.deniedProvider
       points startPoint
     = Throw (Error "Failed to optimize route using TSP").
Proof.
  intros points startPoint.
  assert (Hne : r_status Upstream.denied <> "OK"%string) by discriminate.
  pose proof (matrix_fails_on_response_status Scenario.emptyCache
                Upstream.deniedProvider points startPoint
                [Scenario.H; Scenario.A] Upstream.denied
                eq_refl eq_refl eq_refl) as [Hfail _].
  destruct (Hfail Hne) as (_ & Hd & Ht).
  split; [reflexivity |]. split; [reflexivity |]. split; [reflexivity |].
  split; [exact Hne |]. split; [exact Hd | exact Ht].
Defined.

(** ** The frontier heuristic on the cells of the formatted matrix *)

Section Frontier.

Variable cacheGet : list JSPoint -> bool -> option RawMatrix.
Variable httpGet : list Point -> bool -> outcome Response.

(** An object never compares below a number, so a row of objects relaxes
    nothing. *)
Lemma relax_objects distanceMatrix currentPoint row visited idxs :
  distanceMatrix !! currentPoint = Some row ->
  Forall (fun cell => cell <> None) row ->
  forall distances,
    relax distanceMatrix currentPoint visited idxs distances = Ret distances.
Proof.
  intros Hrow Hobj. induction idxs as [| i rest IH]; intros distances; simpl.
  - reflexivity.
  - destruct (negb (is_visited visited i)); [| apply IH].
    unfold raw_entry. rewrite Hrow. cbn [bind].
    destruct (row !! i) as [[c |] |] eqn:Ei.
    + unfold less_than. simpl. apply IH.
    + eapply Forall_forall in Hobj; [| by eapply list_elem_of_lookup_2].
      congruence.
    + unfold less_than. simpl. apply IH.
Qed.

(** Nothing is selected while every unvisited index is at [Infinity]. *)
Lemma select_next_none visited distances idxs :
  (forall i, i ∈ idxs ->
     is_visited visited i = true \/ distance_at distances i = VNum Inf) ->
  select_next visited distances idxs (VNum Inf) None = (VNum Inf, None).
Proof.
  induction idxs as [| i rest IH]; intros Hall; simpl; [reflexivity |].
  assert (Hrest : forall j, j ∈ rest ->
            is_visited visited j = true \/ distance_at distances j = VNum Inf).
  { intros j Hj. apply Hall. rewrite elem_of_cons. auto. }
  destruct (Hall i) as [-> | ->]; [rewrite elem_of_cons; auto | |];
    simpl; [by apply IH |].
  rewrite andb_false_r. by apply IH.
Qed.

Lemma frontier_while_hub fuel distanceMatrix n row :
  distanceMatrix !! 0 = Some row ->
  Forall (fun cell => cell <> None) row ->
  frontier_while (S fuel) distanceMatrix (S n)
    (array_set false (replicate (S n) false) 0 true)
    (array_set VUndefined (replicate (S n) (VNum Inf)) 0 (VNum (Fin 0)))
    [0] 0 = Ret [0].
Proof.
  intros Hrow Hobj. cbn [frontier_while length].
  destruct (1 <? S n); [| reflexivity].
  rewrite (relax_objects _ _ row) by done. cbn [bind].
  rewrite select_next_none; [reflexivity |].
  intros i Hi. apply elem_of_seq in Hi. destruct i as [| i].
  - left. reflexivity.
  - right. unfold distance_at, array_set. simpl.
    rewrite lookup_replicate_2 by lia. reflexivity.
Qed.

(** Whenever the first row of the matrix holds no [null], the route is the
    start point alone, whatever the distances in the cells. *)
Lemma frontier_never_leaves_hub points startPoint distanceMatrix row :
  getDistanceMatrix cacheGet httpGet (startPoint :: points) true
    = Ret distanceMatrix ->
  distanceMatrix !! 0 = Some row ->
  Forall (fun cell => cell <> None) row ->
  findOptimalRoute cacheGet httpGet points startPoint = Ret [startPoint].
Proof.
  intros Hm Hrow Hobj. unfold findOptimalRoute. rewrite Hm.
  cbn [bind length].
  rewrite (frontier_while_hub _ _ _ row) by done. reflexivity.
Qed.

End Frontier.

(** A [null] cell, on the other hand, compares as zero: the leg the provider
    could not serve is taken first. *)
Example frontier_reads_null_as_zero :
  findOptimalRoute Scenario.emptyCache Upstream.oneLegMissingProvider
    [Some Scenario.A] (Some Scenario.H)
  = Ret [Some Scenario.H; Some Scenario.A].
Proof. vm_compute. reflexivity. Qed.

(** C2: on the four-point matrix served by the oracle, [findOptimalRoute]
    returns the hub alone, not [H; A; B; C]: no cell of the matrix, an object,
    ever compares below a stored distance, so no point is selected. *)
Theorem frontier_scenario_returns_hub_only :
  findOptimalRoute Scenario.emptyCache Scenario.provider
    [Some Scenario.A; Some Scenario.B; Some Scenario.C] (Some Scenario.H)
  = Ret [Some Scenario.H].
Proof. vm_compute. reflexivity. Qed.

(** ** The controller *)

Lemma respond500_200 {D} (production : bool) (msg : string)
    (c : outcome (HttpResponse D)) (data : D) :
  respond500 production msg c = Ret (Status200 data) ->
  c = Ret (Status200 data).
Proof. destruct c; simpl; intros; congruence. Qed.

(** C8: [optimizeRoute] called with an empty array of delivery points answers
    400 with the invalid-input message, whatever the rest of the request, and
    so returns no route. *)
Theorem optimize_rejects_no_delivery_points
    (cacheGet : list JSPoint -> bool -> option RawMatrix)
    (httpGet : list Point -> bool -> outcome Response)
    (geocodeAddress : string -> outcome GeoResult) (production : bool)
    (start : option Point) (algorithmName : option string) :
  optimizeRoute cacheGet httpGet geocodeAddress production
    {| deliveryPoints := IsArray []; startPoint := start;
       algorithm := algorithmName |}
  = Ret (Status400
           "Delivery points are required and must be a non-empty array")
  /\ forall data,
       optimizeRoute cacheGet httpGet geocodeAddress production
         {| deliveryPoints := IsArray []; startPoint := start;
            algorithm := algorithmName |}
       <> Ret (Status200 data).
Proof. split; [reflexivity |]. intros data. cbn. discriminate. Qed.

(** C5: whenever [compareAlgorithms] answers with a comparison, its
    [recommended] field names the algorithm whose total distance is strictly
    smaller, and names the TSP family when the two totals are equal. *)
Theorem compare_recommends_shorter
    (cacheGet : list JSPoint -> bool -> option RawMatrix)
    (httpGet : list Point -> bool -> outcome Response)
    (geocodeAddress : string -> outcome GeoResult) (production : bool)
    (clock : Clock) (body : CompareBody) (c : Comparison) :
  compareAlgorithms cacheGet httpGet geocodeAddress production clock body
    = Ret (Status200 c) ->
  let tspDistance := totalDistance (run_metrics (tsp c)) in
  let dijkstraDistance := totalDistance (run_metrics (dijkstra c)) in
  ((tspDistance < dijkstraDistance)%Q -> recommended c = "tsp"%string)
  /\ ((dijkstraDistance < tspDistance)%Q -> recommended c = "dijkstra"%string)
  /\ ((tspDistance == dijkstraDistance)%Q -> recommended c = "tsp"%string).
Proof.
  intros Hrun. apply respond500_200 in Hrun.
  destruct (cmp_deliveryPoints body) as [| | [| p ps]]; try discriminate.
  destruct (cmp_startPoint body) as [start |]; try discriminate.
  destruct (negb (truthy_number (lat start))
            || negb (truthy_number (lng start))); try discriminate.
  ret_inv Hrun. ret_inv Hrun. ret_inv Hrun. ret_inv Hrun. ret_inv Hrun.
  injection Hrun as <-. cbn [tsp dijkstra run_metrics recommended].
  destruct (Qle_bool (totalDistance a3) (totalDistance a1)) eqn:E.
  - repeat split; try reflexivity.
    intros Hlt. apply Qle_bool_iff in E. exfalso. by eapply Qlt_not_le.
  - assert (Hnle : ~ (totalDistance a3 <= totalDistance a1)%Q).
    { intros Hle. apply Qle_bool_iff in Hle. congruence. }
    repeat split; try reflexivity.
    + intros Hlt. exfalso. apply Hnle. by apply Qlt_le_weak.
    + intros Heq. exfalso. apply Hnle. rewrite Heq. apply Qle_refl.
Qed.

Lemma compare_recommends_shorter_witness :
  exists c,
    compareAlgorithms Scenario.emptyCache Scenario.provider
      Scenario.noGeocoder false
      {| startTime1 := 0; endTime1 := 3; startTime2 := 3; endTime2 := 9 |}
      {| cmp_deliveryPoints := IsArray [Scenario.A; Scenario.B; Scenario.C];
         cmp_startPoint := Some Scenario.H |}
    = Ret (Status200 c)
    /\ recommended c = "dijkstra"%string
    /\ ((totalDistance (run_metrics (tsp c))
         < totalDistance (run_metrics (dijkstra c)))%Q ->
        recommended c = "tsp"%string)
    /\ ((totalDistance (run_metrics (dijkstra c))
         < totalDistance (run_metrics (tsp c)))%Q ->
        recommended c = "dijkstra"%string)
    /\ ((totalDistance (run_metrics (tsp c))
         == totalDistance (run_metrics (dijkstra c)))%Q ->
        recommended c = "tsp"%string).
Proof.
  destruct (compareAlgorithms Scenario.emptyCache Scenario.provider
              Scenario.noGeocoder false
              {| startTime1 := 0; endTime1 := 3; startTime2 := 3;
                 endTime2 := 9 |}
              {| cmp_deliveryPoints :=
                   IsArray [Scenario.A; Scenario.B; Scenario.C];
                 cmp_startPoint := Some Scenario.H |})
    as [[msg | c | msg err] | |] eqn:Hrun;
    [vm_compute in Hrun; discriminate | |
     vm_compute in Hrun; discriminate ..].
  exists c. split; [reflexivity |]. split.
  - vm_compute in Hrun. injection Hrun as <-. reflexivity.
  - exact (compare_recommends_shorter _ _ _ _ _ _ c Hrun).
Defined.

(** ** Both sequencers return duplicate-free index lists that start at 0 *)

Section FrontierInvariant.

Variable distanceMatrix : RawMatrix.
Variable n : nat.

Lemma select_next_spec visited distances idxs :
  forall minDistance nextPoint,
    snd (select_next visited distances idxs minDistance nextPoint) = nextPoint
    \/ exists i,
         snd (select_next visited distances idxs minDistance nextPoint)
           = Some i
         /\ i ∈ idxs /\ is_visited visited i = false.
Proof.
  induction idxs as [| i rest IH]; intros md np; simpl; [by left |].
  destruct (is_visited visited i) eqn:Hv; simpl.
  - destruct (IH md np) as [-> | (j & -> & Hj & Hvj)]; [by left | right].
    exists j. rewrite elem_of_cons. auto.
  - destruct (less_than (distance_at distances i) md).
    + right. destruct (IH (distance_at distances i) (Some i))
        as [-> | (j & -> & Hj & Hvj)].
      * exists i. rewrite elem_of_cons. auto.
      * exists j. rewrite elem_of_cons. auto.
    + destruct (IH md np) as [-> | (j & -> & Hj & Hvj)]; [by left | right].
      exists j. rewrite elem_of_cons. auto.
Qed.

(** The loop never exhausts its fuel, and a path it returns keeps the
    invariant. *)
Lemma frontier_while_spec fuel :
  forall visited distances path currentPoint startIndex,
    marks n visited path -> NoDup path -> head path = Some startIndex ->
    n <= fuel + length path ->
    match frontier_while fuel distanceMatrix n visited distances path
            currentPoint with
    | Ret out =>
        head out = Some startIndex /\ NoDup out
        /\ Forall (fun i => i < n) out
    | Throw _ => True
    | OutOfFuel => False
    end.
Proof.
  induction fuel as [| fuel IH];
    intros visited distances path cur s Hm Hnd Hhd Hfuel.
  - simpl. replace (length path <? n) with false
      by (symmetry; apply Nat.ltb_ge; lia).
    repeat split; auto.
    apply Forall_forall. intros i Hi. eapply marks_lt; eauto.
  - simpl. destruct (length path <? n) eqn:Hguard.
    2:{ repeat split; auto.
        apply Forall_forall. intros i Hi. eapply marks_lt; eauto. }
    destruct (relax distanceMatrix cur visited (seq 0 n) distances)
      as [distances' | e |] eqn:Hrelax; cbn [bind]; [| done |].
    + destruct (select_next_spec visited distances' (seq 0 n) (VNum Inf) None)
        as [-> | (p & -> & Hp & Hvp)].
      * repeat split; auto.
        apply Forall_forall. intros i Hi. eapply marks_lt; eauto.
      * apply elem_of_seq in Hp.
        assert (Hfresh : p ∉ path).
        { intros Hin. apply Hm in Hin. congruence. }
        apply IH.
        -- apply marks_push; [done | lia].
        -- apply NoDup_app. repeat split; auto.
           ++ intros x Hx Hx'. apply list_elem_of_singleton in Hx'. by subst.
           ++ apply NoDup_singleton.
        -- rewrite head_snoc, Hhd. done.
        -- rewrite length_app. simpl. lia.
    + (* relax has no loop of its own to run out of fuel *)
      exfalso. clear -Hrelax. revert distances Hrelax.
      induction (seq 0 n) as [| i rest IHr]; intros distances; simpl;
        [discriminate |].
      destruct (negb (is_visited visited i)); [| apply IHr].
      destruct (raw_entry distanceMatrix cur i) as [d | |] eqn:He;
        cbn [bind]; [| discriminate |].
      * destruct (less_than d (distance_at distances i)); apply IHr.
      * unfold raw_entry in He. destruct (distanceMatrix !! cur); discriminate.
Qed.

End FrontierInvariant.

Section Sequencers.

Variable cacheGet : list JSPoint -> bool -> option RawMatrix.
Variable httpGet : list Point -> bool -> outcome Response.

(** The frontier route is read off a duplicate-free list of positions of
    [allPoints] that starts at the hub. *)
Lemma findOptimalRoute_spec points startPoint route :
  findOptimalRoute cacheGet httpGet points startPoint = Ret route ->
  exists path,
    route = map (point_at (startPoint :: points)) path
    /\ head path = Some 0 /\ NoDup path
    /\ Forall (fun i => i < length (startPoint :: points)) path.
Proof.
  intros Hrun. apply rethrow_Ret in Hrun. cbv zeta in Hrun.
  ret_inv Hrun. ret_inv Hrun. injection Hrun as <-.
  exists a0. split; [reflexivity |].
  pose proof (frontier_while_spec a (length (startPoint :: points))
                (length (startPoint :: points))
                (array_set false
                   (replicate (length (startPoint :: points)) false) 0 true)
                (array_set VUndefined
                   (replicate (length (startPoint :: points)) (VNum Inf)) 0
                   (VNum (Fin 0)))
                [0] 0 0) as Hspec.
  rewrite Ha0 in Hspec. apply Hspec.
  - apply marks_start. simpl. lia.
  - apply NoDup_singleton.
  - done.
  - simpl. lia.
Qed.

(** Converting a fully served matrix yields a complete numeric matrix of the
    same size. *)
Lemma mapM_total {A B} (f : A -> outcome B) (P : B -> Prop) (l : list A) :
  Forall (fun a => exists b, f a = Ret b /\ P b) l ->
  exists l', mapM f l = Ret l' /\ length l' = length l /\ Forall P l'.
Proof.
  induction 1 as [| a rest (b & Hb & HP) _ (l' & Hl' & Hlen & Hall)]; simpl.
  - exists []. auto.
  - rewrite Hb. cbn [bind]. rewrite Hl'. cbn [bind].
    exists (b :: l'). simpl. auto.
Qed.

Lemma served_matrix_complete raw :
  every_leg_served (length raw) raw ->
  exists numeric,
    mapM (mapM cell_distance) raw = Ret numeric
    /\ length numeric = length raw /\ complete numeric.
Proof.
  intros [_ Hrows].
  destruct (mapM_total (mapM cell_distance)
              (fun row => length row = length raw
                          /\ Forall (fun x => exists z, x = Fin z) row) raw)
    as (numeric & Hrun & Hlen & Hall).
  { eapply Forall_impl; [exact Hrows |]. intros row [Hlen Hcells].
    destruct (mapM_total cell_distance (fun x => exists z, x = Fin z) row)
      as (row' & Hrow' & Hlen' & Hfin).
    - eapply Forall_impl; [exact Hcells |].
      intros cell (c & d & -> & Hd). simpl. rewrite Hd. eauto.
    - exists row'. repeat split; [done | congruence | done]. }
  exists numeric. repeat split; [done | done |].
  intros a b Ha Hb. rewrite Hlen in Ha, Hb. unfold entry.
  destruct (lookup_lt_is_Some_2 numeric a ltac:(lia)) as [row Hrow].
  rewrite Hrow.
  eapply Forall_forall in Hall as [Hrlen Hfin];
    [| by eapply list_elem_of_lookup_2].
  destruct (lookup_lt_is_Some_2 row b ltac:(lia)) as [x Hx].
  rewrite Hx. simpl.
  eapply Forall_forall in Hfin as [z ->]; [| by eapply list_elem_of_lookup_2].
  eauto.
Qed.

Lemma map_point_at_seq (allPoints : list JSPoint) :
  map (point_at allPoints) (seq 0 (length allPoints)) = allPoints.
Proof.
  apply list_eq. intros i. rewrite list_lookup_fmap.
  destruct (allPoints !! i) as [x |] eqn:E.
  - rewrite lookup_seq_lt by (by eapply lookup_lt_Some). simpl.
    unfold point_at. by rewrite E.
  - rewrite lookup_seq_ge by (by apply lookup_ge_None). done.
Qed.

Lemma complete_distance_matrix (m : Matrix) : complete m -> distance_matrix m.
Proof.
  intros Hc a b Ha Hb. destruct (Hc a b Ha Hb) as [z ->].
  eexists. split; [reflexivity | discriminate].
Qed.

Lemma twoOptImprovement_sound tour m maxIterations out :
  twoOptImprovement tour m maxIterations = Ret out ->
  out ≡ₚ tour /\ head out = head tour.
Proof.
  unfold twoOptImprovement. intros Hrun. ret_inv Hrun.
  destruct (two_opt_while_sound m maxIterations tour a out Hrun Ha)
    as (Hperm & Hhd & _). auto.
Qed.

(** The TSP route is read off a duplicate-free list of indices that starts
    at the hub; the indices are rows of the oracle's matrix. *)
Lemma findOptimalRouteTSP_spec points startPoint route :
  findOptimalRouteTSP cacheGet httpGet points startPoint = Ret route ->
  exists raw tour,
    getDistanceMatrix cacheGet httpGet (startPoint :: points) true = Ret raw
    /\ route = map (point_at (startPoint :: points)) tour
    /\ head tour = Some 0 /\ NoDup tour
    /\ (0 < length raw -> Forall (fun i => i < length raw) tour).
Proof.
  intros Hrun. apply rethrow_Ret in Hrun. cbv zeta in Hrun.
  ret_inv Hrun. ret_inv Hrun. ret_inv Hrun. ret_inv Hrun.
  injection Hrun as <-.
  apply twoOptImprovement_sound in Ha2 as [Hperm Hhd].
  assert (Hlen : length a0 = length a).
  { clear -Ha0. revert a0 Ha0. induction a as [| row rest IH]; simpl.
    - by intros a0 [= <-].
    - intros a0 H0. ret_inv H0. ret_inv H0. injection H0 as <-.
      simpl. f_equal. by apply IH. }
  exists a, a2. split; [done |]. split; [done |].
  destruct a0 as [| row0 rest0].
  - vm_compute in Ha1. injection Ha1 as <-.
    repeat split; [exact Hhd | | simpl in Hlen; lia].
    rewrite Hperm. apply NoDup_singleton.
  - destruct (nearestNeighbor_spec (row0 :: rest0) 0 ltac:(simpl; lia))
      as (tour & Htour & Hhd0 & Hnd & Hlt).
    rewrite Htour in Ha1. injection Ha1 as <-.
    repeat split; [congruence | by rewrite Hperm |].
    intros _. rewrite <- Hlen. by rewrite Hperm.
Qed.

(** When every leg is served, the TSP route is a permutation of the hub and
    the delivery points. *)
Lemma findOptimalRouteTSP_permutation points startPoint raw :
  getDistanceMatrix cacheGet httpGet (startPoint :: points) true = Ret raw ->
  every_leg_served (length (startPoint :: points)) raw ->
  exists route,
    findOptimalRouteTSP cacheGet httpGet points startPoint = Ret route
    /\ route ≡ₚ startPoint :: points.
Proof.
  intros Hraw Hserved. pose proof Hserved as [Hlen _].
  rewrite <- Hlen in Hserved.
  destruct (served_matrix_complete raw Hserved)
    as (numeric & Hnum & Hnlen & Hcomplete).
  destruct (nearestNeighbor_complete numeric 0 Hcomplete
              ltac:(rewrite Hnlen, Hlen; simpl; lia))
    as (tour & Htour & _ & Hperm).
  assert (Hvalid : valid_tour numeric tour).
  { unfold valid_tour. rewrite Hperm. apply Forall_forall.
    intros i Hi. apply elem_of_seq in Hi. lia. }
  destruct (calculateTourDistance_total numeric
              (complete_distance_matrix _ Hcomplete) tour Hvalid)
    as (d0 & Hd0 & _).
  destruct (two_opt_while_total numeric (complete_distance_matrix _ Hcomplete)
              defaultMaxIterations tour d0 Hvalid) as [out Hout].
  assert (Htwo : twoOptImprovement tour numeric defaultMaxIterations = Ret out).
  { unfold twoOptImprovement. rewrite Hd0. exact Hout. }
  destruct (twoOptImprovement_sound _ _ _ _ Htwo) as [Hperm' _].
  exists (map (point_at (startPoint :: points)) out). split.
  - unfold findOptimalRouteTSP. cbv zeta. rewrite Hraw. cbn [bind].
    rewrite Hnum. cbn [bind]. rewrite Htour. cbn [bind]. rewrite Htwo.
    reflexivity.
  - rewrite Hperm', Hperm, Hnlen, Hlen. by rewrite map_point_at_seq.
Qed.

End Sequencers.

(** ** The bounds of the model's loops are never reached *)

Lemma bind_fuel {A B} (c : outcome A) (k : A -> outcome B) :
  c <> OutOfFuel -> (forall a, c = Ret a -> k a <> OutOfFuel) ->
  bind c k <> OutOfFuel.
Proof. destruct c; simpl; intros Hc Hk; [by apply Hk | discriminate | done]. Qed.

Lemma rethrow_fuel {A} (msg : string) (c : outcome A) :
  c <> OutOfFuel -> rethrow msg c <> OutOfFuel.
Proof. destruct c; simpl; [discriminate | discriminate | done]. Qed.

Lemma entry_fuel (m : Matrix) (a b : nat) : entry m a b <> OutOfFuel.
Proof. unfold entry. destruct (m !! a); discriminate. Qed.

Lemma raw_entry_fuel (m : RawMatrix) (a b : nat) : raw_entry m a b <> OutOfFuel.
Proof. unfold raw_entry. destruct (m !! a); discriminate. Qed.

Lemma mapM_fuel {A B} (f : A -> outcome B) (l : list A) :
  (forall a, f a <> OutOfFuel) -> mapM f l <> OutOfFuel.
Proof.
  intros Hf. induction l as [| a rest IH]; simpl; [discriminate |].
  apply bind_fuel; [apply Hf |]. intros b _.
  apply bind_fuel; [exact IH |]. discriminate.
Qed.

Lemma nearest_scan_fuel m currentPoint visited idxs :
  forall nearestPoint minDistance,
    nearest_scan m currentPoint visited idxs nearestPoint minDistance
    <> OutOfFuel.
Proof.
  induction idxs as [| i rest IH]; intros np md; simpl; [discriminate |].
  destruct (negb (is_visited visited i)); [| apply IH].
  apply bind_fuel; [apply entry_fuel |]. intros d _.
  destruct (lt d md); apply IH.
Qed.

(** Each turn of the loop spends one unit of fuel and lengthens the tour by
    one, so [numPoints] units are enough from a tour of one index. *)
Lemma nearest_while_fuel fuel m numPoints :
  forall visited tour,
    numPoints <= fuel + length tour ->
    nearest_while fuel m numPoints visited tour <> OutOfFuel.
Proof.
  induction fuel as [| fuel IH]; intros visited tour Hfuel; simpl.
  - replace (length tour <? numPoints) with false
      by (symmetry; apply Nat.ltb_ge; lia). discriminate.
  - destruct (length tour <? numPoints); [| discriminate].
    destruct (last tour) as [cur |]; [| discriminate].
    apply bind_fuel; [apply nearest_scan_fuel |]. intros r _.
    destruct (fst r); [| discriminate].
    apply IH. rewrite length_app. simpl. lia.
Qed.

Lemma nearestNeighbor_fuel m startIndex :
  nearestNeighbor m startIndex <> OutOfFuel.
Proof. apply nearest_while_fuel. simpl. lia. Qed.

Lemma calculateTourDistance_fuel tour m :
  calculateTourDistance tour m <> OutOfFuel.
Proof.
  unfold calculateTourDistance. generalize (Fin 0).
  induction (seq 0 (length tour - 1)) as [| i rest IH]; intros total; simpl;
    [discriminate |].
  apply bind_fuel; [unfold tour_at; destruct (tour !! i); discriminate |].
  intros a _.
  apply bind_fuel;
    [unfold tour_at; destruct (tour !! (i + 1)); discriminate |].
  intros b _. apply bind_fuel; [apply entry_fuel |]. intros d _. apply IH.
Qed.

Lemma two_opt_inner_fuel bestTour bestDistance m i js :
  two_opt_inner bestTour bestDistance m i js <> OutOfFuel.
Proof.
  induction js as [| j rest IH]; simpl; [discriminate |].
  destruct (j =? i + 1); [exact IH |].
  apply bind_fuel; [apply calculateTourDistance_fuel |]. intros d _.
  destruct (lt d bestDistance); [discriminate | exact IH].
Qed.

Lemma two_opt_outer_fuel bestTour bestDistance m idxs :
  two_opt_outer bestTour bestDistance m idxs <> OutOfFuel.
Proof.
  induction idxs as [| i rest IH]; simpl; [discriminate |].
  apply bind_fuel; [apply two_opt_inner_fuel |]. intros r _.
  destruct r; [discriminate | exact IH].
Qed.

Lemma twoOptImprovement_fuel tour m maxIterations :
  twoOptImprovement tour m maxIterations <> OutOfFuel.
Proof.
  unfold twoOptImprovement.
  apply bind_fuel; [apply calculateTourDistance_fuel |]. intros d _.
  revert tour d. induction maxIterations as [| k IH]; intros tour d; simpl;
    [discriminate |].
  apply bind_fuel; [apply two_opt_outer_fuel |]. intros r _.
  destruct r as [[t' d'] |]; [apply IH | discriminate].
Qed.

Lemma relax_fuel m currentPoint visited idxs :
  forall distances, relax m currentPoint visited idxs distances <> OutOfFuel.
Proof.
  induction idxs as [| i rest IH]; intros distances; simpl; [discriminate |].
  destruct (negb (is_visited visited i)); [| apply IH].
  apply bind_fuel; [apply raw_entry_fuel |]. intros d _.
  destruct (less_than d (distance_at distances i)); apply IH.
Qed.

Lemma frontier_while_fuel fuel m numPoints :
  forall visited distances path currentPoint,
    numPoints <= fuel + length path ->
    frontier_while fuel m numPoints visited distances path currentPoint
    <> OutOfFuel.
Proof.
  induction fuel as [| fuel IH]; intros visited distances path cur Hfuel;
    simpl.
  - replace (length path <? numPoints) with false
      by (symmetry; apply Nat.ltb_ge; lia). discriminate.
  - destruct (length path <? numPoints); [| discriminate].
    apply bind_fuel; [apply relax_fuel |]. intros distances' _.
    destruct (snd (select_next visited distances' (seq 0 numPoints)
                     (VNum Inf) None)); [| discriminate].
    apply IH. rewrite length_app. simpl. lia.
Qed.

Lemma sum_legs_fuel m idxs :
  forall totalDistance totalTime,
    sum_legs m idxs totalDistance totalTime <> OutOfFuel.
Proof.
  induction idxs as [| i rest IH]; intros d t; simpl; [discriminate |].
  apply bind_fuel; [| intros dt _; apply IH].
  unfold leg. destruct (m !! i) as [row |]; [| discriminate].
  destruct (row !! (i + 1)) as [[cell |] |]; try discriminate.
  destruct (distance cell), (duration cell); discriminate.
Qed.

Section Answers.

Variable cacheGet : list JSPoint -> bool -> option RawMatrix.
Variable httpGet : list Point -> bool -> outcome Response.
Variable geocodeAddress : string -> outcome GeoResult.
Variable production : bool.

(** The two external calls return or throw. *)
Hypothesis httpGet_answers :
  forall points considerTraffic, httpGet points considerTraffic <> OutOfFuel.
Hypothesis geocodeAddress_answers :
  forall address, geocodeAddress address <> OutOfFuel.

Lemma getDistanceMatrix_fuel points considerTraffic :
  getDistanceMatrix cacheGet httpGet points considerTraffic <> OutOfFuel.
Proof.
  unfold getDistanceMatrix, getDistanceMatrixFrom. apply rethrow_fuel.
  destruct (cacheGet points considerTraffic); [discriminate |].
  apply bind_fuel.
  - apply bind_fuel; [| intros ps _; apply httpGet_answers].
    induction points as [| [p |] rest IH]; simpl; try discriminate.
    apply bind_fuel; [exact IH | discriminate].
  - intros response _.
    destruct (negb (r_status response =? "OK")%string); discriminate.
Qed.

Lemma findOptimalRoute_fuel points startPoint :
  findOptimalRoute cacheGet httpGet points startPoint <> OutOfFuel.
Proof.
  unfold findOptimalRoute. apply rethrow_fuel. cbv zeta.
  apply bind_fuel; [apply getDistanceMatrix_fuel |]. intros m _.
  apply bind_fuel; [| discriminate].
  apply frontier_while_fuel. simpl. lia.
Qed.

Lemma findOptimalRouteTSP_fuel points startPoint :
  findOptimalRouteTSP cacheGet httpGet points startPoint <> OutOfFuel.
Proof.
  unfold findOptimalRouteTSP. apply rethrow_fuel. cbv zeta.
  apply bind_fuel; [apply getDistanceMatrix_fuel |]. intros raw _.
  apply bind_fuel.
  { apply mapM_fuel. intros row. apply mapM_fuel.
    intros [c |]; discriminate. }
  intros m _. apply bind_fuel; [apply nearestNeighbor_fuel |]. intros t _.
  apply bind_fuel; [apply twoOptImprovement_fuel | discriminate].
Qed.

Lemma calculateRouteMetrics_fuel route :
  calculateRouteMetrics cacheGet httpGet route <> OutOfFuel.
Proof.
  unfold calculateRouteMetrics. apply rethrow_fuel.
  apply bind_fuel; [apply getDistanceMatrix_fuel |]. intros m _.
  apply bind_fuel; [apply sum_legs_fuel | discriminate].
Qed.

Lemma calculateTSPRouteMetrics_fuel route :
  calculateTSPRouteMetrics cacheGet httpGet route <> OutOfFuel.
Proof.
  unfold calculateTSPRouteMetrics. apply rethrow_fuel.
  apply bind_fuel; [apply getDistanceMatrix_fuel |]. intros m _.
  apply bind_fuel; [apply sum_legs_fuel | discriminate].
Qed.

Lemma processPoint_fuel point : processPoint geocodeAddress point <> OutOfFuel.
Proof.
  unfold processPoint. destruct (_ && _); [| discriminate].
  apply bind_fuel; [apply geocodeAddress_answers | discriminate].
Qed.

Lemma respond500_answers {D} (msg : string) (c : outcome (HttpResponse D)) :
  c <> OutOfFuel -> exists response, respond500 production msg c = Ret response.
Proof. destruct c; simpl; [eauto | eauto | done]. Qed.

(** Every request to [optimizeRoute] is answered: 200, 400 or 500. *)
Lemma optimizeRoute_answers body :
  exists response,
    optimizeRoute cacheGet httpGet geocodeAddress production body
    = Ret response.
Proof.
  apply respond500_answers.
  destruct (deliveryPoints body) as [| | [| p ps]]; try discriminate.
  destruct (startPoint body) as [start |]; [| discriminate].
  destruct (_ || _); [discriminate |]. cbv zeta.
  apply bind_fuel; [apply mapM_fuel, processPoint_fuel |]. intros processed _.
  destruct (_ =? _)%string.
  - apply bind_fuel; [apply findOptimalRouteTSP_fuel |]. intros r _.
    apply bind_fuel; [apply calculateTSPRouteMetrics_fuel | discriminate].
  - apply bind_fuel; [apply findOptimalRoute_fuel |]. intros r _.
    apply bind_fuel; [apply calculateRouteMetrics_fuel | discriminate].
Qed.

(** Every request to [reoptimizeCurrentRoute] is answered. *)
Lemma reoptimizeCurrentRoute_answers body :
  exists response,
    reoptimizeCurrentRoute cacheGet httpGet production body = Ret response.
Proof.
  apply respond500_answers.
  destruct (currentRoute body) as [| | [| p ps]]; try discriminate.
  destruct (currentPosition body) as [position |]; [| discriminate].
  destruct (_ || _); [discriminate |].
  destruct (currentPointIndex body) as [index |]; [| discriminate].
  destruct (_ || _); [discriminate |]. cbv zeta.
  destruct (_ =? _)%string.
  - apply bind_fuel; [apply findOptimalRouteTSP_fuel |]. intros r _.
    apply bind_fuel; [apply calculateTSPRouteMetrics_fuel | discriminate].
  - apply bind_fuel.
    + unfold reoptimizeRoute. apply rethrow_fuel. cbv zeta.
      apply bind_fuel; [apply findOptimalRoute_fuel | discriminate].
    + intros r _.
      apply bind_fuel; [apply calculateRouteMetrics_fuel | discriminate].
Qed.

(** Every request to [compareAlgorithms] is answered. *)
Lemma compareAlgorithms_answers clock body :
  exists response,
    compareAlgorithms cacheGet httpGet geocodeAddress production clock body
    = Ret response.
Proof.
  apply respond500_answers.
  destruct (cmp_deliveryPoints body) as [| | [| p ps]]; try discriminate.
  destruct (cmp_startPoint body) as [start |]; [| discriminate].
  destruct (_ || _); [discriminate |].
  apply bind_fuel; [apply mapM_fuel, processPoint_fuel |]. intros processed _.
  apply bind_fuel; [apply findOptimalRoute_fuel |]. intros r1 _. cbv zeta.
  apply bind_fuel; [apply calculateRouteMetrics_fuel |]. intros m1 _.
  apply bind_fuel; [apply findOptimalRouteTSP_fuel |]. intros r2 _.
  apply bind_fuel; [apply calculateTSPRouteMetrics_fuel | discriminate].
Qed.

End Answers.

(** ** Claims on the controller's routes *)

Lemma route_head (allPoints : list JSPoint) (path : list nat) :
  head path = Some 0 ->
  head (map (point_at allPoints) path) = Some (point_at allPoints 0).
Proof. destruct path as [| i rest]; [discriminate |]. by intros [= ->]. Qed.

Lemma spliced_prefix {A} (currentRoute rest : list A) (index : nat) (x : A) :
  index < length currentRoute -> head rest = Some x ->
  (forall k, k < index ->
     (take index currentRoute ++ rest) !! k = currentRoute !! k)
  /\ (take index currentRoute ++ rest) !! index = Some x.
Proof.
  intros Hlt Hhd.
  assert (Hlen : length (take index currentRoute) = index)
    by (apply length_take_le; lia).
  split.
  - intros k Hk. rewrite lookup_app_l by lia. by apply lookup_take_lt.
  - rewrite lookup_app_r by lia. rewrite Hlen, Nat.sub_diag.
    by rewrite <- head_lookup.
Qed.

(** C1, as stated, fails: with the third point cut off from the others the
    TSP family answers 200 with the tour [H; A], which is not a permutation
    of the three input points, and the response has no field to flag it. *)
Lemma partial_tour_returned_unflagged :
  match optimizeRoute Scenario.emptyCache Upstream.gapProvider
          Scenario.noGeocoder false
          {| deliveryPoints := IsArray [Scenario.A; Scenario.B];
             startPoint := Some Scenario.H;
             algorithm := Some "tsp"%string |} with
  | Ret (Status200 data) =>
      optimizedRoute data = [Some Scenario.H; Some Scenario.A]
      /\ ~ (optimizedRoute data
            ≡ₚ [Some Scenario.H; Some Scenario.A; Some Scenario.B])
  | _ => False
  end.
Proof.
  vm_compute. split; [reflexivity |].
  intros Hperm. apply Permutation_length in Hperm. discriminate.
Qed.

(** C1, amended: a tour returned by [optimizeRoute] is read off the hub
    followed by the processed delivery points at a duplicate-free list of
    positions that starts with the hub; with the frontier heuristic every
    position is one of the input list; with the TSP family the tour is a
    permutation of the whole input point set whenever the oracle's matrix
    has a distance for every leg. *)
Theorem optimize_tour_shape
    (cacheGet : list JSPoint -> bool -> option RawMatrix)
    (httpGet : list Point -> bool -> outcome Response)
    (geocodeAddress : string -> outcome GeoResult) (production : bool)
    (body : OptimizeBody) (data : OptimizeData) :
  optimizeRoute cacheGet httpGet geocodeAddress production body
    = Ret (Status200 data) ->
  exists start points processedPoints tour,
    startPoint body = Some start
    /\ deliveryPoints body = IsArray points
    /\ mapM (processPoint geocodeAddress) points = Ret processedPoints
    /\ let allPoints := Some start :: map Some processedPoints in
       optimizedRoute data = map (point_at allPoints) tour
       /\ head tour = Some 0
       /\ NoDup tour
       /\ (usedAlgorithm data <> "tsp"%string ->
           Forall (fun i => i < length allPoints) tour)
       /\ (forall raw,
             usedAlgorithm data = "tsp"%string ->
             getDistanceMatrix cacheGet httpGet allPoints true = Ret raw ->
             every_leg_served (length allPoints) raw ->
             optimizedRoute data ≡ₚ allPoints).
Proof.
  intros Hrun. apply respond500_200 in Hrun.
  destruct (deliveryPoints body) as [| | points] eqn:Hpoints;
    try discriminate.
  destruct points as [| p ps]; try discriminate.
  destruct (startPoint body) as [start |] eqn:Hstart; try discriminate.
  destruct (negb (truthy_number (lat start))
            || negb (truthy_number (lng start))); try discriminate.
  cbv zeta in Hrun. ret_inv Hrun. rename a into processedPoints.
  exists start, (p :: ps), processedPoints.
  destruct (String.eqb_spec
              (toLowerCase (default "dijkstra"%string (algorithm body)))
              "tsp") as [Htsp | Hother].
  - ret_inv Hrun. ret_inv Hrun. injection Hrun as <-.
    cbn [optimizedRoute usedAlgorithm].
    destruct (findOptimalRouteTSP_spec _ _ _ _ _ Ha0)
      as (raw & tour & Hraw & -> & Hhd & Hnd & _).
    exists tour. do 3 (split; [done |]). cbv zeta.
    do 3 (split; [done |]). split.
    + intros Hne. congruence.
    + intros raw' _ Hraw' Hserved.
      destruct (findOptimalRouteTSP_permutation _ _ _ _ _ Hraw' Hserved)
        as (route & Hroute & Hperm).
      rewrite Ha0 in Hroute. injection Hroute as <-. exact Hperm.
  - ret_inv Hrun. ret_inv Hrun. injection Hrun as <-.
    cbn [optimizedRoute usedAlgorithm].
    destruct (findOptimalRoute_spec _ _ _ _ _ Ha0)
      as (path & -> & Hhd & Hnd & Hlt).
    exists path. do 3 (split; [done |]). cbv zeta.
    do 3 (split; [done |]). split; [done |].
    intros raw Htsp. congruence.
Qed.

Lemma optimize_tour_shape_witness :
  exists data,
    optimizeRoute Scenario.emptyCache Scenario.provider Scenario.noGeocoder
      false
      {| deliveryPoints := IsArray [Scenario.A; Scenario.B; Scenario.C];
         startPoint := Some Scenario.H;
         algorithm := Some "TSP"%string |}
    = Ret (Status200 data)
    /\ optimizedRoute data
       = map Some [Scenario.H; Scenario.A; Scenario.B; Scenario.C]
    /\ exists tour,
         optimizedRoute data
         = map (point_at
                  (map Some [Scenario.H; Scenario.A; Scenario.B; Scenario.C]))
             tour
         /\ head tour = Some 0 /\ NoDup tour.
Proof.
  destruct (optimizeRoute Scenario.emptyCache Scenario.provider
              Scenario.noGeocoder false
              {| deliveryPoints := IsArray [Scenario.A; Scenario.B; Scenario.C];
                 startPoint := Some Scenario.H;
                 algorithm := Some "TSP"%string |})
    as [[msg | data | msg err] | |] eqn:Hrun;
    [vm_compute in Hrun; discriminate | |
     vm_compute in Hrun; discriminate ..].
  exists data. split; [reflexivity |]. split.
  - vm_compute in Hrun. injection Hrun as <-. reflexivity.
  - destruct (optimize_tour_shape _ _ _ _ _ data Hrun)
      as (start & points & processed & tour & Hs & Hp & Hm & Hshape).
    cbn in Hs, Hp. injection Hs as <-. injection Hp as <-.
    vm_compute in Hm. injection Hm as <-.
    destruct Hshape as (Hroute & Hhd & Hnd & _).
    exists tour. auto.
Defined.

(** C4, as stated, fails for the TSP choice: the stop at [currentPointIndex]
    is replaced by the supplied current position. *)
Lemma reoptimize_tsp_replaces_current_stop :
  match reoptimizeCurrentRoute Scenario.emptyCache Scenario.provider false
          {| currentRoute :=
               IsArray [Scenario.H; Scenario.A; Scenario.B; Scenario.C];
             currentPosition := Some Upstream.position;
             currentPointIndex := Some 1%Z;
             re_algorithm := Some "tsp"%string |} with
  | Ret (Status200 data) =>
      reoptimizedRoute data !! 1 = Some (Some Upstream.position)
      /\ reoptimizedRoute data !! 1
         <> map Some [Scenario.H; Scenario.A; Scenario.B; Scenario.C] !! 1
  | _ => False
  end.
Proof. vm_compute. split; [reflexivity | discriminate]. Qed.

(** C4, amended: in the route returned by [reoptimizeCurrentRoute] the
    positions before [currentPointIndex] agree with the supplied route for
    both algorithm choices; position [currentPointIndex] itself holds the
    supplied route's stop for the frontier choice and the supplied current
    position for the TSP choice. *)
Theorem reoptimize_keeps_travelled_prefix
    (cacheGet : list JSPoint -> bool -> option RawMatrix)
    (httpGet : list Point -> bool -> outcome Response) (production : bool)
    (body : ReoptimizeBody) (data : ReoptimizeData) :
  reoptimizeCurrentRoute cacheGet httpGet production body
    = Ret (Status200 data) ->
  exists route index position,
    currentRoute body = IsArray route
    /\ currentPointIndex body = Some (Z.of_nat index)
    /\ currentPosition body = Some position
    /\ index < length route
    /\ (forall k, k < index ->
          reoptimizedRoute data !! k = map Some route !! k)
    /\ (re_usedAlgorithm data <> "tsp"%string ->
          reoptimizedRoute data !! index = map Some route !! index)
    /\ (re_usedAlgorithm data = "tsp"%string ->
          reoptimizedRoute data !! index = Some (Some position)).
Proof.
  intros Hrun. apply respond500_200 in Hrun.
  destruct (currentRoute body) as [| | route] eqn:Hroute; try discriminate.
  destruct route as [| p ps]; try discriminate.
  destruct (currentPosition body) as [position |] eqn:Hpos;
    try discriminate.
  destruct (negb (truthy_number (lat position))
            || negb (truthy_number (lng position))); try discriminate.
  destruct (currentPointIndex body) as [index |] eqn:Hindex;
    try discriminate.
  destruct ((index <? 0)%Z || (Z.of_nat (length (p :: ps)) <=? index)%Z)
    eqn:Hguard; try discriminate.
  apply orb_false_elim in Hguard as [Hlow Hhigh].
  apply Z.ltb_ge in Hlow. apply Z.leb_gt in Hhigh.
  cbv zeta in Hrun.
  exists (p :: ps), (Z.to_nat index), position.
  assert (Hin : Z.to_nat index < length (map Some (p :: ps)))
    by (rewrite length_map; lia).
  split; [done |]. split; [by rewrite Z2Nat.id |]. split; [done |].
  split; [by rewrite length_map in Hin |].
  destruct (String.eqb_spec
              (toLowerCase (default "dijkstra"%string (re_algorithm body)))
              "tsp") as [Htsp | Hother].
  - ret_inv Hrun. ret_inv Hrun. injection Hrun as <-.
    cbn [reoptimizedRoute re_usedAlgorithm].
    destruct (findOptimalRouteTSP_spec _ _ _ _ _ Ha)
      as (raw & tour & _ & -> & Hhd & _).
    destruct (spliced_prefix (map Some (p :: ps))
                (map (point_at (Some position
                                :: drop 1 (drop (Z.to_nat index)
                                             (map Some (p :: ps))))) tour)
                (Z.to_nat index) (Some position) Hin
                (route_head _ _ Hhd)) as [Hbefore Hat].
    split; [exact Hbefore |]. split; [congruence | by intros _].
  - ret_inv Hrun. ret_inv Hrun. injection Hrun as <-.
    cbn [reoptimizedRoute re_usedAlgorithm].
    apply rethrow_Ret in Ha. ret_inv Ha. injection Ha as <-.
    destruct (findOptimalRoute_spec _ _ _ _ _ Ha1)
      as (path & -> & Hhd & _).
    destruct (lookup_lt_is_Some_2 _ _ Hin) as [stop Hstop].
    assert (Hstart : point_at (drop (Z.to_nat index) (map Some (p :: ps))) 0
                     = stop).
    { unfold point_at. rewrite lookup_drop, Nat.add_0_r, Hstop.
      apply list_lookup_fmap_Some_1 in Hstop as (q & -> & _). reflexivity. }
    pose proof (route_head
                  (point_at (drop (Z.to_nat index) (map Some (p :: ps))) 0
                   :: drop 1 (drop (Z.to_nat index) (map Some (p :: ps))))
                  path Hhd) as Hroute0.
    change (point_at (?x :: ?l) 0) with x in Hroute0.
    destruct (spliced_prefix (map Some (p :: ps)) _ (Z.to_nat index) _ Hin
                Hroute0) as [Hbefore Hat].
    split; [exact Hbefore |]. split; [| congruence].
    intros _. transitivity (Some stop);
      [rewrite <- Hstart; exact Hat | symmetry; exact Hstop].
Qed.

Lemma reoptimize_keeps_travelled_prefix_witness :
  exists data,
    reoptimizeCurrentRoute Scenario.emptyCache Scenario.provider false
      {| currentRoute :=
           IsArray [Scenario.H; Scenario.C; Scenario.B; Scenario.A];
         currentPosition := Some Upstream.position;
         currentPointIndex := Some 1%Z;
         re_algorithm := None |}
    = Ret (Status200 data)
    /\ reoptimizedRoute data !! 0 = Some (Some Scenario.H)
    /\ reoptimizedRoute data !! 1 = Some (Some Scenario.C).
Proof.
  destruct (reoptimizeCurrentRoute Scenario.emptyCache Scenario.provider
              false
              {| currentRoute :=
                   IsArray [Scenario.H; Scenario.C; Scenario.B; Scenario.A];
                 currentPosition := Some Upstream.position;
                 currentPointIndex := Some 1%Z;
                 re_algorithm := None |})
    as [[msg | data | msg err] | |] eqn:Hrun;
    [vm_compute in Hrun; discriminate | |
     vm_compute in Hrun; discriminate ..].
  exists data. split; [reflexivity |].
  destruct (reoptimize_keeps_travelled_prefix _ _ _ _ data Hrun)
    as (route & index & position & Hr & Hi & _ & _ & Hbefore & Hat & _).
  cbn in Hr, Hi. injection Hr as <-.
  assert (index = 1) as -> by (injection Hi; lia).
  split.
  - rewrite (Hbefore 0) by lia. reflexivity.
  - rewrite Hat; [reflexivity |].
    vm_compute in Hrun. injection Hrun as <-. discriminate.
Defined.

(** * Further properties of the code *)

(** ** Nearest neighbour is greedy *)

Lemma num_lt_irrefl (a : num) : lt a a = false.
Proof. destruct a; simpl; [apply Z.ltb_irrefl | reflexivity | reflexivity]. Qed.

Lemma num_lt_asym (a b : num) : lt a b = true -> lt b a = false.
Proof.
  destruct a, b; simpl; try discriminate; try reflexivity.
  rewrite Z.ltb_lt, Z.ltb_ge. lia.
Qed.

Lemma num_lt_not_NaN (a b : num) : lt a b = true -> a <> NaN.
Proof. destruct a; [discriminate | discriminate | simpl; discriminate]. Qed.

(** Not below the larger of two, not below the smaller. *)
Lemma num_lt_false_below (x lo hi : num) :
  lt x hi = false -> lt lo hi = true -> lt x lo = false /\ x <> lo.
Proof.
  intros Hx Hlo. split.
  - destruct (lt x lo) eqn:E; [| reflexivity].
    rewrite (num_lt_trans _ _ _ E Hlo) in Hx. discriminate.
  - intros ->. congruence.
Qed.

Section Greedy.

Variable distanceMatrix : Matrix.

(** One scan over the indices from [s] on either keeps its candidate, and
    then no unvisited index scanned is below the running minimum, or ends
    on the first unvisited index of least distance. *)
Lemma nearest_scan_seq currentPoint row visited :
  distanceMatrix !! currentPoint = Some row ->
  forall len s nearestPoint minDistance,
    exists nearestPoint' minDistance',
      nearest_scan distanceMatrix currentPoint visited (seq s len)
        nearestPoint minDistance = Ret (nearestPoint', minDistance')
      /\ ((nearestPoint' = nearestPoint /\ minDistance' = minDistance
           /\ forall i, s <= i < s + len -> is_visited visited i = false ->
                lt (default NaN (row !! i)) minDistance = false)
          \/ exists b,
               nearestPoint' = Some b /\ s <= b < s + len
               /\ is_visited visited b = false
               /\ minDistance' = default NaN (row !! b)
               /\ lt minDistance' minDistance = true
               /\ forall i, s <= i < s + len ->
                    is_visited visited i = false ->
                    lt (default NaN (row !! i)) minDistance' = false
                    /\ (i < b -> default NaN (row !! i) <> minDistance')).
Proof.
  intros Hrow. induction len as [| len IH]; intros s np md.
  - simpl. exists np, md. split; [done |]. left.
    split; [done |]. split; [done |]. intros; lia.
  - cbn [seq nearest_scan].
    destruct (is_visited visited s) eqn:Hv; cbn [negb].
    + destruct (IH (S s) np md) as (np' & md' & -> & Hcase).
      exists np', md'. split; [done |].
      destruct Hcase
        as [(-> & -> & Hall) | (b & -> & Hb & Hvb & -> & Hlt & Hall)].
      * left. split; [done |]. split; [done |]. intros i Hi Hvi.
        destruct (decide (i = s)) as [-> | Hne]; [congruence |].
        apply Hall; [lia | done].
      * right. exists b. split; [done |]. split; [lia |].
        split; [done |]. split; [done |]. split; [done |].
        intros i Hi Hvi.
        destruct (decide (i = s)) as [-> | Hne]; [congruence |].
        apply Hall; [lia | done].
    + unfold entry. rewrite Hrow. cbn [bind].
      set (ds := default NaN (row !! s)).
      destruct (lt ds md) eqn:Hlt.
      * destruct (IH (S s) (Some s) ds) as (np' & md' & -> & Hcase).
        exists np', md'. split; [done |]. right.
        destruct Hcase
          as [(-> & -> & Hall) | (b & -> & Hb & Hvb & -> & Hlt' & Hall)].
        -- exists s. split; [done |]. split; [lia |].
           split; [done |]. split; [done |]. split; [done |].
           intros i Hi Hvi. destruct (decide (i = s)) as [-> | Hne].
           ++ split; [apply num_lt_irrefl | intros; lia].
           ++ split; [apply Hall; [lia | done] | intros; lia].
        -- exists b. split; [done |]. split; [lia |].
           split; [done |]. split; [done |].
           split; [by eapply num_lt_trans |].
           intros i Hi Hvi. destruct (decide (i = s)) as [-> | Hne].
           ++ split; [by apply num_lt_asym |].
              intros _ Heq. fold ds in Heq. rewrite Heq in Hlt'.
              by rewrite num_lt_irrefl in Hlt'.
           ++ apply Hall; [lia | done].
      * destruct (IH (S s) np md) as (np' & md' & -> & Hcase).
        exists np', md'. split; [done |].
        destruct Hcase
          as [(-> & -> & Hall) | (b & -> & Hb & Hvb & -> & Hlt' & Hall)].
        -- left. split; [done |]. split; [done |]. intros i Hi Hvi.
           destruct (decide (i = s)) as [-> | Hne];
             [done | apply Hall; [lia | done]].
        -- right. exists b. split; [done |]. split; [lia |].
           split; [done |]. split; [done |]. split; [done |].
           intros i Hi Hvi. destruct (decide (i = s)) as [-> | Hne].
           ++ destruct (num_lt_false_below _ _ _ Hlt Hlt') as [H1 H2].
              split; [exact H1 | intros _; exact H2].
           ++ apply Hall; [lia | done].
Qed.

Lemma greedy_tour_snoc tour a p :
  greedy_tour distanceMatrix tour -> last tour = Some a ->
  nearest_unvisited distanceMatrix tour a p ->
  greedy_tour distanceMatrix (tour ++ [p]).
Proof.
  intros Hg Hlast Hstep k x y Hx Hy.
  apply last_Some in Hlast as [front ->].
  destruct (decide (S k < length (front ++ [a]))) as [Hlt | Hge].
  - rewrite lookup_app_l in Hx by lia. rewrite lookup_app_l in Hy by lia.
    rewrite take_app_le by lia. by apply Hg.
  - assert (Hk : S k = length (front ++ [a])).
    { apply lookup_lt_Some in Hy. rewrite length_app in Hy. simpl in Hy. lia. }
    rewrite Hk in Hy |- *. rewrite take_app_length.
    rewrite list_lookup_middle in Hy by done. injection Hy as <-.
    rewrite lookup_app_l in Hx by lia.
    rewrite length_app in Hk. simpl in Hk.
    assert (k = length front) as -> by lia.
    rewrite list_lookup_middle in Hx by done. injection Hx as <-.
    exact Hstep.
Qed.

Lemma nearest_while_greedy fuel :
  forall visited tour,
    marks (length distanceMatrix) visited tour -> NoDup tour -> tour <> [] ->
    greedy_tour distanceMatrix tour ->
    forall out,
      nearest_while fuel distanceMatrix (length distanceMatrix) visited tour
        = Ret out ->
      greedy_tour distanceMatrix out
      /\ (length out < length distanceMatrix -> stuck distanceMatrix out).
Proof.
  induction fuel as [| fuel IH]; intros visited tour Hm Hnd Hne Hg out.
  - simpl. destruct (length tour <? length distanceMatrix) eqn:Hguard;
      [discriminate |].
    intros [= <-]. apply Nat.ltb_ge in Hguard. split; [done | lia].
  - simpl. destruct (length tour <? length distanceMatrix) eqn:Hguard.
    2:{ intros [= <-]. apply Nat.ltb_ge in Hguard. split; [done | lia]. }
    destruct (last tour) as [cur |] eqn:Hlast.
    2:{ apply last_None in Hlast. congruence. }
    assert (Hcur : cur < length distanceMatrix).
    { eapply marks_lt; eauto. by apply last_Some_elem_of. }
    destruct (lookup_lt_is_Some_2 distanceMatrix cur Hcur) as [row Hrow].
    destruct (nearest_scan_seq cur row visited Hrow (length distanceMatrix)
                0 None Inf) as (np & md & -> & Hcase).
    cbn [bind fst].
    assert (Hcell : forall i di, entry distanceMatrix cur i = Ret di ->
                      di = default NaN (row !! i)).
    { intros i di. unfold entry. rewrite Hrow. by intros [= <-]. }
    assert (Hunvisited : forall i, i ∉ tour -> is_visited visited i = false).
    { intros i Hi. destruct (is_visited visited i) eqn:E; [| done].
      exfalso. apply Hi. by apply Hm. }
    destruct Hcase as [(-> & -> & Hall) | (b & -> & Hb & Hvb & -> & Hlt & Hall)].
    + intros [= <-]. split; [done |]. intros _. exists cur. split; [done |].
      intros i Hi Hnotin. exists (default NaN (row !! i)). split.
      * unfold entry. by rewrite Hrow.
      * apply Hall; [lia | by apply Hunvisited].
    + assert (Hfresh : b ∉ tour).
      { intros Hin. apply Hm in Hin. congruence. }
      apply IH.
      * apply marks_push; [done | lia].
      * apply NoDup_app. repeat split; auto.
        -- intros x Hx Hx'. apply list_elem_of_singleton in Hx'. by subst.
        -- apply NoDup_singleton.
      * by destruct tour.
      * apply (greedy_tour_snoc tour cur b Hg Hlast).
        split; [done |]. split; [lia |].
        exists (default NaN (row !! b)). split.
        { unfold entry. by rewrite Hrow. }
        split; [done |]. intros i di Hi Hnotin Hdi.
        rewrite (Hcell i di Hdi).
        apply Hall; [lia | by apply Hunvisited].
Qed.

End Greedy.

(** X1: from an in-range start, every stop [nearestNeighbor] appends is the
    unvisited index at the least distance from the stop before it, at a
    distance below [Infinity], and the first such index on ties. *)
Theorem nearestNeighbor_greedy (distanceMatrix : Matrix) (startIndex : nat) :
  startIndex < length distanceMatrix ->
  exists tour,
    nearestNeighbor distanceMatrix startIndex = Ret tour
    /\ greedy_tour distanceMatrix tour.
Proof.
  intros Hs.
  destruct (nearestNeighbor_spec distanceMatrix startIndex Hs)
    as (tour & Hrun & _).
  exists tour. split; [done |].
  unfold nearestNeighbor in Hrun.
  eapply nearest_while_greedy; [| | | | exact Hrun].
  - by apply marks_start.
  - apply NoDup_singleton.
  - done.
  - intros k a b Ha Hb. destruct k; discriminate.
Qed.

Lemma nearestNeighbor_greedy_witness :
  0 < length scenarioMatrix
  /\ exists tour,
       nearestNeighbor scenarioMatrix 0 = Ret tour
       /\ greedy_tour scenarioMatrix tour.
Proof.
  split; [simpl; lia |].
  apply (nearestNeighbor_greedy scenarioMatrix 0). simpl. lia.
Defined.

(** X2: [nearestNeighbor] returns a tour shorter than the matrix only when,
    from its last stop, no index outside the tour is at a distance below
    [Infinity]. *)
Theorem nearestNeighbor_stops_only_when_stuck (distanceMatrix : Matrix)
    (startIndex : nat) (tour : list nat) :
  startIndex < length distanceMatrix ->
  nearestNeighbor distanceMatrix startIndex = Ret tour ->
  length tour < length distanceMatrix ->
  stuck distanceMatrix tour.
Proof.
  intros Hs Hrun Hshort. unfold nearestNeighbor in Hrun.
  eapply nearest_while_greedy; [| | | | exact Hrun | exact Hshort].
  - by apply marks_start.
  - apply NoDup_singleton.
  - done.
  - intros k a b Ha Hb. destruct k; discriminate.
Qed.

Lemma nearestNeighbor_stops_only_when_stuck_witness :
  0 < length islandMatrix
  /\ nearestNeighbor islandMatrix 0 = Ret [0; 1]
  /\ length [0; 1] < length islandMatrix
  /\ stuck islandMatrix [0; 1].
Proof.
  assert (Hs : 0 < length islandMatrix) by (simpl; lia).
  assert (Hrun : nearestNeighbor islandMatrix 0 = Ret [0; 1])
    by (vm_compute; reflexivity).
  assert (Hshort : length [0; 1] < length islandMatrix) by (simpl; lia).
  split; [exact Hs |]. split; [exact Hrun |]. split; [exact Hshort |].
  exact (nearestNeighbor_stops_only_when_stuck islandMatrix 0 [0; 1]
           Hs Hrun Hshort).
Defined.

(** X3: over a matrix whose entries are all finite, [nearestNeighbor] from an
    in-range start visits every index exactly once. *)
Theorem nearestNeighbor_visits_all (distanceMatrix : Matrix)
    (startIndex : nat) :
  complete distanceMatrix -> startIndex < length distanceMatrix ->
  exists tour,
    nearestNeighbor distanceMatrix startIndex = Ret tour
    /\ head tour = Some startIndex
    /\ tour ≡ₚ seq 0 (length distanceMatrix).
Proof. apply nearestNeighbor_complete. Qed.

Lemma scenario_complete : complete scenarioMatrix.
Proof.
  intros a b Ha Hb. simpl in Ha, Hb.
  do 4 (destruct a as [| a]; [do 4 (destruct b as [| b];
    [vm_compute; eexists; reflexivity |]); lia |]).
  lia.
Qed.

Lemma nearestNeighbor_visits_all_witness :
  complete scenarioMatrix /\ 2 < length scenarioMatrix
  /\ exists tour,
       nearestNeighbor scenarioMatrix 2 = Ret tour
       /\ head tour = Some 2
       /\ tour ≡ₚ seq 0 (length scenarioMatrix).
Proof.
  assert (Hs : 2 < length scenarioMatrix) by (simpl; lia).
  split; [exact scenario_complete |]. split; [exact Hs |].
  exact (nearestNeighbor_visits_all scenarioMatrix 2 scenario_complete Hs).
Defined.

(** ** 2-opt keeps the stops and ends on a local optimum *)

(** X4: whenever [twoOptImprovement] returns, its output is a permutation of
    the input tour, of the same length, and starts with the same stop: the
    start of a tour is never moved. *)
Theorem twoOptImprovement_permutes (tour : list nat) (distanceMatrix : Matrix)
    (maxIterations : nat) (out : list nat) :
  twoOptImprovement tour distanceMatrix maxIterations = Ret out ->
  out ≡ₚ tour /\ length out = length tour /\ head out = head tour.
Proof.
  intros Hrun. destruct (twoOptImprovement_sound _ _ _ _ Hrun) as [Hperm Hhd].
  split; [done |]. split; [by rewrite Hperm | done].
Qed.

Lemma twoOptImprovement_permutes_witness :
  twoOptImprovement [0; 3; 1; 2] scenarioMatrix 100 = Ret [0; 1; 2; 3]
  /\ [0; 1; 2; 3] ≡ₚ [0; 3; 1; 2]
  /\ length [0; 1; 2; 3] = length [0; 3; 1; 2]
  /\ head [0; 1; 2; 3] = head [0; 3; 1; 2].
Proof.
  assert (Hrun : twoOptImprovement [0; 3; 1; 2] scenarioMatrix 100
                 = Ret [0; 1; 2; 3]) by (vm_compute; reflexivity).
  split; [exact Hrun |].
  exact (twoOptImprovement_permutes [0; 3; 1; 2] scenarioMatrix 100
           [0; 1; 2; 3] Hrun).
Defined.

Section TwoOptOptimum.

Variable distanceMatrix : Matrix.

(** A pass that finds nothing has measured every reversal and found none
    shorter. *)
Lemma two_opt_inner_None bestTour bestDistance i js :
  two_opt_inner bestTour bestDistance distanceMatrix i js = Ret None ->
  forall j, j ∈ js -> j <> i + 1 ->
    exists d,
      calculateTourDistance (reverse_while bestTour (i + 1) j) distanceMatrix
        = Ret d
      /\ lt d bestDistance = false.
Proof.
  induction js as [| j0 rest IH]; simpl; intros Hrun j Hj Hne.
  - by apply elem_of_nil in Hj.
  - destruct (j0 =? i + 1) eqn:Hskip.
    + apply Nat.eqb_eq in Hskip.
      apply elem_of_cons in Hj as [-> | Hj]; [lia | by apply IH].
    + destruct (calculateTourDistance (reverse_while bestTour (i + 1) j0)
                  distanceMatrix) as [d | |] eqn:Hd; cbn [bind] in Hrun;
        try discriminate.
      destruct (lt d bestDistance) eqn:Hlt; [discriminate |].
      apply elem_of_cons in Hj as [-> | Hj]; [eauto | by apply IH].
Qed.

Lemma two_opt_outer_None bestTour bestDistance idxs :
  two_opt_outer bestTour bestDistance distanceMatrix idxs = Ret None ->
  forall i j, i ∈ idxs -> i + 2 <= j < length bestTour ->
    exists d,
      calculateTourDistance (reverse_while bestTour (i + 1) j) distanceMatrix
        = Ret d
      /\ lt d bestDistance = false.
Proof.
  induction idxs as [| i0 rest IH]; simpl; intros Hrun i j Hi Hij.
  - by apply elem_of_nil in Hi.
  - destruct (two_opt_inner bestTour bestDistance distanceMatrix i0 _)
      as [[found |] | |] eqn:Hin; cbn [bind] in Hrun; try discriminate.
    apply elem_of_cons in Hi as [-> | Hi]; [| by apply IH].
    eapply two_opt_inner_None; [exact Hin | | lia].
    apply elem_of_seq. lia.
Qed.

Lemma two_opt_pass_None bestTour bestDistance :
  calculateTourDistance bestTour distanceMatrix = Ret bestDistance ->
  two_opt_pass bestTour bestDistance distanceMatrix = Ret None ->
  forall i j, i + 2 <= j < length bestTour ->
    ~ improving_reversal bestTour distanceMatrix i j.
Proof.
  intros Hd Hpass i j Hij (d0 & d & Hd0 & Hrev & Hlt).
  rewrite Hd in Hd0. injection Hd0 as <-.
  destruct (two_opt_outer_None _ _ _ Hpass i j) as (d' & Hd' & Hnot).
  - apply elem_of_seq. lia.
  - done.
  - congruence.
Qed.

(** If one more pass allowed changes nothing, the last pass found nothing. *)
Lemma two_opt_while_stable passesLeft :
  forall bestTour bestDistance out,
    calculateTourDistance bestTour distanceMatrix = Ret bestDistance ->
    two_opt_while passesLeft bestTour bestDistance distanceMatrix = Ret out ->
    two_opt_while (S passesLeft) bestTour bestDistance distanceMatrix
      = Ret out ->
    exists d,
      calculateTourDistance out distanceMatrix = Ret d
      /\ two_opt_pass out d distanceMatrix = Ret None.
Proof.
  induction passesLeft as [| k IH]; intros t d out Hd.
  - intros [= <-]. cbn [two_opt_while].
    destruct (two_opt_pass t d distanceMatrix) as [[[t' d'] |] | |] eqn:Hpass;
      cbn [bind]; try discriminate; [| eauto].
    intros [= ->]. exfalso.
    apply two_opt_outer_sound in Hpass as (_ & _ & Hd' & Hlt).
    rewrite Hd in Hd'. injection Hd' as <-.
    by rewrite num_lt_irrefl in Hlt.
  - intros Hk HSk. cbn [two_opt_while] in Hk.
    change (two_opt_while (S (S k)) t d distanceMatrix)
      with (let* r := two_opt_pass t d distanceMatrix in
            match r with
            | Some (newTour, newDistance) =>
                two_opt_while (S k) newTour newDistance distanceMatrix
            | None => Ret t
            end) in HSk.
    destruct (two_opt_pass t d distanceMatrix) as [[[t' d'] |] | |] eqn:Hpass;
      cbn [bind] in Hk, HSk; try discriminate.
    + apply two_opt_outer_sound in Hpass as (_ & _ & Hd' & _).
      by apply (IH t' d').
    + injection Hk as <-. eauto.
Qed.

End TwoOptOptimum.

(** X5: when allowing one more pass does not change what
    [twoOptImprovement] returns, the returned tour is a local optimum: no
    reversal of a segment between two non-adjacent edges makes it strictly
    shorter. *)
Theorem twoOptImprovement_local_optimum (tour : list nat)
    (distanceMatrix : Matrix) (maxIterations : nat) (out : list nat) :
  twoOptImprovement tour distanceMatrix maxIterations = Ret out ->
  twoOptImprovement tour distanceMatrix (S maxIterations) = Ret out ->
  forall i j, i + 2 <= j < length out ->
    ~ improving_reversal out distanceMatrix i j.
Proof.
  unfold twoOptImprovement. intros Hk HSk.
  destruct (calculateTourDistance tour distanceMatrix) as [d | |] eqn:Hd;
    cbn [bind] in Hk, HSk; try discriminate.
  destruct (two_opt_while_stable distanceMatrix maxIterations tour d out
              Hd Hk HSk) as (dout & Hdout & Hpass).
  by apply (two_opt_pass_None distanceMatrix out dout).
Qed.

Lemma twoOptImprovement_local_optimum_witness :
  twoOptImprovement [0; 2; 1; 3] scenarioMatrix 5 = Ret [0; 1; 2; 3]
  /\ twoOptImprovement [0; 2; 1; 3] scenarioMatrix 6 = Ret [0; 1; 2; 3]
  /\ forall i j, i + 2 <= j < length [0; 1; 2; 3] ->
       ~ improving_reversal [0; 1; 2; 3] scenarioMatrix i j.
Proof.
  assert (H5 : twoOptImprovement [0; 2; 1; 3] scenarioMatrix 5
               = Ret [0; 1; 2; 3]) by (vm_compute; reflexivity).
  assert (H6 : twoOptImprovement [0; 2; 1; 3] scenarioMatrix 6
               = Ret [0; 1; 2; 3]) by (vm_compute; reflexivity).
  split; [exact H5 |]. split; [exact H6 |].
  exact (twoOptImprovement_local_optimum [0; 2; 1; 3] scenarioMatrix 5
           [0; 1; 2; 3] H5 H6).
Defined.

(** ** The frontier heuristic moves along [null] cells only *)

Section FrontierNull.

Variable distanceMatrix : RawMatrix.
Variable n : nat.

Lemma num_lt_Fin (a b : num) : lt a b = true -> exists z, a = Fin z.
Proof. destruct a; [eauto | discriminate | discriminate]. Qed.

(** A cell that compares below anything is [null]. *)
Lemma raw_entry_below currentPoint i d bound :
  raw_entry distanceMatrix currentPoint i = Ret d ->
  less_than d bound = true -> d = VNull.
Proof.
  unfold raw_entry. destruct (distanceMatrix !! currentPoint) as [row |];
    [| discriminate].
  intros [= <-]. destruct (row !! i) as [[c |] |]; [| done |];
    unfold less_than; simpl; discriminate.
Qed.

Lemma frontier_distances_mono distances path p :
  frontier_distances distanceMatrix distances path ->
  frontier_distances distanceMatrix distances (path ++ [p]).
Proof.
  intros Hd i. destruct (Hd i) as [? | [? | [? | [? (q & Hq & Hnull)]]]];
    [by left | by right; left | by right; right; left |].
  right; right; right. split; [done |]. exists q.
  rewrite elem_of_app. auto.
Qed.

Lemma relax_keeps_distances currentPoint visited path idxs :
  currentPoint ∈ path ->
  forall distances distances',
    length distances = n -> Forall (fun i => i < n) idxs ->
    frontier_distances distanceMatrix distances path ->
    relax distanceMatrix currentPoint visited idxs distances = Ret distances' ->
    length distances' = n
    /\ frontier_distances distanceMatrix distances' path.
Proof.
  intros Hcur. induction idxs as [| i rest IH];
    intros distances distances' Hlen Hidx Hd; simpl.
  - by intros [= <-].
  - apply Forall_cons in Hidx as [Hi Hrest].
    destruct (negb (is_visited visited i)); [| by apply IH].
    destruct (raw_entry distanceMatrix currentPoint i) as [d | |] eqn:He;
      cbn [bind]; try discriminate.
    destruct (less_than d (distance_at distances i)) eqn:Hlt; [| by apply IH].
    pose proof (raw_entry_below _ _ _ _ He Hlt) as ->.
    apply IH; [| done |].
    + unfold array_set. rewrite Hlen.
      replace (i <? n) with true by (symmetry; apply Nat.ltb_lt; lia).
      by rewrite length_insert.
    + intros j. unfold array_set. rewrite Hlen.
      replace (i <? n) with true by (symmetry; apply Nat.ltb_lt; lia).
      unfold distance_at. destruct (decide (j = i)) as [-> | Hne].
      * rewrite list_lookup_insert_eq by lia. simpl.
        right; right; right. split; [done |]. eauto.
      * rewrite list_lookup_insert_ne by congruence. apply Hd.
Qed.

(** What is selected is unvisited, in range, and at a finite distance. *)
Lemma select_next_finite visited distances idxs :
  forall minDistance nextPoint,
    snd (select_next visited distances idxs minDistance nextPoint) = nextPoint
    \/ exists i z,
         snd (select_next visited distances idxs minDistance nextPoint)
           = Some i
         /\ i ∈ idxs /\ is_visited visited i = false
         /\ ToNumber (distance_at distances i) = Fin z.
Proof.
  induction idxs as [| i rest IH]; intros md np; simpl; [by left |].
  destruct (is_visited visited i) eqn:Hv; simpl.
  - destruct (IH md np) as [-> | (j & z & -> & Hj & Hvj & Hz)];
      [by left | right].
    exists j, z. rewrite elem_of_cons. auto.
  - destruct (less_than (distance_at distances i) md) eqn:Hlt.
    + right. apply num_lt_Fin in Hlt as [z Hz].
      destruct (IH (distance_at distances i) (Some i))
        as [-> | (j & z' & -> & Hj & Hvj & Hz')].
      * exists i, z. rewrite elem_of_cons. auto.
      * exists j, z'. rewrite elem_of_cons. auto.
    + destruct (IH md np) as [-> | (j & z & -> & Hj & Hvj & Hz)];
        [by left | right].
      exists j, z. rewrite elem_of_cons. auto.
Qed.

Lemma frontier_while_null_legs fuel :
  forall visited distances path currentPoint out,
    marks n visited path -> 0 ∈ path -> currentPoint ∈ path ->
    length distances = n ->
    frontier_distances distanceMatrix distances path ->
    follows_null_legs distanceMatrix path ->
    frontier_while fuel distanceMatrix n visited distances path currentPoint
      = Ret out ->
    follows_null_legs distanceMatrix out.
Proof.
  induction fuel as [| fuel IH];
    intros visited distances path cur out Hm H0 Hcur Hlen Hd Hpath; simpl.
  - destruct (length path <? n); [discriminate | by intros [= <-]].
  - destruct (length path <? n); [| by intros [= <-]].
    destruct (relax distanceMatrix cur visited (seq 0 n) distances)
      as [distances' | |] eqn:Hrelax; cbn [bind]; try discriminate.
    destruct (relax_keeps_distances cur visited path (seq 0 n) Hcur
                distances distances' Hlen) as [Hlen' Hd']; [| done | done |].
    { apply Forall_forall. intros i Hi. apply elem_of_seq in Hi. lia. }
    destruct (select_next_finite visited distances' (seq 0 n) (VNum Inf) None)
      as [-> | (p & z & -> & Hp & Hvp & Hz)]; [by intros [= <-] |].
    apply elem_of_seq in Hp.
    assert (Hp0 : p <> 0).
    { intros ->. apply Hm in H0. congruence. }
    assert (Hleg : exists q, q ∈ path
                     /\ raw_entry distanceMatrix q p = Ret VNull).
    { destruct (Hd' p) as [E | [[_ ?] | [E | [_ Hq]]]];
        [rewrite E in Hz; discriminate | done
        | rewrite E in Hz; discriminate | exact Hq]. }
    apply IH.
    + apply marks_push; [done | lia].
    + rewrite elem_of_app. auto.
    + rewrite elem_of_app, list_elem_of_singleton. auto.
    + done.
    + by apply frontier_distances_mono.
    + intros x Hx Hx0. apply elem_of_app in Hx as [Hx | Hx].
      * destruct (Hpath x Hx Hx0) as (q & Hq & Hnull).
        exists q. rewrite elem_of_app. auto.
      * apply list_elem_of_singleton in Hx as ->.
        destruct Hleg as (q & Hq & Hnull).
        exists q. rewrite elem_of_app. auto.
Qed.

End FrontierNull.

(** X6: the route [findOptimalRoute] returns is read off a path from the hub
    in which every later stop is the end of a [null] cell, a leg the provider
    could not serve, from a stop of the path; a leg with a distance is never
    followed. *)
Theorem frontier_follows_only_null_legs
    (cacheGet : list JSPoint -> bool -> option RawMatrix)
    (httpGet : list Point -> bool -> outcome Response)
    (points : list JSPoint) (startPoint : JSPoint) (route : list JSPoint) :
  findOptimalRoute cacheGet httpGet points startPoint = Ret route ->
  exists distanceMatrix path,
    getDistanceMatrix cacheGet httpGet (startPoint :: points) true
      = Ret distanceMatrix
    /\ route = map (point_at (startPoint :: points)) path
    /\ head path = Some 0
    /\ follows_null_legs distanceMatrix path.
Proof.
  intros Hrun. pose proof Hrun as Hrun'.
  apply findOptimalRoute_spec in Hrun' as (path' & _ & Hhd & _).
  apply rethrow_Ret in Hrun. cbv zeta in Hrun.
  ret_inv Hrun. ret_inv Hrun. injection Hrun as <-.
  exists a, a0. split; [done |]. split; [done |].
  assert (Hhd0 : head a0 = Some 0).
  { pose proof (frontier_while_spec a (length (startPoint :: points))
                  (length (startPoint :: points))
                  (array_set false
                     (replicate (length (startPoint :: points)) false) 0 true)
                  (array_set VUndefined
                     (replicate (length (startPoint :: points)) (VNum Inf)) 0
                     (VNum (Fin 0)))
                  [0] 0 0) as Hspec.
    rewrite Ha0 in Hspec. apply Hspec.
    - apply marks_start. simpl. lia.
    - apply NoDup_singleton.
    - done.
    - simpl. lia. }
  split; [done |].
  eapply (frontier_while_null_legs a (length (startPoint :: points)));
    [| | | | | | exact Ha0].
  - apply marks_start. simpl. lia.
  - apply list_elem_of_here.
  - apply list_elem_of_here.
  - simpl. by rewrite length_replicate.
  - intros i. cbn [length replicate array_set Nat.ltb Nat.leb].
    unfold distance_at. destruct i as [| i]; simpl.
    + right; left. done.
    + destruct (replicate (length points) (VNum Inf) !! i) eqn:E; simpl.
      * apply lookup_replicate in E as [-> _]. by left.
      * right; right; left. done.
  - intros p Hp Hp0. apply list_elem_of_singleton in Hp. congruence.
Qed.

Lemma frontier_follows_only_null_legs_witness :
  findOptimalRoute Scenario.emptyCache Upstream.oneLegMissingProvider
    [Some Scenario.A] (Some Scenario.H)
  = Ret [Some Scenario.H; Some Scenario.A]
  /\ exists distanceMatrix path,
       getDistanceMatrix Scenario.emptyCache Upstream.oneLegMissingProvider
         [Some Scenario.H; Some Scenario.A] true = Ret distanceMatrix
       /\ [Some Scenario.H; Some Scenario.A]
          = map (point_at [Some Scenario.H; Some Scenario.A]) path
       /\ head path = Some 0
       /\ follows_null_legs distanceMatrix path.
Proof.
  assert (Hrun : findOptimalRoute Scenario.emptyCache
                   Upstream.oneLegMissingProvider
                   [Some Scenario.A] (Some Scenario.H)
                 = Ret [Some Scenario.H; Some Scenario.A])
    by (vm_compute; reflexivity).
  split; [exact Hrun |].
  exact (frontier_follows_only_null_legs _ _ _ _ _ Hrun).
Defined.

(** X7: whenever the first row of the oracle's matrix holds no [null], that
    is whenever every leg out of the hub is served, [findOptimalRoute]
    returns the start point alone, whatever the distances and however many
    delivery points there are. *)
Theorem frontier_route_is_hub_alone
    (cacheGet : list JSPoint -> bool -> option RawMatrix)
    (httpGet : list Point -> bool -> outcome Response)
    (points : list JSPoint) (startPoint : JSPoint)
    (distanceMatrix : RawMatrix) (row : list (option Cell)) :
  getDistanceMatrix cacheGet httpGet (startPoint :: points) true
    = Ret distanceMatrix ->
  distanceMatrix !! 0 = Some row ->
  Forall (fun cell => cell <> None) row ->
  findOptimalRoute cacheGet httpGet points startPoint = Ret [startPoint].
Proof. apply frontier_never_leaves_hub. Qed.

Lemma frontier_route_is_hub_alone_witness :
  exists distanceMatrix row,
    getDistanceMatrix Scenario.emptyCache Scenario.provider
      [Some Scenario.H; Some Scenario.C; Some Scenario.B] true
      = Ret distanceMatrix
    /\ distanceMatrix !! 0 = Some row
    /\ Forall (fun cell => cell <> None) row
    /\ findOptimalRoute Scenario.emptyCache Scenario.provider
         [Some Scenario.C; Some Scenario.B] (Some Scenario.H)
       = Ret [Some Scenario.H].
Proof.
  destruct (getDistanceMatrix Scenario.emptyCache Scenario.provider
              [Some Scenario.H; Some Scenario.C; Some Scenario.B] true)
    as [m | |] eqn:Hm; [| vm_compute in Hm; discriminate ..].
  destruct (m !! 0) as [row |] eqn:Hrow;
    [| vm_compute in Hm; injection Hm as <-; discriminate].
  assert (Hobj : Forall (fun cell => cell <> None) row).
  { vm_compute in Hm. injection Hm as <-. injection Hrow as <-.
    repeat constructor; discriminate. }
  exists m, row. split; [reflexivity |]. split; [exact Hrow |].
  split; [exact Hobj |].
  exact (frontier_route_is_hub_alone _ _ _ _ m row Hm Hrow Hobj).
Defined.

(** ** Reoptimisation at the last stop *)

(** X8: [reoptimizeRoute] called at the last stop of the route returns the
    route unchanged whenever the oracle answers for that stop alone. *)
Theorem reoptimizeRoute_at_last_stop
    (cacheGet : list JSPoint -> bool -> option RawMatrix)
    (httpGet : list Point -> bool -> outcome Response)
    (travelled : list JSPoint) (lastStop : JSPoint)
    (distanceMatrix : RawMatrix) :
  getDistanceMatrix cacheGet httpGet [lastStop] true = Ret distanceMatrix ->
  reoptimizeRoute cacheGet httpGet (travelled ++ [lastStop])
    (length travelled)
  = Ret (travelled ++ [lastStop]).
Proof.
  intros Hm. unfold reoptimizeRoute. cbv zeta.
  rewrite drop_app_length, take_app_length.
  change (point_at [lastStop] 0) with lastStop.
  change (drop 1 [lastStop]) with (@nil JSPoint).
  unfold findOptimalRoute. cbv zeta. rewrite Hm. reflexivity.
Qed.

Lemma reoptimizeRoute_at_last_stop_witness :
  exists distanceMatrix,
    getDistanceMatrix Scenario.emptyCache Scenario.provider
      [Some Scenario.B] true = Ret distanceMatrix
    /\ reoptimizeRoute Scenario.emptyCache Scenario.provider
         ([Some Scenario.H; Some Scenario.A] ++ [Some Scenario.B])
         (length [Some Scenario.H; Some Scenario.A])
       = Ret ([Some Scenario.H; Some Scenario.A] ++ [Some Scenario.B]).
Proof.
  destruct (getDistanceMatrix Scenario.emptyCache Scenario.provider
              [Some Scenario.B] true) as [m | |] eqn:Hm;
    [| vm_compute in Hm; discriminate ..].
  exists m. split; [reflexivity |].
  exact (reoptimizeRoute_at_last_stop _ _ [Some Scenario.H; Some Scenario.A]
           (Some Scenario.B) m Hm).
Defined.

(** ** Route metrics at the edges *)

Lemma leg_fuel (distanceMatrix : RawMatrix) (i : nat) :
  leg distanceMatrix i <> OutOfFuel.
Proof.
  unfold leg. destruct (distanceMatrix !! i) as [row |]; [| discriminate].
  destruct (row !! (i + 1)) as [[cell |] |]; try discriminate.
  destruct (distance cell), (duration cell); discriminate.
Qed.

(** The sum throws as soon as one of its legs does. *)
Lemma sum_legs_throws (distanceMatrix : RawMatrix) (idxs : list nat) (i : nat)
    (e : JS.error) :
  i ∈ idxs -> leg distanceMatrix i = Throw e ->
  forall totalDistance totalTime,
    exists e', sum_legs distanceMatrix idxs totalDistance totalTime = Throw e'.
Proof.
  intros Hi Hleg. induction idxs as [| j rest IH]; intros d t.
  - by apply elem_of_nil in Hi.
  - simpl. apply elem_of_cons in Hi as [<- | Hi].
    + rewrite Hleg. simpl. eauto.
    + destruct (leg distanceMatrix j) as [dt | e0 |] eqn:Hj; simpl.
      * by apply IH.
      * eauto.
      * by apply leg_fuel in Hj.
Qed.

(** X9: when the oracle's matrix for the route holds [null] for a leg
    between two consecutive stops, both metrics functions fail, each with
    its own message, instead of reporting a partial total. *)
Theorem metrics_fail_on_unserved_leg
    (cacheGet : list JSPoint -> bool -> option RawMatrix)
    (httpGet : list Point -> bool -> outcome Response)
    (route : list JSPoint) (distanceMatrix : RawMatrix) (i : nat) :
  getDistanceMatrix cacheGet httpGet route true = Ret distanceMatrix ->
  i + 1 < length route ->
  raw_entry distanceMatrix i (i + 1) = Ret VNull ->
  calculateRouteMetrics cacheGet httpGet route
    = Throw (Error "Failed to calculate route metrics")
  /\ calculateTSPRouteMetrics cacheGet httpGet route
     = Throw (Error "Failed to calculate TSP route metrics").
Proof.
  intros Hm Hi Hnull.
  assert (Hleg : leg distanceMatrix i = Throw TypeError).
  { unfold raw_entry in Hnull. unfold leg.
    destruct (distanceMatrix !! i) as [row |]; [| discriminate].
    destruct (row !! (i + 1)) as [[c |] |]; [discriminate | done | done]. }
  destruct (sum_legs_throws distanceMatrix (seq 0 (length route - 1)) i
              TypeError) with (totalDistance := 0%Z) (totalTime := 0%Z)
    as [e He]; [apply elem_of_seq; lia | done |].
  unfold calculateRouteMetrics, calculateTSPRouteMetrics.
  rewrite Hm. cbn [bind]. rewrite He. split; reflexivity.
Qed.

Lemma metrics_fail_on_unserved_leg_witness :
  let route := [Some Scenario.H; Some Scenario.A] in
  exists distanceMatrix,
    getDistanceMatrix Scenario.emptyCache Upstream.oneLegMissingProvider
      route true = Ret distanceMatrix
    /\ 0 + 1 < length route
    /\ raw_entry distanceMatrix 0 (0 + 1) = Ret VNull
    /\ calculateRouteMetrics Scenario.emptyCache
         Upstream.oneLegMissingProvider route
       = Throw (Error "Failed to calculate route metrics")
    /\ calculateTSPRouteMetrics Scenario.emptyCache
         Upstream.oneLegMissingProvider route
       = Throw (Error "Failed to calculate TSP route metrics").
Proof.
  intros route.
  destruct (getDistanceMatrix Scenario.emptyCache
              Upstream.oneLegMissingProvider route true)
    as [m | |] eqn:Hm; [| vm_compute in Hm; discriminate ..].
  assert (Hnull : raw_entry m 0 (0 + 1) = Ret VNull).
  { vm_compute in Hm. injection Hm as <-. reflexivity. }
  assert (Hlen : 0 + 1 < length route) by (simpl; lia).
  exists m. split; [reflexivity |]. split; [exact Hlen |].
  split; [exact Hnull |].
  exact (metrics_fail_on_unserved_leg _ _ route m 0 Hm Hlen Hnull).
Defined.

(** X10: for a route of fewer than two stops, once the oracle answers, both
    metrics functions report zero distance and zero time without reading a
    cell, and the TSP one reports the fuel saving ["NaN"]. *)
Theorem metrics_of_short_route
    (cacheGet : list JSPoint -> bool -> option RawMatrix)
    (httpGet : list Point -> bool -> outcome Response)
    (route : list JSPoint) (distanceMatrix : RawMatrix) :
  length route <= 1 ->
  getDistanceMatrix cacheGet httpGet route true = Ret distanceMatrix ->
  calculateRouteMetrics cacheGet httpGet route
    = Ret {| totalDistance := inject_Z 0 / 1000;
             totalTime := inject_Z 0 / 60;
             fuelSavingsPercentage := None |}
  /\ calculateTSPRouteMetrics cacheGet httpGet route
     = Ret {| totalDistance := inject_Z 0 / 1000;
              totalTime := inject_Z 0 / 60;
              fuelSavingsPercentage := Some "NaN"%string |}.
Proof.
  intros Hshort Hm. unfold calculateRouteMetrics, calculateTSPRouteMetrics.
  rewrite Hm. cbn [bind].
  replace (length route - 1) with 0 by lia. split; reflexivity.
Qed.

Lemma metrics_of_short_route_witness :
  exists distanceMatrix,
    length [Some Scenario.H] <= 1
    /\ getDistanceMatrix Scenario.emptyCache Scenario.provider
         [Some Scenario.H] true = Ret distanceMatrix
    /\ calculateRouteMetrics Scenario.emptyCache Scenario.provider
         [Some Scenario.H]
       = Ret {| totalDistance := inject_Z 0 / 1000;
                totalTime := inject_Z 0 / 60;
                fuelSavingsPercentage := None |}
    /\ calculateTSPRouteMetrics Scenario.emptyCache Scenario.provider
         [Some Scenario.H]
       = Ret {| totalDistance := inject_Z 0 / 1000;
                totalTime := inject_Z 0 / 60;
                fuelSavingsPercentage := Some "NaN"%string |}.
Proof.
  destruct (getDistanceMatrix Scenario.emptyCache Scenario.provider
              [Some Scenario.H] true) as [m | |] eqn:Hm;
    [| vm_compute in Hm; discriminate ..].
  assert (Hshort : length [Some Scenario.H] <= 1) by (simpl; lia).
  exists m. split; [exact Hshort |]. split; [reflexivity |].
  exact (metrics_of_short_route _ _ [Some Scenario.H] m Hshort Hm).
Defined.

(** ** The cache with expiry *)

Lemma cache_get_live {V : Type} (cache : gmap string (Cache.item V))
    (now : Z) (key : string) (value : V) (ttl now' : Z) :
  (now' <= now + ttl)%Z ->
  Cache.get (Cache.set cache now key value ttl) now' key
  = (Some value, Cache.set cache now key value ttl).
Proof.
  intros Hlive. unfold Cache.get, Cache.set.
  rewrite lookup_insert_eq. cbn [Cache.expiry Cache.item_value].
  replace (now + ttl <? now')%Z with false
    by (symmetry; apply Z.ltb_ge; lia).
  reflexivity.
Qed.

(** X11: as long as no timer has deleted it, a value stored with [set] is
    what [get] returns, and what [has] confirms, at every time up to and
    including its expiry, and neither call changes the cache. *)
Theorem cache_get_after_set {V : Type} (cache : gmap string (Cache.item V))
    (now : Z) (key : string) (value : V) (ttl now' : Z) :
  (now' <= now + ttl)%Z ->
  Cache.get (Cache.set cache now key value ttl) now' key
    = (Some value, Cache.set cache now key value ttl)
  /\ Cache.has (Cache.set cache now key value ttl) now' key
     = (true, Cache.set cache now key value ttl).
Proof.
  intros Hlive. unfold Cache.get, Cache.has, Cache.set.
  rewrite lookup_insert_eq. cbn [Cache.expiry Cache.item_value].
  replace (now + ttl <? now')%Z with false
    by (symmetry; apply Z.ltb_ge; lia).
  split; reflexivity.
Qed.

Lemma cache_get_after_set_witness :
  (1500 <= 1000 + 500)%Z
  /\ Cache.get (Cache.set (∅ : gmap string (Cache.item nat)) 1000 "k" 7 500)
       1500 "k"
     = (Some 7, Cache.set ∅ 1000 "k" 7 500)
  /\ Cache.has (Cache.set (∅ : gmap string (Cache.item nat)) 1000 "k" 7 500)
       1500 "k"
     = (true, Cache.set ∅ 1000 "k" 7 500).
Proof.
  split; [lia |].
  apply (cache_get_after_set (∅ : gmap string (Cache.item nat)) 1000 "k" 7
           500 1500). lia.
Defined.

(** X12: once the clock has passed the expiry of an entry, [get] returns
    [undefined] and [has] returns [false], and each removes the entry; until
    one of them is called the entry still counts in [size]. *)
Theorem cache_expired_entry_is_purged {V : Type}
    (cache : gmap string (Cache.item V)) (now : Z) (key : string)
    (item : Cache.item V) :
  cache !! key = Some item ->
  (Cache.expiry item < now)%Z ->
  Cache.get cache now key = (None, Cache.delete cache key)
  /\ Cache.has cache now key = (false, Cache.delete cache key)
  /\ Cache.delete cache key !! key = None
  /\ Cache.size cache = S (Cache.size (Cache.delete cache key)).
Proof.
  intros Hitem Hexpired. unfold Cache.get, Cache.has. rewrite Hitem.
  replace (Cache.expiry item <? now)%Z with true
    by (symmetry; apply Z.ltb_lt; lia).
  split; [reflexivity |]. split; [reflexivity |].
  unfold Cache.delete, Cache.size. split; [apply lookup_delete_eq |].
  rewrite <- (insert_delete_id cache key item Hitem) at 1.
  apply map_size_insert_None, lookup_delete_eq.
Qed.

Lemma cache_expired_entry_is_purged_witness :
  let cache := Cache.set (∅ : gmap string (Cache.item nat)) 1000 "k" 7 500 in
  cache !! "k" = Some {| Cache.item_value := 7; Cache.expiry := 1500 |}
  /\ (1500 < 1501)%Z
  /\ Cache.get cache 1501 "k" = (None, Cache.delete cache "k")
  /\ Cache.size cache = S (Cache.size (Cache.delete cache "k")).
Proof.
  intros cache.
  assert (Hitem : cache !! "k"
                  = Some {| Cache.item_value := 7; Cache.expiry := 1500 |})
    by (unfold cache, Cache.set; apply lookup_insert_eq).
  split; [exact Hitem |]. split; [lia |].
  destruct (cache_expired_entry_is_purged cache 1501 "k" _ Hitem)
    as (Hget & _ & _ & Hsize); [simpl; lia |].
  split; [exact Hget | exact Hsize].
Defined.

(** ** The oracle on the cache *)

Section CachedOracle.

Variable stringify : list JSPoint -> string.

(** The engine's [getDistanceMatrix] is the cached one read through the
    lookup the cache gives at that time. *)
Lemma getDistanceMatrixCached_result cache nowGet nowSet httpGet points
    considerTraffic :
  fst (getDistanceMatrixCached stringify cache nowGet nowSet httpGet points
         considerTraffic)
  = getDistanceMatrix
      (fun ps traffic =>
         fst (Cache.get cache nowGet (matrixKey stringify ps traffic)))
      httpGet points considerTraffic.
Proof.
  unfold getDistanceMatrixCached, getDistanceMatrix. cbv zeta.
  destruct (fst (Cache.get cache nowGet _)); [reflexivity |].
  by destruct (getDistanceMatrixFrom None _).
Qed.

(** After a miss the lookup leaves no entry under the key. *)
Lemma cache_miss_leaves_none {V : Type} (cache : gmap string (Cache.item V))
    (now : Z) (key : string) :
  fst (Cache.get cache now key) = None ->
  snd (Cache.get cache now key) !! key = None.
Proof.
  unfold Cache.get. destruct (cache !! key) as [item |] eqn:E; [| done].
  destruct (Cache.expiry item <? now)%Z; [| discriminate].
  intros _. apply lookup_delete_eq.
Qed.

End CachedOracle.

(** X13: a matrix obtained from the provider after a cache miss is served
    again, with no request to the provider and no reading of the points,
    to every call for the same points and traffic mode made within fifteen
    minutes of its storing, and the cache stays as it is. *)
Theorem matrix_is_served_from_cache (stringify : list JSPoint -> string)
    (cache cache' : gmap string (Cache.item RawMatrix))
    (nowGet nowSet : Z) (httpGet : list Point -> bool -> outcome Response)
    (points : list JSPoint) (considerTraffic : bool) (matrix : RawMatrix)
    (later laterSet : Z)
    (otherGet : list Point -> bool -> outcome Response) :
  fst (Cache.get cache nowGet (matrixKey stringify points considerTraffic))
    = None ->
  getDistanceMatrixCached stringify cache nowGet nowSet httpGet points
    considerTraffic = (Ret matrix, cache') ->
  (later <= nowSet + CACHE_EXPIRY)%Z ->
  getDistanceMatrixCached stringify cache' later laterSet otherGet points
    considerTraffic = (Ret matrix, cache').
Proof.
  intros Hmiss Hrun Hlive. unfold getDistanceMatrixCached in Hrun.
  cbv zeta in Hrun. rewrite Hmiss in Hrun.
  destruct (getDistanceMatrixFrom None _) as [m | |]; try discriminate.
  injection Hrun as -> <-.
  unfold getDistanceMatrixCached. cbv zeta.
  rewrite (cache_get_live
             (snd (Cache.get cache nowGet
                     (matrixKey stringify points considerTraffic)))
             nowSet (matrixKey stringify points considerTraffic) matrix
             CACHE_EXPIRY later Hlive).
  reflexivity.
Qed.

Lemma matrix_is_served_from_cache_witness :
  let stringify := fun points : list JSPoint => "[H,A]"%string in
  let points := [Some Scenario.H; Some Scenario.A] in
  exists matrix cache',
    fst (Cache.get (∅ : gmap string (Cache.item RawMatrix)) 0
           (matrixKey stringify points true)) = None
    /\ getDistanceMatrixCached stringify ∅ 0 40 Scenario.provider points true
       = (Ret matrix, cache')
    /\ (900040 <= 40 + CACHE_EXPIRY)%Z
    /\ getDistanceMatrixCached stringify cache' 900040 900050
         Upstream.deniedProvider points true
       = (Ret matrix, cache').
Proof.
  intros stringify points.
  destruct (getDistanceMatrixCached stringify ∅ 0 40 Scenario.provider
              points true) as [[m | |] cache'] eqn:Hrun;
    [| exfalso; unfold getDistanceMatrixCached in Hrun; cbv zeta in Hrun;
       cbn in Hrun; discriminate ..].
  assert (Hmiss : fst (Cache.get (∅ : gmap string (Cache.item RawMatrix)) 0
                         (matrixKey stringify points true)) = None)
    by reflexivity.
  assert (Hlive : (900040 <= 40 + CACHE_EXPIRY)%Z)
    by (unfold CACHE_EXPIRY; lia).
  exists m, cache'. split; [exact Hmiss |]. split; [reflexivity |].
  split; [exact Hlive |].
  exact (matrix_is_served_from_cache stringify ∅ cache' 0 40
           Scenario.provider points true m 900040 900050
           Upstream.deniedProvider Hmiss Hrun Hlive).
Defined.

(** X14: a call of [getDistanceMatrix] that fails stores nothing: the cache
    holds no entry under its key afterwards, so the next call for the same
    points asks the provider again. *)
Theorem failed_matrix_is_not_cached (stringify : list JSPoint -> string)
    (cache cache' : gmap string (Cache.item RawMatrix))
    (nowGet nowSet : Z) (httpGet : list Point -> bool -> outcome Response)
    (points : list JSPoint) (considerTraffic : bool) (e : JS.error)
    (later laterSet : Z)
    (otherGet : list Point -> bool -> outcome Response) :
  getDistanceMatrixCached stringify cache nowGet nowSet httpGet points
    considerTraffic = (Throw e, cache') ->
  cache' !! matrixKey stringify points considerTraffic = None
  /\ fst (getDistanceMatrixCached stringify cache' later laterSet otherGet
            points considerTraffic)
     = getDistanceMatrixFrom None
         (let* ps := locations points in otherGet ps considerTraffic).
Proof.
  intros Hrun. unfold getDistanceMatrixCached in Hrun. cbv zeta in Hrun.
  destruct (fst (Cache.get cache nowGet
                   (matrixKey stringify points considerTraffic)))
    as [hit |] eqn:Hlook; [discriminate |].
  assert (Hnone : cache' !! matrixKey stringify points considerTraffic = None).
  { destruct (getDistanceMatrixFrom None _); try discriminate;
      injection Hrun as _ <-; by apply cache_miss_leaves_none. }
  split; [exact Hnone |].
  rewrite getDistanceMatrixCached_result.
  unfold getDistanceMatrix, Cache.get. rewrite Hnone. reflexivity.
Qed.

Lemma failed_matrix_is_not_cached_witness :
  let stringify := fun points : list JSPoint => "[H,A]"%string in
  let points := [Some Scenario.H; Some Scenario.A] in
  exists cache',
    getDistanceMatrixCached stringify ∅ 0 40 Upstream.deniedProvider points
      true
    = (Throw (Error "Failed to get distance matrix from Google Maps API"),
       cache')
    /\ cache' !! matrixKey stringify points true = None.
Proof.
  intros stringify points.
  destruct (getDistanceMatrixCached stringify ∅ 0 40 Upstream.deniedProvider
              points true) as [r cache'] eqn:Hrun.
  assert (Hr : r = Throw (Error
                 "Failed to get distance matrix from Google Maps API")).
  { unfold getDistanceMatrixCached in Hrun. cbv zeta in Hrun.
    cbn in Hrun. by injection Hrun as <- _. }
  subst r. exists cache'. split; [reflexivity |].
  exact (proj1 (failed_matrix_is_not_cached stringify ∅ cache' 0 40
                  Upstream.deniedProvider points true _ 0 0
                  Upstream.deniedProvider Hrun)).
Defined.

(** ** Geocoding *)

(** X15: on a cache miss and a response with status OK, [geocodeAddress]
    returns the first result of the response, whatever follows it, and
    serves that same result, without a request, to every call for the
    address made within one hour of its storing. *)
Theorem geocode_returns_first_result
    (cache : gmap string (Cache.item GeoResult)) (nowGet nowSet : Z)
    (httpGet otherGet : string -> outcome GeocodeResponse) (address : string)
    (response : GeocodeResponse) (first : GeocodeResult)
    (rest : list GeocodeResult) (later laterSet : Z) :
  fst (Cache.get cache nowGet ("geocode_" ++ address)) = None ->
  httpGet address = Ret response ->
  g_status response = "OK"%string ->
  results response = first :: rest ->
  (later <= nowSet + 60 * 60 * 1000)%Z ->
  exists cache',
    let found :=
      {| geo_lat := location_lat first; geo_lng := location_lng first;
         geo_formattedAddress := formatted_address first |} in
    geocodeAddressCached cache nowGet nowSet httpGet address
      = (Ret found, cache')
    /\ geocodeAddressCached cache' later laterSet otherGet address
       = (Ret found, cache').
Proof.
  intros Hmiss Hget Hok Hres Hlive. eexists. cbv zeta.
  assert (Hfirst : geocodeAddressCached cache nowGet nowSet httpGet address
            = (Ret {| geo_lat := location_lat first;
                      geo_lng := location_lng first;
                      geo_formattedAddress := formatted_address first |},
               Cache.set (snd (Cache.get cache nowGet ("geocode_" ++ address)))
                 nowSet ("geocode_" ++ address)
                 {| geo_lat := location_lat first;
                    geo_lng := location_lng first;
                    geo_formattedAddress := formatted_address first |}
                 (CACHE_EXPIRY * 4))).
  { unfold geocodeAddressCached, geocodeAddressFrom. cbv zeta.
    rewrite Hmiss, Hget. cbn [bind]. rewrite Hok, Hres. reflexivity. }
  split; [exact Hfirst |].
  unfold geocodeAddressCached. cbv zeta.
  rewrite (cache_get_live
             (snd (Cache.get cache nowGet ("geocode_" ++ address)))
             nowSet ("geocode_" ++ address)
             {| geo_lat := location_lat first;
                geo_lng := location_lng first;
                geo_formattedAddress := formatted_address first |}
             (CACHE_EXPIRY * 4) later) by (unfold CACHE_EXPIRY; lia).
  reflexivity.
Qed.

Lemma geocode_returns_first_result_witness :
  exists cache',
    geocodeAddressCached ∅ 0 5 Providers.geocoder "hall"
      = (Ret {| geo_lat := 1297 # 100; geo_lng := 7759 # 100;
                geo_formattedAddress := "Town Hall" |}, cache')
    /\ geocodeAddressCached cache' 3600005 3600006 Providers.refusingGeocoder
         "hall"
       = (Ret {| geo_lat := 1297 # 100; geo_lng := 7759 # 100;
                 geo_formattedAddress := "Town Hall" |}, cache').
Proof.
  exact (geocode_returns_first_result ∅ 0 5 Providers.geocoder
           Providers.refusingGeocoder "hall"
           {| g_status := "OK";
              results := [Providers.townHall; Providers.otherHall] |}
           Providers.townHall [Providers.otherHall] 3600005 3600006
           eq_refl eq_refl eq_refl eq_refl ltac:(lia)).
Defined.

(** X16: on a cache miss, [geocodeAddress] fails with its own message both
    when the provider's status is not OK and when the status is OK but the
    response holds no result, and in both cases nothing is stored. *)
Theorem geocode_fails_without_result
    (cache : gmap string (Cache.item GeoResult)) (nowGet nowSet : Z)
    (httpGet : string -> outcome GeocodeResponse) (address : string)
    (response : GeocodeResponse) :
  fst (Cache.get cache nowGet ("geocode_" ++ address)) = None ->
  httpGet address = Ret response ->
  g_status response <> "OK"%string \/ results response = [] ->
  geocodeAddressCached cache nowGet nowSet httpGet address
  = (Throw (Error "Failed to geocode address using Google Maps API"),
     snd (Cache.get cache nowGet ("geocode_" ++ address)))
  /\ snd (Cache.get cache nowGet ("geocode_" ++ address))
       !! ("geocode_" ++ address)%string = None.
Proof.
  intros Hmiss Hget Hbad. split; [| by apply cache_miss_leaves_none].
  unfold geocodeAddressCached, geocodeAddressFrom. cbv zeta.
  rewrite Hmiss, Hget. cbn [bind].
  destruct (String.eqb_spec (g_status response) "OK") as [Hok | Hne].
  - destruct Hbad as [? | ->]; [done | reflexivity].
  - reflexivity.
Qed.

Lemma geocode_fails_without_result_witness :
  fst (Cache.get (∅ : gmap string (Cache.item GeoResult)) 0
         ("geocode_" ++ "nowhere")) = None
  /\ Providers.emptyGeocoder "nowhere"
     = Ret {| g_status := "OK"; results := [] |}
  /\ geocodeAddressCached ∅ 0 5 Providers.emptyGeocoder "nowhere"
     = (Throw (Error "Failed to geocode address using Google Maps API"),
        snd (Cache.get ∅ 0 ("geocode_" ++ "nowhere"))).
Proof.
  split; [reflexivity |]. split; [reflexivity |].
  exact (proj1 (geocode_fails_without_result ∅ 0 5 Providers.emptyGeocoder
                  "nowhere" {| g_status := "OK"; results := [] |}
                  eq_refl eq_refl (or_intror eq_refl))).
Defined.

(** ** Traffic *)

Lemma below_ratio (traffic normal : Z) (a b : positive) :
  (0 < normal)%Z ->
  below (divide (inject_Z traffic) (inject_Z normal)) (Zpos a # b) = true
  <-> (Zpos b * traffic < Zpos a * normal)%Z.
Proof.
  intros Hpos. unfold divide.
  destruct (Qeq_bool (inject_Z normal) 0) eqn:Hz.
  { apply Qeq_bool_eq in Hz. unfold Qeq in Hz. simpl in Hz. lia. }
  unfold below. rewrite negb_true_iff.
  destruct normal as [| p | p]; try lia.
  destruct (Qle_bool (Zpos a # b) (inject_Z traffic / inject_Z (Zpos p)))
    eqn:Hle.
  - apply Qle_bool_iff in Hle. unfold Qle in Hle. simpl in Hle.
    split; [discriminate | lia].
  - split; [intros _ | reflexivity].
    destruct (Z_lt_le_dec (Zpos b * traffic) (Zpos a * Zpos p))
      as [Hlt | Hge]; [exact Hlt | exfalso].
    assert (Hq : (Zpos a # b <= inject_Z traffic / inject_Z (Zpos p))%Q).
    { unfold Qle. simpl. lia. }
    apply Qle_bool_iff in Hq. congruence.
Qed.

(** X17: for a positive normal duration, [getTrafficData] grades the
    congestion by the ratio of the traffic duration to the normal one with
    the thresholds 1.1, 1.3 and 1.5, each bound belonging to the grade
    above it, and reports their difference as the delay. *)
Theorem congestion_level_thresholds (found : Directions) (data : TrafficData) :
  trafficOf found = Ret data ->
  (0 < normalDuration data)%Z ->
  let normal := normalDuration data in
  let traffic := trafficDuration data in
  (congestionLevel data = "low"%string
     <-> (10 * traffic < 11 * normal)%Z)
  /\ (congestionLevel data = "moderate"%string
      <-> (11 * normal <= 10 * traffic < 13 * normal)%Z)
  /\ (congestionLevel data = "high"%string
      <-> (13 * normal <= 10 * traffic < 15 * normal)%Z)
  /\ (congestionLevel data = "severe"%string
      <-> (15 * normal <= 10 * traffic)%Z)
  /\ delaySeconds data = (traffic - normal)%Z.
Proof.
  unfold trafficOf. intros Hrun Hpos.
  destruct (bestRoute found) as [best |]; [| discriminate].
  destruct (fr_duration best) as [normal |]; [| discriminate].
  destruct (fr_duration_in_traffic best) as [traffic |]; [| discriminate].
  injection Hrun as <-. cbn [normalDuration trafficDuration congestionLevel
                             delaySeconds] in *.
  pose proof (below_ratio (value traffic) (value normal) 11 10 Hpos) as H11.
  pose proof (below_ratio (value traffic) (value normal) 13 10 Hpos) as H13.
  pose proof (below_ratio (value traffic) (value normal) 15 10 Hpos) as H15.
  unfold congestionLevelOf.
  destruct (below _ (11 # 10)) eqn:E11;
    [| destruct (below _ (13 # 10)) eqn:E13;
       [| destruct (below _ (15 # 10)) eqn:E15]];
    repeat match goal with
           | H : true = true <-> _ |- _ =>
               let K := fresh in pose proof (proj1 H eq_refl) as K; clear H
           | H : false = true <-> _ |- _ =>
               let K := fresh in
               assert (K : ~ _) by (intros ?; apply H in H0; discriminate)
           end.
  all: repeat split; try discriminate; try reflexivity; try lia.
Qed.

Lemma congestion_level_thresholds_witness :
  let found :=
    {| formattedRoutes := [];
       bestRoute :=
         Some {| polyline := None; fr_distance := None;
                 fr_duration := Providers.seconds 600;
                 fr_duration_in_traffic := Providers.seconds 720;
                 fr_steps := [] |} |} in
  exists data,
    trafficOf found = Ret data
    /\ (0 < normalDuration data)%Z
    /\ (congestionLevel data = "moderate"%string
        <-> (11 * normalDuration data <= 10 * trafficDuration data
             < 13 * normalDuration data)%Z).
Proof.
  intros found. eexists. split; [reflexivity |]. split; [reflexivity |].
  exact (proj1 (proj2 (congestion_level_thresholds found _ eq_refl eq_refl))).
Defined.

(** X18: when the normal duration of the best route is zero, the ratio is
    not a finite number, and [getTrafficData] reports the congestion as
    severe for a traffic duration of zero or more and as low for a negative
    one. *)
Theorem congestion_without_normal_duration
    (found : Directions) (data : TrafficData) :
  trafficOf found = Ret data ->
  normalDuration data = 0%Z ->
  (forall q, congestionRatio data <> Finite q)
  /\ ((0 <= trafficDuration data)%Z -> congestionLevel data = "severe"%string)
  /\ ((trafficDuration data < 0)%Z -> congestionLevel data = "low"%string).
Proof.
  unfold trafficOf. intros Hrun Hzero.
  destruct (bestRoute found) as [best |]; [| discriminate].
  destruct (fr_duration best) as [normal |]; [| discriminate].
  destruct (fr_duration_in_traffic best) as [traffic |]; [| discriminate].
  injection Hrun as <-.
  cbn [normalDuration trafficDuration congestionLevel congestionRatio] in *.
  rewrite Hzero. unfold divide. change (Qeq_bool (inject_Z 0) 0) with true.
  cbv iota.
  destruct (value traffic) as [| p | p].
  - split; [discriminate |]. split; [reflexivity | lia].
  - split; [discriminate |]. split; [reflexivity | lia].
  - split; [discriminate |]. split; [lia | reflexivity].
Qed.

Lemma congestion_without_normal_duration_witness :
  let found :=
    {| formattedRoutes := [];
       bestRoute :=
         Some {| polyline := None; fr_distance := None;
                 fr_duration := Providers.seconds 0;
                 fr_duration_in_traffic := Providers.seconds 0;
                 fr_steps := [] |} |} in
  exists data,
    trafficOf found = Ret data
    /\ normalDuration data = 0%Z
    /\ congestionRatio data = NotANumber
    /\ congestionLevel data = "severe"%string.
Proof.
  intros found. eexists. split; [reflexivity |]. split; [reflexivity |].
  split; [reflexivity |].
  exact (proj1 (proj2 (congestion_without_normal_duration found _
                         eq_refl eq_refl)) ltac:(cbn; lia)).
Defined.

(** X19: [getTrafficData] fails with its own message whenever the directions
    it obtained have no best route, or a best route without [duration] or
    without [duration_in_traffic], although [getDirections] succeeded and
    left its answer in the cache. *)
Theorem traffic_fails_without_traffic_duration
    (coordinates : Point -> string)
    (cache cache' : gmap string (Cache.item Directions)) (nowGet nowSet : Z)
    (httpGet : string -> string -> string -> outcome DirectionsResponse)
    (origin destination : JSPoint) (found : Directions) :
  getDirectionsCached coordinates cache nowGet nowSet httpGet
    origin destination [] = (Ret found, cache') ->
  (forall best, bestRoute found = Some best ->
     fr_duration best = None \/ fr_duration_in_traffic best = None) ->
  getTrafficDataCached coordinates cache nowGet nowSet httpGet
    origin destination
  = (Throw (Error "Failed to get traffic data"), cache').
Proof.
  intros Hrun Hlack. unfold getTrafficDataCached. rewrite Hrun.
  cbn [fst snd bind]. unfold trafficOf.
  destruct (bestRoute found) as [best |]; [| reflexivity].
  destruct (Hlack best eq_refl) as [-> | Hnone]; [reflexivity |].
  rewrite Hnone. by destruct (fr_duration best).
Qed.

Lemma traffic_fails_without_traffic_duration_witness :
  exists found cache',
    getDirectionsCached Providers.coordinates ∅ 0 5
      Providers.directionsWithoutTraffic
      (Some Scenario.H) (Some Scenario.A) [] = (Ret found, cache')
    /\ cache' !! "directions_H_A_"%string
       = Some {| Cache.item_value := found;
                 Cache.expiry := (5 + CACHE_EXPIRY)%Z |}
    /\ getTrafficDataCached Providers.coordinates ∅ 0 5
         Providers.directionsWithoutTraffic (Some Scenario.H) (Some Scenario.A)
       = (Throw (Error "Failed to get traffic data"), cache').
Proof.
  destruct (getDirectionsCached Providers.coordinates ∅ 0 5
              Providers.directionsWithoutTraffic
              (Some Scenario.H) (Some Scenario.A) [])
    as [[found | |] cache'] eqn:Hrun;
    [| exfalso; unfold getDirectionsCached in Hrun; cbv zeta in Hrun;
       cbn in Hrun; discriminate ..].
  exists found, cache'. split; [reflexivity |].
  assert (Hshape : cache' !! "directions_H_A_"%string
                   = Some {| Cache.item_value := found;
                             Cache.expiry := (5 + CACHE_EXPIRY)%Z |}
                   /\ forall best, bestRoute found = Some best ->
                        fr_duration best = None
                        \/ fr_duration_in_traffic best = None).
  { unfold getDirectionsCached in Hrun. cbv zeta in Hrun. cbn in Hrun.
    injection Hrun as <- <-. split.
    - apply lookup_insert_eq.
    - intros best Hbest. injection Hbest as <-. right. reflexivity. }
  split; [exact (proj1 Hshape) |].
  exact (traffic_fails_without_traffic_duration Providers.coordinates ∅ cache'
           0 5 Providers.directionsWithoutTraffic (Some Scenario.H)
           (Some Scenario.A) found Hrun (proj2 Hshape)).
Defined.

(** ** The timers of the cache *)

Lemma elem_of_delete_other {A : Type} (l : list A) (i : nat) (x y : A) :
  l !! i = Some y -> x <> y -> x ∈ l -> x ∈ base.delete i l.
Proof.
  revert i. induction l as [| a rest IH]; intros i Hi Hne Hin.
  - by apply elem_of_nil in Hin.
  - destruct i as [| i]; simpl in *.
    + injection Hi as ->. apply elem_of_cons in Hin as [-> | Hin]; done.
    + apply elem_of_cons in Hin as [-> | Hin]; [left |].
      right. by apply (IH i).
Qed.

Lemma timers_kept_get {V : Type} (c : Timed.cache V) (now : Z) (key : string) :
  every_entry_has_a_timer c -> every_entry_has_a_timer (snd (Timed.get c now key)).
Proof.
  intros Hinv k item. unfold Timed.get, Cache.get. cbn [snd Timed.entries
    Timed.timers]. intros Hk.
  destruct (Timed.entries c !! key) as [stored |] eqn:Hstored;
    cbn [snd] in Hk; [| by eapply Hinv].
  destruct (Cache.expiry stored <? now)%Z; cbn [snd] in Hk;
    [| by eapply Hinv].
  unfold Cache.delete in Hk. apply lookup_delete_Some in Hk as [_ Hk].
  by eapply Hinv.
Qed.

Lemma timers_kept_has {V : Type} (c : Timed.cache V) (now : Z) (key : string) :
  every_entry_has_a_timer c -> every_entry_has_a_timer (snd (Timed.has c now key)).
Proof.
  intros Hinv k item. unfold Timed.has, Cache.has. cbn [snd Timed.entries
    Timed.timers]. intros Hk.
  destruct (Timed.entries c !! key) as [stored |] eqn:Hstored;
    cbn [snd] in Hk; [| by eapply Hinv].
  destruct (Cache.expiry stored <? now)%Z; cbn [snd] in Hk;
    [| by eapply Hinv].
  unfold Cache.delete in Hk. apply lookup_delete_Some in Hk as [_ Hk].
  by eapply Hinv.
Qed.

Lemma timers_kept_run {V : Type} (c : Timed.cache V)
    (event : Z * Timed.call V) :
  every_entry_has_a_timer c -> every_entry_has_a_timer (Timed.run c event).
Proof.
  intros Hinv. destruct event as [now [key value ttl | key | key | key | | i]];
    unfold Timed.run; cbn [fst snd].
  - intros k item. unfold Timed.set, Cache.set.
    cbn [Timed.entries Timed.timers]. intros Hk.
    destruct (decide (k = key)) as [-> | Hne].
    + eexists. apply elem_of_app. right. left.
    + rewrite lookup_insert_ne in Hk by done.
      destruct (Hinv k item Hk) as [due Hdue]. exists due.
      apply elem_of_app. by left.
  - by apply timers_kept_get.
  - by apply timers_kept_has.
  - intros k item. unfold Timed.delete, Cache.delete.
    cbn [Timed.entries Timed.timers]. intros Hk.
    apply lookup_delete_Some in Hk as [_ Hk]. by eapply Hinv.
  - intros k item. unfold Timed.clear, Cache.clear.
    cbn [Timed.entries]. intros Hk. by rewrite lookup_empty in Hk.
  - unfold Timed.fire.
    destruct (Timed.timers c !! i) as [[due key] |] eqn:Hi; [| exact Hinv].
    destruct (due <=? now)%Z; [| exact Hinv]. cbn [default from_option id].
    intros k item. cbn [Timed.entries Timed.timers]. unfold Cache.delete.
    intros Hk. apply lookup_delete_Some in Hk as [Hne Hk].
    destruct (Hinv k item Hk) as [due' Hdue']. exists due'.
    apply (elem_of_delete_other _ i _ (due, key)); [done | | done].
    intros [= _ ->]. done.
Qed.

(** X20: whatever the program and the event loop have done to a cache since
    its creation, every entry of its map has a pending timer that will delete
    it, so no entry stays without a callback. *)
Theorem every_cache_entry_awaits_its_timer {V : Type}
    (history : list (Z * Timed.call V)) (key : string) (item : Cache.item V) :
  Timed.entries (Timed.run_all history) !! key = Some item ->
  exists due, (due, key) ∈ Timed.timers (Timed.run_all history).
Proof.
  revert key item. change (every_entry_has_a_timer (Timed.run_all history)).
  unfold Timed.run_all.
  assert (Hgen : forall c : Timed.cache V,
            every_entry_has_a_timer c ->
            every_entry_has_a_timer (foldl Timed.run c history)).
  { induction history as [| event rest IH]; intros c Hc; [exact Hc |].
    simpl. apply IH. by apply timers_kept_run. }
  apply Hgen. intros k item Hk. cbn in Hk. by rewrite lookup_empty in Hk.
Qed.

Lemma every_cache_entry_awaits_its_timer_witness :
  let history :=
    [(0%Z, Timed.CallSet "a"%string 1 100%Z);
     (10%Z, Timed.CallSet "b"%string 2 50%Z);
     (70%Z, Timed.TimerFires 1);
     (80%Z, Timed.CallGet "a"%string)] in
  Timed.entries (Timed.run_all history) !! "a"%string
    = Some {| Cache.item_value := 1; Cache.expiry := 100%Z |}
  /\ exists due, (due, "a"%string) ∈ Timed.timers (Timed.run_all history).
Proof.
  intros history.
  assert (Hentry : Timed.entries (Timed.run_all history) !! "a"%string
                   = Some {| Cache.item_value := 1; Cache.expiry := 100%Z |})
    by (vm_compute; reflexivity).
  split; [exact Hentry |].
  exact (every_cache_entry_awaits_its_timer history "a"%string _ Hentry).
Defined.

(** X21: [set] does not cancel the timer of an earlier [set] of the same
    key: once the first timer can run it deletes the value stored by the
    second [set], which [get] returned until then, expired or not. *)
Theorem stale_timer_deletes_fresh_entry {V : Type} (c : Timed.cache V)
    (key : string) (first second : V) (now1 ttl1 now2 ttl2 now : Z) :
  (now1 + timeout_delay ttl1 <= now)%Z ->
  (now <= now2 + ttl2)%Z ->
  let stored :=
    Timed.set (Timed.set c now1 key first ttl1) now2 key second ttl2 in
  fst (Timed.get stored now key) = Some second
  /\ exists fired,
       Timed.fire stored now (length (Timed.timers c)) = Some fired
       /\ Timed.entries fired !! key = None
       /\ fst (Timed.get fired now key) = None.
Proof.
  intros Hdue Hfresh stored. split.
  - unfold stored, Timed.get. cbn [fst Timed.set Timed.entries].
    by rewrite cache_get_live.
  - unfold Timed.fire, stored, Timed.set. cbn [Timed.timers Timed.entries].
    rewrite <- app_assoc, lookup_app_r by lia.
    rewrite Nat.sub_diag. cbn [lookup list_lookup app].
    replace (now1 + timeout_delay ttl1 <=? now)%Z with true
      by (symmetry; apply Z.leb_le; lia).
    eexists. split; [reflexivity |]. cbn [Timed.entries].
    assert (Hgone : Cache.delete
                      (Cache.set (Cache.set (Timed.entries c) now1 key first
                                    ttl1) now2 key second ttl2) key
                    !! key = None)
      by (unfold Cache.delete; apply lookup_delete_eq).
    split; [exact Hgone |].
    unfold Timed.get, Cache.get. cbn [fst Timed.entries].
    by rewrite Hgone.
Qed.

Lemma stale_timer_deletes_fresh_entry_witness :
  let stored :=
    Timed.set (Timed.set (Timed.empty : Timed.cache nat) 0 "k" 1 100)
      50 "k" 2 1000 in
  (0 + timeout_delay 100 <= 100)%Z
  /\ (100 <= 50 + 1000)%Z
  /\ fst (Timed.get stored 100 "k") = Some 2
  /\ exists fired,
       Timed.fire stored 100 0 = Some fired
       /\ Timed.entries fired !! "k"%string = None
       /\ fst (Timed.get fired 100 "k") = None.
Proof.
  intros stored. split; [vm_compute; discriminate |].
  split; [lia |].
  exact (stale_timer_deletes_fresh_entry (Timed.empty : Timed.cache nat)
           "k" 1 2 0 100 50 1000 100
           ltac:(vm_compute; discriminate) ltac:(lia)).
Defined.

(** ** cachify *)

(** X22: when the entry of the key expires between the clock readings of
    [has] and [get], the function made by [cachify] returns [undefined]
    without calling the function it wraps, and the entry is removed. *)
Theorem cachify_expiry_between_has_and_get {V : Type} (call : outcome V)
    (ttl : Z) (cache : gmap string (Cache.item V)) (nowHas nowGet nowSet : Z)
    (key : string) (item : Cache.item V) :
  cache !! key = Some item ->
  (nowHas <= Cache.expiry item < nowGet)%Z ->
  cachify call ttl cache nowHas nowGet nowSet key
  = (Ret None, Cache.delete cache key).
Proof.
  intros Hitem [Hhas Hget]. unfold cachify, Cache.has, Cache.get.
  rewrite Hitem.
  replace (Cache.expiry item <? nowHas)%Z with false
    by (symmetry; apply Z.ltb_ge; lia).
  cbn [fst snd]. rewrite Hitem.
  replace (Cache.expiry item <? nowGet)%Z with true
    by (symmetry; apply Z.ltb_lt; lia).
  reflexivity.
Qed.

Lemma cachify_expiry_between_has_and_get_witness :
  let cache := Cache.set (∅ : gmap string (Cache.item nat)) 0 "f_[]" 7 100 in
  cache !! "f_[]"%string
    = Some {| Cache.item_value := 7; Cache.expiry := 100%Z |}
  /\ cachify (Ret 8) 100 cache 100 101 102 "f_[]"
     = (Ret None, Cache.delete cache "f_[]").
Proof.
  intros cache.
  assert (Hitem : cache !! "f_[]"%string
                  = Some {| Cache.item_value := 7; Cache.expiry := 100%Z |})
    by apply lookup_insert_eq.
  split; [exact Hitem |].
  exact (cachify_expiry_between_has_and_get (Ret 8) 100 cache 100 101 102
           "f_[]" _ Hitem ltac:(cbn; lia)).
Defined.

(** ** The handlers at their edges *)

Lemma on_axis_falsy (p : Point) :
  on_axis p ->
  negb (truthy_number (lat p)) || negb (truthy_number (lng p)) = true.
Proof.
  intros [(q & Hlat & Hq) | (q & Hlng & Hq)]; apply Qeq_bool_iff in Hq.
  - rewrite Hlat. cbn [truthy_number]. by rewrite Hq.
  - rewrite Hlng. cbn [truthy_number]. rewrite Hq. apply orb_true_r.
Qed.

(** X23: a point with a coordinate equal to zero counts as having no
    coordinates: as start point of [optimizeRoute], [compareAlgorithms] and
    [simulateFuelSavings], as current position of [reoptimizeCurrentRoute]
    and as origin of [getRouteTrafficData] it is answered with 400, before
    any service is called. *)
Theorem zero_coordinate_is_rejected
    (cacheGet : list JSPoint -> bool -> option RawMatrix)
    (httpGet : list Point -> bool -> outcome Response)
    (geocodeAddress : string -> outcome GeoResult) (production : bool)
    (getTrafficData : Point -> Point -> outcome TrafficData) (here : Point) :
  on_axis here ->
  (forall p ps name,
     optimizeRoute cacheGet httpGet geocodeAddress production
       {| deliveryPoints := IsArray (p :: ps); startPoint := Some here;
          algorithm := name |}
     = Ret (Status400 "Start point with lat/lng coordinates is required"))
  /\ (forall clock p ps,
        compareAlgorithms cacheGet httpGet geocodeAddress production clock
          {| cmp_deliveryPoints := IsArray (p :: ps);
             cmp_startPoint := Some here |}
        = Ret (Status400 "Start point with lat/lng coordinates is required"))
  /\ (forall p ps cost consumption,
        simulateFuelSavings cacheGet httpGet geocodeAddress production
          {| sim_deliveryPoints := IsArray (p :: ps);
             sim_startPoint := Some here;
             fuelCostPerLiter := cost;
             vehicleConsumptionLPer100Km := consumption |}
        = Ret (Status400 "Start point with lat/lng coordinates is required"))
  /\ (forall p ps index name,
        reoptimizeCurrentRoute cacheGet httpGet production
          {| currentRoute := IsArray (p :: ps); currentPosition := Some here;
             currentPointIndex := index; re_algorithm := name |}
        = Ret (Status400
                 "Current position with lat/lng coordinates is required"))
  /\ (forall to,
        getRouteTrafficData production getTrafficData
          {| origin := Some here; destination := to |}
        = Ret (Status400 "Origin with lat/lng coordinates is required")).
Proof.
  intros Haxis. apply on_axis_falsy in Haxis.
  split; [| split; [| split; [| split]]]; intros.
  - unfold optimizeRoute. cbn [deliveryPoints startPoint].
    rewrite Haxis. reflexivity.
  - unfold compareAlgorithms. cbn [cmp_deliveryPoints cmp_startPoint].
    rewrite Haxis. reflexivity.
  - unfold simulateFuelSavings. cbn [sim_deliveryPoints sim_startPoint].
    rewrite Haxis. reflexivity.
  - unfold reoptimizeCurrentRoute. cbn [currentRoute currentPosition].
    rewrite Haxis. reflexivity.
  - unfold getRouteTrafficData. cbn [origin]. rewrite Haxis. reflexivity.
Qed.

Lemma zero_coordinate_is_rejected_witness :
  let equator := Scenario.point "E" 0 (7759 # 100) in
  on_axis equator
  /\ optimizeRoute Scenario.emptyCache Scenario.provider Scenario.noGeocoder
       false
       {| deliveryPoints := IsArray [Scenario.A; Scenario.B];
          startPoint := Some equator; algorithm := Some "tsp"%string |}
     = Ret (Status400 "Start point with lat/lng coordinates is required").
Proof.
  intros equator.
  assert (Haxis : on_axis equator)
    by (left; exists 0%Q; split; reflexivity).
  split; [exact Haxis |].
  exact (proj1 (zero_coordinate_is_rejected Scenario.emptyCache
                  Scenario.provider Scenario.noGeocoder false
                  (fun _ _ => Throw TypeError) equator Haxis)
           Scenario.A [Scenario.B] (Some "tsp"%string)).
Defined.



Lemma mapM_throws {A B} (f : A -> outcome B) (l : list A) (a : A) (e : error) :
  (forall x, f x <> OutOfFuel) -> a ∈ l -> f a = Throw e ->
  exists a' e', a' ∈ l /\ f a' = Throw e' /\ mapM f l = Throw e'.
Proof.
  intros Hfuel Hin Ha. induction l as [| x rest IH].
  - by apply elem_of_nil in Hin.
  - simpl. destruct (f x) as [b | e' |] eqn:Hx.
    + apply elem_of_cons in Hin as [-> | Hin]; [congruence |].
      destruct (IH Hin) as (a' & e' & Hin' & Ha' & ->).
      exists a', e'. split; [by right |]. split; [done | reflexivity].
    + exists x, e'. split; [by left |]. split; [done | reflexivity].
    + by destruct (Hfuel x).
Qed.

(** X25: when the geocoding of one delivery point fails, [optimizeRoute]
    answers 500 for the whole request, with the message of a failed
    geocoding outside production, whatever the other points are. *)
Theorem geocoding_failure_fails_the_request
    (cacheGet : list JSPoint -> bool -> option RawMatrix)
    (httpGet : list Point -> bool -> outcome Response)
    (geocodeAddress : string -> outcome GeoResult) (production : bool)
    (body : OptimizeBody) (points : list Point) (start point : Point)
    (e : error) :
  (forall address, geocodeAddress address <> OutOfFuel) ->
  deliveryPoints body = IsArray points ->
  startPoint body = Some start ->
  truthy_number (lat start) = true ->
  truthy_number (lng start) = true ->
  point ∈ points ->
  needs_geocoding point = true ->
  geocodeAddress (default EmptyString (address point)) = Throw e ->
  exists failed e',
    failed ∈ points
    /\ geocodeAddress (default EmptyString (address failed)) = Throw e'
    /\ optimizeRoute cacheGet httpGet geocodeAddress production body
       = Ret (Status500 "Failed to optimize route"
                (if production then None else Some (message_of e'))).
Proof.
  intros Hfuel Hpoints Hstart Hlat Hlng Hin Hneeds He.
  assert (Hthrows : processPoint geocodeAddress point = Throw e).
  { unfold processPoint. fold (needs_geocoding point). rewrite Hneeds, He.
    reflexivity. }
  assert (Hpfuel : forall x, processPoint geocodeAddress x <> OutOfFuel).
  { intros x. unfold processPoint. destruct (_ && _); [| discriminate].
    apply bind_fuel; [apply Hfuel | discriminate]. }
  destruct (mapM_throws _ points point e Hpfuel Hin Hthrows)
    as (failed & e' & Hin' & Hfailed & Hall).
  exists failed, e'. split; [exact Hin' |]. split.
  - unfold processPoint in Hfailed. destruct (_ && _); [| discriminate].
    destruct (geocodeAddress (default EmptyString (address failed)));
      [discriminate | | discriminate].
    cbn [bind] in Hfailed. congruence.
  - unfold optimizeRoute. rewrite Hpoints, Hstart, Hlat, Hlng.
    destruct points as [| p ps]; [by apply elem_of_nil in Hin |].
    cbn [negb orb]. cbv zeta. rewrite Hall. reflexivity.
Qed.

Lemma geocoding_failure_fails_the_request_witness :
  let unlocated :=
    {| orderId := Some "U"%string; lat := None; lng := None;
       address := Some "nowhere"%string; formattedAddress := None |} in
  exists failed e',
    failed ∈ [Scenario.A; unlocated]
    /\ Scenario.noGeocoder (default EmptyString (address failed)) = Throw e'
    /\ optimizeRoute Scenario.emptyCache Scenario.provider Scenario.noGeocoder
         false
         {| deliveryPoints := IsArray [Scenario.A; unlocated];
            startPoint := Some Scenario.H; algorithm := None |}
       = Ret (Status500 "Failed to optimize route"
                (Some (message_of e'))).
Proof.
  intros unlocated.
  exact (geocoding_failure_fails_the_request Scenario.emptyCache
           Scenario.provider Scenario.noGeocoder false
           {| deliveryPoints := IsArray [Scenario.A; unlocated];
              startPoint := Some Scenario.H; algorithm := None |}
           [Scenario.A; unlocated] Scenario.H unlocated
           (Error "Failed to geocode address using Google Maps API")
           ltac:(discriminate) eq_refl eq_refl eq_refl eq_refl
           ltac:(right; left) eq_refl eq_refl).
Defined.

(** ** The fuel simulation *)

Lemma toFixed2_zero (q : Q) : q == 0 -> toFixed2 q = "0.00"%string.
Proof.
  intros Hq. unfold toFixed2. cbv zeta.
  assert (Hfloor : Qfloor (Qabs q * 100 + (1 # 2)) = 0%Z).
  { rewrite (Qfloor_comp _ (1 # 2)); [reflexivity |]. by rewrite Hq. }
  rewrite Hfloor.
  destruct (Qlt_le_dec q 0) as [Hneg | _]; [| reflexivity].
  rewrite Hq in Hneg. by apply Qlt_irrefl in Hneg.
Qed.

Lemma divide_zero_by_zero (a b : Q) : a == 0 -> b == 0 -> divide a b = NotANumber.
Proof.
  intros Ha Hb. unfold divide.
  apply Qeq_bool_iff in Ha, Hb. by rewrite Ha, Hb.
Qed.

(** What a successful simulation is made of. *)
Lemma simulateFuelSavings_200
    (cacheGet : list JSPoint -> bool -> option RawMatrix)
    (httpGet : list Point -> bool -> outcome Response)
    (geocodeAddress : string -> outcome GeoResult) (production : bool)
    (body : SimulateBody) (sim : Simulation) :
  simulateFuelSavings cacheGet httpGet geocodeAddress production body
    = Ret (Status200 sim) ->
  exists p ps start processed,
    sim_deliveryPoints body = IsArray (p :: ps)
    /\ sim_startPoint body = Some start
    /\ negb (truthy_number (lat start)) || negb (truthy_number (lng start))
       = false
    /\ mapM (processPoint geocodeAddress) (p :: ps) = Ret processed
    /\ sim_route (nonOptimized sim) = Some start :: map Some processed
    /\ calculateRouteMetrics cacheGet httpGet (Some start :: map Some processed)
       = Ret (sim_metrics (nonOptimized sim))
    /\ findOptimalRouteTSP cacheGet httpGet (map Some processed) (Some start)
       = Ret (sim_route (optimized sim))
    /\ calculateTSPRouteMetrics cacheGet httpGet (sim_route (optimized sim))
       = Ret (sim_metrics (optimized sim))
    /\ let consumption := default 10%Q (vehicleConsumptionLPer100Km body) in
       let before :=
         (totalDistance (sim_metrics (nonOptimized sim)) * consumption / 100)%Q
       in
       let after :=
         (totalDistance (sim_metrics (optimized sim)) * consumption / 100)%Q in
       let price := default (15 # 10)%Q (fuelCostPerLiter body) in
       savedPercentage (savings sim)
       = toFixed (scale (divide (before - after) before) 100)
       /\ fuelSavingsLiters (savings sim) = toFixed2 (before - after)
       /\ fuelSavingsCost (savings sim)
          = toFixed2 (before * price - after * price)
       /\ fuelConsumptionLiters (nonOptimized sim) = toFixed2 before
       /\ fuelConsumptionLiters (optimized sim) = toFixed2 after.
Proof.
  intros Hrun. apply respond500_200 in Hrun.
  destruct (sim_deliveryPoints body) as [| | [| p ps]]; try discriminate.
  destruct (sim_startPoint body) as [start |]; [| discriminate].
  destruct (negb (truthy_number (lat start))
            || negb (truthy_number (lng start))) eqn:Hguard;
    [discriminate |].
  cbv zeta in Hrun. ret_inv Hrun. ret_inv Hrun. ret_inv Hrun. ret_inv Hrun.
  injection Hrun as <-. exists p, ps, start, a.
  cbn [nonOptimized optimized savings sim_route sim_metrics savedPercentage
       fuelSavingsLiters fuelSavingsCost fuelConsumptionLiters].
  repeat (split; [done |]). done.
Qed.



(** X27: a simulation for a vehicle that consumes nothing, or over two runs
    of length zero, reports the percentage of fuel saved as [NaN] (zero
    divided by zero) beside savings of 0.00 litres. *)
Theorem simulation_percentage_is_not_a_number
    (cacheGet : list JSPoint -> bool -> option RawMatrix)
    (httpGet : list Point -> bool -> outcome Response)
    (geocodeAddress : string -> outcome GeoResult) (production : bool)
    (body : SimulateBody) (sim : Simulation) :
  simulateFuelSavings cacheGet httpGet geocodeAddress production body
    = Ret (Status200 sim) ->
  default 10%Q (vehicleConsumptionLPer100Km body) == 0
  \/ (totalDistance (sim_metrics (nonOptimized sim)) == 0
      /\ totalDistance (sim_metrics (optimized sim)) == 0) ->
  savedPercentage (savings sim) = "NaN"%string
  /\ fuelSavingsLiters (savings sim) = "0.00"%string
  /\ fuelSavingsCost (savings sim) = "0.00"%string.
Proof.
  intros Hrun Hzero. apply simulateFuelSavings_200 in Hrun
    as (_ & _ & _ & _ & _ & _ & _ & _ & _ & _ & _ & _ & Hfigures).
  cbv zeta in Hfigures.
  destruct Hfigures as (-> & -> & -> & _).
  set (consumption := default 10%Q (vehicleConsumptionLPer100Km body)) in *.
  set (given := totalDistance (sim_metrics (nonOptimized sim))) in *.
  set (best := totalDistance (sim_metrics (optimized sim))) in *.
  assert (Hbefore : given * consumption / 100 == 0).
  { unfold Qdiv. destruct Hzero as [-> | [-> _]]; ring. }
  assert (Hafter : best * consumption / 100 == 0).
  { unfold Qdiv. destruct Hzero as [-> | [_ ->]]; ring. }
  split; [| split].
  - rewrite divide_zero_by_zero; [reflexivity | | exact Hbefore].
    rewrite Hbefore, Hafter. reflexivity.
  - apply toFixed2_zero. rewrite Hbefore, Hafter. reflexivity.
  - apply toFixed2_zero. rewrite Hbefore, Hafter. reflexivity.
Qed.

Lemma simulation_percentage_is_not_a_number_witness :
  let body :=
    {| sim_deliveryPoints := IsArray [Scenario.C; Scenario.A; Scenario.B];
       sim_startPoint := Some Scenario.H;
       fuelCostPerLiter := Some (2 # 1);
       vehicleConsumptionLPer100Km := Some 0%Q |} in
  exists sim,
    simulateFuelSavings Scenario.emptyCache Scenario.provider
      Scenario.noGeocoder false body = Ret (Status200 sim)
    /\ savedPercentage (savings sim) = "NaN"%string.
Proof.
  intros body.
  destruct (simulateFuelSavings Scenario.emptyCache Scenario.provider
              Scenario.noGeocoder false body) as [[msg | sim | msg e] | |]
    eqn:Hrun; try (exfalso; vm_compute in Hrun; discriminate).
  exists sim. split; [reflexivity |].
  exact (proj1 (simulation_percentage_is_not_a_number _ _ _ _ body sim Hrun
                  (or_introl (Qeq_refl 0)))).
Defined.

(** ** The comparison when every leg out of the hub is served *)

(** X28: whenever the first row of the oracle's matrix holds no [null],
    [compareAlgorithms] reports for the frontier heuristic the start point
    alone with distance and time zero, and so recommends [dijkstra] exactly
    when the tour of the TSP family has a positive length. *)
Theorem compare_frontier_run_is_hub_alone
    (cacheGet : list JSPoint -> bool -> option RawMatrix)
    (httpGet : list Point -> bool -> outcome Response)
    (geocodeAddress : string -> outcome GeoResult) (production : bool)
    (clock : Clock) (body : CompareBody) (comparison : Comparison)
    (start : Point) (points processed : list Point)
    (distanceMatrix : RawMatrix) (row : list (option Cell)) :
  cmp_startPoint body = Some start ->
  cmp_deliveryPoints body = IsArray points ->
  mapM (processPoint geocodeAddress) points = Ret processed ->
  getDistanceMatrix cacheGet httpGet (Some start :: map Some processed) true
    = Ret distanceMatrix ->
  distanceMatrix !! 0 = Some row ->
  Forall (fun cell => cell <> None) row ->
  compareAlgorithms cacheGet httpGet geocodeAddress production clock body
    = Ret (Status200 comparison) ->
  route (dijkstra comparison) = [Some start]
  /\ totalDistance (run_metrics (dijkstra comparison)) == 0
  /\ totalTime (run_metrics (dijkstra comparison)) == 0
  /\ (recommended comparison = "dijkstra"%string
      <-> (0 < totalDistance (run_metrics (tsp comparison)))%Q).
Proof.
  intros Hstart Hpoints Hprocessed Hm Hrow Hobj Hrun.
  apply respond500_200 in Hrun. rewrite Hpoints, Hstart in Hrun.
  destruct points as [| p ps]; [discriminate |].
  destruct (negb (truthy_number (lat start))
            || negb (truthy_number (lng start))); [discriminate |].
  rewrite Hprocessed in Hrun. cbn [bind] in Hrun.
  rewrite (frontier_never_leaves_hub cacheGet httpGet _ _ _ row Hm Hrow Hobj)
    in Hrun.
  cbn [bind] in Hrun. cbv zeta in Hrun.
  ret_inv Hrun. ret_inv Hrun. ret_inv Hrun. injection Hrun as <-.
  cbn [route dijkstra tsp run_metrics recommended].
  apply rethrow_Ret in Ha. ret_inv Ha. cbn in Ha. injection Ha as <-.
  cbn [totalDistance totalTime].
  split; [reflexivity |]. split; [reflexivity |]. split; [reflexivity |].
  destruct (Qle_bool (totalDistance a1) (inject_Z 0 / 1000)) eqn:Hle.
  - apply Qle_bool_iff in Hle. split; [discriminate |].
    intros Hpos. exfalso.
    pose proof (Qlt_le_trans _ _ _ Hpos Hle) as Habs.
    vm_compute in Habs. discriminate.
  - split; [intros _ | reflexivity].
    apply Qnot_le_lt. intros Hneg.
    assert (Hq : (totalDistance a1 <= inject_Z 0 / 1000)%Q).
    { apply (Qle_trans _ 0); [exact Hneg |]. vm_compute. discriminate. }
    apply Qle_bool_iff in Hq. congruence.
Qed.

Lemma compare_frontier_run_is_hub_alone_witness :
  let body :=
    {| cmp_deliveryPoints := IsArray [Scenario.C; Scenario.A; Scenario.B];
       cmp_startPoint := Some Scenario.H |} in
  let clock :=
    {| startTime1 := 0; endTime1 := 3; startTime2 := 3; endTime2 := 5 |} in
  exists comparison,
    compareAlgorithms Scenario.emptyCache Scenario.provider
      Scenario.noGeocoder false clock body = Ret (Status200 comparison)
    /\ route (dijkstra comparison) = [Some Scenario.H]
    /\ totalDistance (run_metrics (dijkstra comparison)) == 0.
Proof.
  intros body clock.
  destruct (compareAlgorithms Scenario.emptyCache Scenario.provider
              Scenario.noGeocoder false clock body)
    as [[msg | comparison | msg e] | |] eqn:Hrun;
    try (exfalso; vm_compute in Hrun; discriminate).
  destruct (getDistanceMatrix Scenario.emptyCache Scenario.provider
              (Some Scenario.H
               :: map Some [Scenario.C; Scenario.A; Scenario.B]) true)
    as [m | |] eqn:Hm; [| exfalso; vm_compute in Hm; discriminate ..].
  destruct (m !! 0) as [row |] eqn:Hrow;
    [| exfalso; vm_compute in Hm; injection Hm as <-; discriminate].
  assert (Hobj : Forall (fun cell => cell <> None) row).
  { vm_compute in Hm. injection Hm as <-. injection Hrow as <-.
    repeat constructor; discriminate. }
  exists comparison. split; [reflexivity |].
  destruct (compare_frontier_run_is_hub_alone Scenario.emptyCache
              Scenario.provider Scenario.noGeocoder false clock body
              comparison Scenario.H [Scenario.C; Scenario.A; Scenario.B]
              [Scenario.C; Scenario.A; Scenario.B] m row
              eq_refl eq_refl eq_refl Hm Hrow Hobj Hrun)
    as (Hroute & Hdistance & _).
  split; [exact Hroute | exact Hdistance].
Defined.

(** ** The error middleware *)

(** X29: an error made by [createError] is answered by [errorHandler] with
    its status code only when that is 400, 401, 403, 404 or 429; with any
    other code, and with none, the answer is 500: the [statusCode] stored in
    the error is never read. *)
Theorem created_error_status (production : bool) (message : string)
    (statusCode : option Z) :
  let code := default 500%Z statusCode in
  Middleware.reply_status
    (Middleware.errorHandler production false
       (Middleware.createError message statusCode))
  = Some (if (code =? 400)%Z || (code =? 401)%Z || (code =? 403)%Z
             || (code =? 404)%Z || (code =? 429)%Z
          then code else 500%Z).
Proof.
  intros code. unfold Middleware.createError. cbv zeta. fold code.
  unfold Middleware.errorHandler, Middleware.has_code, Middleware.has_type.
  cbn [Middleware.name Middleware.code Middleware.err_type
       Middleware.details Middleware.message].
  destruct (Z.eqb_spec code 400) as [-> | _]; [reflexivity |].
  destruct (Z.eqb_spec code 401) as [-> | _]; [reflexivity |].
  destruct (Z.eqb_spec code 403) as [-> | _]; [reflexivity |].
  destruct (Z.eqb_spec code 404) as [-> | _]; [reflexivity |].
  destruct (Z.eqb_spec code 429) as [-> | _]; reflexivity.
Qed.

(** X30: a request refused by [validate] is answered, once [errorHandler]
    gets the error, with 400 and the fixed text [Validation error] as its
    details: the list of details the middleware builds from the schema's
    error is given to [createError], which takes no third argument, and
    reaches nobody. *)
Theorem validation_details_are_dropped {Data : Type}
    (schema : Data -> option (list Middleware.SchemaDetail) * Data)
    (data : Data) (errorDetails : list Middleware.SchemaDetail)
    (production : bool) :
  fst (schema data) = Some errorDetails ->
  exists err,
    Middleware.validate schema data = inl err
    /\ Middleware.details err = None
    /\ Middleware.errorHandler production false err
       = Middleware.Send 400 "Validation Error"
           (Middleware.DetailsText "Validation error").
Proof.
  intros Hinvalid. unfold Middleware.validate. rewrite Hinvalid.
  eexists. split; [reflexivity |]. split; reflexivity.
Qed.

Lemma validation_details_are_dropped_witness :
  exists err,
    Middleware.validate Middleware.driverIdSchema None = inl err
    /\ Middleware.details err = None
    /\ Middleware.errorHandler false false err
       = Middleware.Send 400 "Validation Error"
           (Middleware.DetailsText "Validation error").
Proof.
  exact (validation_details_are_dropped Middleware.driverIdSchema None _ false
           eq_refl).
Defined.
